(** * Serenity block and state execution core (ethereum/serenity_blocks.py)

    A shallow embedding of the journaled [State], of [Block] construction,
    of [apply_msg], [tx_state_transition] and [block_state_transition],
    together with the properties of the specification that were checked
    against them. *)

From Stdlib Require Import ZArith String Ascii List Lia Bool.
From stdpp Require Import base option list gmap strings.

Open Scope string_scope.
Open Scope Z_scope.

(** Python 2 [str] values are byte strings: a [string] of 8-bit characters. *)
Abbreviation bytes := string (only parsing).

(** ** Python values and exceptions *)

(** Storage keys and values reach [State] either as integers or as byte
    strings ([isinstance(k, (int, long))]). *)
Inductive pyval :=
| PInt (z : Z)
| PStr (s : bytes).

Inductive exn :=
| AssertionError
| KeyError
| AttributeError
| ZeroDivisionError
| ValueError
| PyException      (* [raise Exception(...)] *)
| IndexError       (* [pop] from an empty list *)
| RecursionError   (* call depth exhausted *).

#[global] Instance exn_eq_dec : EqDecision exn.
Proof. solve_decision. Defined.

(** ** A state-and-exception monad

    Every routine of the module mutates objects in place and may raise; a
    computation maps the mutable world to a result carrying either a value
    or the exception raised, and in both cases the world as it was left. *)
Inductive res (W A : Type) :=
| Ok (a : A) (w : W)
| Raise (e : exn) (w : W).
Arguments Ok {W A} a w.
Arguments Raise {W A} e w.

Definition M (W A : Type) := W -> res W A.

Definition ret {W A} (a : A) : M W A := fun w => Ok a w.
Definition raise {W A} (e : exn) : M W A := fun w => Raise e w.
Definition bind {W A B} (m : M W A) (k : A -> M W B) : M W B :=
  fun w => match m w with
           | Ok a w' => k a w'
           | Raise e w' => Raise e w'
           end.
Definition gets {W A} (f : W -> A) : M W A := fun w => Ok (f w) w.
Definition modify {W} (f : W -> W) : M W unit := fun w => Ok tt (f w).
Definition lift_opt {W A} (e : exn) (o : option A) : M W A :=
  match o with Some a => ret a | None => raise e end.
Definition assert {W} (b : bool) : M W unit :=
  if b then ret tt else raise AssertionError.

Notation "'let*' x ':=' m 'in' k" := (bind m (fun x => k))
  (at level 10, x pattern, m at level 100, k at level 200).
Notation "m ';;' k" := (bind m (fun _ => k))
  (at level 100, k at level 200, right associativity).

(** The world a result leaves behind, and the value or exception it carries. *)
Definition res_world {W A} (r : res W A) : W :=
  match r with Ok _ w => w | Raise _ w => w end.
Definition res_value {W A} (r : res W A) : A + exn :=
  match r with Ok a _ => inl a | Raise e _ => inr e end.

(** ** Integer and byte-string helpers (utils) *)

Definition ord (c : ascii) : Z := Z.of_N (N_of_ascii c).
Definition byte_of (z : Z) : ascii := ascii_of_N (Z.to_N z).

(** Python's [chr]: defined on [0, 256) only. *)
Definition chr (z : Z) : option ascii :=
  if decide (0 <= z < 256) then Some (byte_of z) else None.

Definition zero_byte : ascii := Ascii.zero.

Fixpoint repeat_byte (c : ascii) (n : nat) : bytes :=
  match n with
  | O => ""
  | S n' => String c (repeat_byte c n')
  end.

(** Modelled from the spec: [utils.big_endian_to_int] is not under src/; a
    byte string read as a big-endian integer, the empty string being 0. *)
Fixpoint big_endian_to_int_from (acc : Z) (s : bytes) : Z :=
  match s with
  | EmptyString => acc
  | String c s' => big_endian_to_int_from (acc * 256 + ord c) s'
  end.
Definition big_endian_to_int (s : bytes) : Z := big_endian_to_int_from 0 s.

(** Modelled from the spec: [int_to_big_endian] is not under src/; the
    shortest big-endian byte string of a positive integer, built digit by
    digit while the value is positive (so 0, and any negative value, give
    the empty string). *)
Fixpoint int_to_big_endian_loop (fuel : nat) (value : Z) (acc : bytes) : bytes :=
  match fuel with
  | O => acc
  | S fuel' =>
      if 0 <? value
      then int_to_big_endian_loop fuel' (value / 256)
             (String (byte_of (value mod 256)) acc)
      else acc
  end.
Definition int_to_big_endian (value : Z) : bytes :=
  int_to_big_endian_loop (S (Z.to_nat (Z.log2 value))) value "".

(** Modelled from the spec: [utils.zpad] is not under src/; left padding
    with zero bytes up to a width, never truncating. *)
Definition zpad (x : bytes) (l : nat) : bytes :=
  repeat_byte zero_byte (l - String.length x) +:+ x.

(** Modelled from the spec: [utils.encode_int32] is not under src/;
    "integer keys/values are canonicalized to fixed-width big-endian
    32-byte strings". *)
Definition encode_int32 (v : Z) : bytes := zpad (int_to_big_endian v) 32.

(** Modelled from the spec: [utils.encode_int] is not under src/; the
    serialization of an integer of [0, 2^256), an exception otherwise. *)
Definition encode_int (v : Z) : option bytes :=
  if decide (0 <= v < 2 ^ 256) then Some (int_to_big_endian v) else None.

(** [isinstance(k, (int, long))] then [encode_int32(k)], else [k] itself. *)
Definition canon (k : pyval) : bytes :=
  match k with
  | PInt z => encode_int32 z
  | PStr s => s
  end.

(** ** External collaborators

    The trie library, the serializer, the hash, the address helpers of
    [utils], the virtual machine, the special-address registry and the
    constants of [config] are imported by the module and are not part of
    it. They are the fields of the class below; everything that follows is
    stated for an arbitrary instance. *)

(** vm.CallData: the payload of a message, opaque apart from
    [extract_all]. *)
Record CallData := mkCallData {
  cd_data : list Z;
  cd_offset : Z;
  cd_size : Z
}.

(** vm.Message, with the attributes the module reads. *)
Record Message := mkMessage {
  msg_sender : bytes;
  msg_to : bytes;
  msg_value : Z;
  msg_gas : Z;
  msg_data : CallData;
  transfers_value : bool;
  msg_left_bound : Z;
  msg_right_bound : Z
}.

(** serenity_transactions.Transaction, with the attributes the module
    reads. *)
Record Transaction := mkTransaction {
  tx_addr : bytes;
  tx_code : bytes;
  tx_data : bytes;
  tx_gas : Z;
  exec_gas : Z;
  tx_intrinsic_gas : Z;
  tx_left_bound : Z;
  tx_right_bound : Z
}.

(** class BlockHeader *)
Record BlockHeader := mkBlockHeader {
  number : Z;
  txroot : bytes;
  proposer : bytes;
  sig : bytes
}.

(** class TransactionGroupSummary. The four serialized fields are set by
    the constructor; [intrinsic_gas] is an attribute that exists only once
    something has assigned it. *)
Record TransactionGroupSummary := mkSummary {
  gas_limit : Z;
  left_bound : Z;
  right_bound : Z;
  transaction_hash : bytes;
  intrinsic_gas : option Z
}.

(** The triple returned by [apply_msg], [vm_execute] and the specials. *)
Abbreviation triple := (Z * Z * list Z)%type (only parsing).

(** What the virtual machine (or a special) does with the façade it is
    given: a tree of façade calls ending in the triple it returns. The
    machine sees the state only through these calls ([log_storage], a
    diagnostic dump that writes nothing, is left out). *)
Inductive vmprog :=
| VRet (r : triple)
| VGet (addr : bytes) (k : pyval) (cont : bytes -> vmprog)
| VSet (addr : bytes) (k v : pyval) (cont : vmprog)
| VUnhash (h : bytes) (cont : bytes -> vmprog)
| VPutHashData (d : bytes) (cont : vmprog)
| VMsg (m : Message) (code : bytes) (cont : triple -> vmprog)
| VStaticMsg (m : Message) (code : bytes) (cont : triple -> vmprog)
| VRaise (e : exn).

Class Env := {
  (* rlp *)
  rlp_encode_list : list bytes -> bytes;        (* [rlp.encode] of a list of strings *)
  rlp_encode_txgroup : list Transaction -> bytes;
  rlp_encode_summaries : list TransactionGroupSummary -> bytes;
  rlp_encode_header : BlockHeader -> bytes;
  rlp_insert : bytes -> Z -> bytes -> bytes;
  (* utils *)
  sha3 : bytes -> bytes;
  normalize_address : bytes -> option bytes;
  shardify : bytes -> Z -> bytes;
  get_shard : bytes -> Z;
  match_shard : bytes -> bytes -> bytes;
  str_of_int : Z -> bytes;                      (* Python's [str] on an int *)
  (* the trie library: the 32-byte root hash of an account trie *)
  trie_root_hash : gmap bytes (gmap bytes bytes) -> bytes;
  (* fastvm and specials *)
  extract_all : CallData -> bytes;
  vm_execute : Message -> bytes -> bool -> vmprog;
  specials : Z -> option (Message -> vmprog);
  (* config *)
  BLOCKHASHES : bytes;
  STATEROOTS : bytes;
  BLKNUMBER : bytes;
  CASPER : bytes;
  ETHER : bytes;
  PROPOSER : bytes;
  RNGSEEDS : bytes;
  LOG : bytes;
  EXECUTION_STATE : bytes;
  NULL_SENDER : bytes;
  GAS_REMAINING : pyval;
  TXGAS : pyval;
  TXINDEX : pyval;
  GASLIMIT : Z;
  MAXSHARDS : Z;
  ADDR_BYTES : nat;
  UNHASH_MAGIC_BYTES : bytes
}.

(** ** The journaled state (class State) *)

(** The content of an account's storage trie, and of the account trie
    (each account with the content of its storage trie). *)
Abbreviation storage := (gmap bytes bytes) (only parsing).
Abbreviation trie := (gmap bytes (gmap bytes bytes)) (only parsing).

(** Modelled from the spec: the trie library ([trie.Trie]) is not under
    src/. A trie is the finite map it stores, and [get] of an absent key
    is the empty string. Old roots stay readable because the backing store
    only grows, so a root hash stands for the map it denotes; its 32-byte
    digest is [trie_root_hash]. *)
Definition trie_get (t : storage) (k : bytes) : bytes := default "" (t !! k).
(** Modelled from the spec: [trie.update(key, value)] of the same library
    binds the key. *)
Definition trie_update (t : storage) (k v : bytes) : storage := <[k := v]> t.
(** Modelled from the spec: [self.state.get(addr)] taken as the root of
    the account's storage trie; an absent account has the empty trie. *)
Definition state_get (rt : trie) (addr : bytes) : storage := default ∅ (rt !! addr).

(** The journal holds point updates [(addr, key, preval)] and commit
    markers [('~root', (cache, modified), rt)]; normalized addresses never
    equal ['~root'], so the two shapes are two constructors. *)
Inductive jentry :=
| JSet (addr key preval : bytes)
| JRoot (c : gmap bytes (gmap bytes bytes)) (m : gmap bytes (gset bytes)) (rt : gmap bytes (gmap bytes bytes)).

Record State := mkState {
  root_hash : gmap bytes (gmap bytes bytes);   (* self.state.root_hash *)
  db : gmap bytes bytes;                       (* self.db, the code store part *)
  journal : list jentry;                       (* most recent entry first *)
  cache : gmap bytes (gmap bytes bytes);
  modified : gmap bytes (gset bytes)
}.

Definition set_root_hash (rt : gmap bytes (gmap bytes bytes)) (s : State) : State :=
  mkState rt (db s) (journal s) (cache s) (modified s).
Definition set_db (d : gmap bytes bytes) (s : State) : State :=
  mkState (root_hash s) d (journal s) (cache s) (modified s).
Definition set_journal (j : list jentry) (s : State) : State :=
  mkState (root_hash s) (db s) j (cache s) (modified s).
Definition set_cache (c : gmap bytes (gmap bytes bytes)) (s : State) : State :=
  mkState (root_hash s) (db s) (journal s) c (modified s).
Definition set_modified (m : gmap bytes (gset bytes)) (s : State) : State :=
  mkState (root_hash s) (db s) (journal s) (cache s) m.

(** [State(state_root, db)] *)
Definition State_init (state_root : gmap bytes (gmap bytes bytes)) (d : gmap bytes bytes) : State :=
  mkState state_root d [] ∅ ∅.

Section StateOps.
Context {E : Env}.

Definition normalize (addr : bytes) : M State bytes :=
  lift_opt PyException (normalize_address addr).

(** [self.cache[addr][k] = v]; a [KeyError] when [addr] is not cached. *)
Definition cache_store (addr k v : bytes) : M State unit :=
  fun s => match cache s !! addr with
           | Some sub => Ok tt (set_cache (<[addr := <[k := v]> sub]> (cache s)) s)
           | None => Raise KeyError s
           end.

Definition get_storage (addr : bytes) (k : pyval) : M State bytes :=
  let k := canon k in
  let* addr := normalize addr in
  let fetch : M State bytes :=
    let* rt := gets root_hash in
    let v := trie_get (state_get rt addr) k in
    cache_store addr k v ;;
    ret v in
  let* c := gets cache in
  match c !! addr with
  | None => modify (set_cache (<[addr := ∅]> c)) ;; fetch
  | Some sub =>
      match sub !! k with
      | Some v => ret v
      | None => fetch
      end
  end.

Definition set_storage (addr : bytes) (k v : pyval) : M State unit :=
  let k := canon k in
  let v := canon v in
  let* addr := normalize addr in
  let* preval := get_storage addr (PStr k) in
  modify (fun s => set_journal (JSet addr k preval :: journal s) s) ;;
  cache_store addr k v ;;
  modify (fun s => set_modified
            (<[addr := {[k]} ∪ default ∅ (modified s !! addr)]> (modified s)) s).

(** The inner loop of [commit] over one account's cached keys: the trie
    of the account and whether it was touched. *)
Definition commit_account (mods : gset bytes) (subcache : storage) (t : storage)
  : storage * bool :=
  map_fold (fun key value (acc : storage * bool) =>
              if decide (key ∈ mods ∧ value ≠ trie_get acc.1 key)
              then (trie_update acc.1 key value, true)
              else acc)
           (t, false) subcache.

Definition commit : M State unit :=
  fun s =>
    let rt := root_hash s in
    let rt' :=
      map_fold (fun addr subcache (st : gmap bytes (gmap bytes bytes)) =>
                  let '(t, touched) :=
                    commit_account (default ∅ (modified s !! addr)) subcache
                                   (state_get st addr) in
                  if touched then <[addr := t]> st else st)
               rt (cache s) in
    Ok tt (mkState rt' (db s) (JRoot (cache s) (modified s) rt :: journal s) ∅ ∅).

(** The [root] property: commit, then the root hash. *)
Definition root : M State bytes :=
  commit ;;
  let* rt := gets root_hash in
  ret (trie_root_hash rt).

Definition snapshot : M State nat := gets (fun s => length (journal s)).

(** [revert]: pop while the journal is longer than the snapshot. [j] is
    the journal of [s]. *)
Fixpoint revert_from (snap : nat) (j : list jentry) (s : State) : res State unit :=
  match j with
  | [] => Ok tt s
  | e :: j' =>
      if decide (snap < length j)%nat then
        let s := set_journal j' s in                       (* journal.pop() *)
        match e with
        | JRoot c m rt =>
            revert_from snap j' (set_modified m (set_cache c (set_root_hash rt s)))
        | JSet addr key preval =>
            match cache_store addr key preval s with
            | Ok _ s' => revert_from snap j' s'
            | Raise e' s' => Raise e' s'
            end
        end
      else Ok tt s
  end.
Definition revert (snap : nat) : M State unit :=
  fun s => revert_from snap (journal s) s.

(** The code store *)
Definition db_get (key : bytes) : M State bytes :=
  fun s => match db s !! key with
           | Some v => Ok v s
           | None => Raise KeyError s
           end.
Definition db_put (key v : bytes) : M State unit :=
  modify (fun s => set_db (<[key := v]> (db s)) s).

Definition get_code (address : bytes) : M State bytes :=
  let* codehash := get_storage address (PStr "") in
  if decide (codehash = "") then ret ""
  else db_get (UNHASH_MAGIC_BYTES +:+ codehash).

Definition put_code (address code : bytes) : M State unit :=
  let codehash := sha3 code in
  db_put (UNHASH_MAGIC_BYTES +:+ codehash) code ;;
  set_storage address (PStr "") (PStr codehash).

End StateOps.

(** ** The process: the state under execution and the module's globals *)

Record World := mkWorld {
  st : State;                               (* the State the block runs on *)
  empty_st : State;                         (* EmptyVMExt._state *)
  eve_cache : gmap bytes triple;
  transition_cache_map : gmap bytes bytes
}.

Definition set_st (s : State) (w : World) : World :=
  mkWorld s (empty_st w) (eve_cache w) (transition_cache_map w).
Definition set_empty_st (s : State) (w : World) : World :=
  mkWorld (st w) s (eve_cache w) (transition_cache_map w).
Definition set_eve_cache (c : gmap bytes triple) (w : World) : World :=
  mkWorld (st w) (empty_st w) c (transition_cache_map w).
Definition set_transition_cache_map (c : gmap bytes bytes) (w : World) : World :=
  mkWorld (st w) (empty_st w) (eve_cache w) c.

(** A method of the State under execution, run in the process. *)
Definition on_state {A} (m : M State A) : M World A :=
  fun w => match m (st w) with
           | Ok a s => Ok a (set_st s w)
           | Raise e s => Raise e (set_st s w)
           end.
Definition on_empty_state {A} (m : M State A) : M World A :=
  fun w => match m (empty_st w) with
           | Ok a s => Ok a (set_empty_st s w)
           | Raise e s => Raise e (set_empty_st s w)
           end.

(** The process at start-up: [EmptyVMExt = _EmptyVMExt()] holds
    [State('', EphemDB())], both memo tables are empty. *)
Definition World_init (s : State) : World :=
  mkWorld s (State_init ∅ ∅) ∅ ∅.

(** The two façades: [VMExt(state)] over the State under execution, and
    the module-level [EmptyVMExt]. *)
Inductive Ext := VMExt | EmptyVMExt.

#[global] Instance Ext_eq_dec : EqDecision Ext.
Proof. solve_decision. Defined.

Section Execution.
Context {E : Env}.

(** [ext._state] *)
Definition on_ext_state {A} (ext : Ext) (m : M State A) : M World A :=
  match ext with
  | VMExt => on_state m
  | EmptyVMExt => on_empty_state m
  end.

Definition ext_get_storage (ext : Ext) (addr : bytes) (k : pyval) : M World bytes :=
  match ext with
  | VMExt => on_state (get_storage addr k)
  | EmptyVMExt => ret ""
  end.

Definition ext_set_storage (ext : Ext) (addr : bytes) (k v : pyval) : M World unit :=
  match ext with
  | VMExt => on_state (set_storage addr k v)
  | EmptyVMExt => ret tt
  end.

Definition ext_unhash (ext : Ext) (x : bytes) : M World bytes :=
  match ext with
  | VMExt => on_state (db_get (UNHASH_MAGIC_BYTES +:+ x))
  | EmptyVMExt => ret ""
  end.

(** [_EmptyVMExt] defines no [puthashdata]. *)
Definition ext_puthashdata (ext : Ext) (d : bytes) : M World unit :=
  match ext with
  | VMExt => on_state (db_put (UNHASH_MAGIC_BYTES +:+ sha3 d) d)
  | EmptyVMExt => raise AttributeError
  end.

(** Running the machine against a façade; [call] is [apply_msg]. *)
Fixpoint run_vm (call : Ext -> Message -> bytes -> M World triple)
    (ext : Ext) (p : vmprog) : M World triple :=
  match p with
  | VRet r => ret r
  | VGet addr k cont =>
      let* v := ext_get_storage ext addr k in run_vm call ext (cont v)
  | VSet addr k v cont =>
      ext_set_storage ext addr k v ;; run_vm call ext cont
  | VUnhash h cont =>
      let* v := ext_unhash ext h in run_vm call ext (cont v)
  | VPutHashData d cont =>
      ext_puthashdata ext d ;; run_vm call ext cont
  | VMsg m code cont =>
      let* r := call ext m code in run_vm call ext (cont r)
  | VStaticMsg m code cont =>
      let* r := call EmptyVMExt m code in run_vm call ext (cont r)
  | VRaise e => raise e
  end.

Definition cache_key_of (msg : Message) (code : bytes) : bytes :=
  msg_sender msg +:+ msg_to msg +:+ str_of_int (msg_value msg)
    +:+ extract_all (msg_data msg) +:+ code.

(** The value transfer of [apply_msg]; [true] when the sender cannot pay
    and the call quits at once. *)
Definition transfer_value (ext : Ext) (msg : Message) : M World bool :=
  let _SENDER_ETHER := match_shard ETHER (msg_sender msg) in
  let _RECIPIENT_ETHER := match_shard ETHER (msg_to msg) in
  if transfers_value msg then
    let* bal := ext_get_storage ext _SENDER_ETHER (PStr (msg_sender msg)) in
    if big_endian_to_int bal <? msg_value msg then ret true
    else if negb (msg_value msg =? 0) then
      let* b1 := ext_get_storage ext _SENDER_ETHER (PStr (msg_sender msg)) in
      ext_set_storage ext _SENDER_ETHER (PStr (msg_sender msg))
        (PInt (big_endian_to_int b1 - msg_value msg)) ;;
      let* b2 := ext_get_storage ext _RECIPIENT_ETHER (PStr (msg_to msg)) in
      ext_set_storage ext _RECIPIENT_ETHER (PStr (msg_to msg))
        (PInt (big_endian_to_int b2 + msg_value msg)) ;;
      ret false
    else ret false
  else ret false.

(** [apply_msg]; [depth] is the call depth the interpreter still allows. *)
Fixpoint apply_msg (depth : nat) (ext : Ext) (msg : Message) (code : bytes)
    (breaking : bool) : M World triple :=
  match depth with
  | O => raise RecursionError
  | S depth' =>
      let cache_key := cache_key_of msg code in
      let* ec := gets eve_cache in
      match (if decide (ext = EmptyVMExt) then ec !! cache_key else None) with
      | Some r => ret r
      | None =>
          (* Transfer value, instaquit if not enough *)
          let* snap := on_ext_state ext snapshot in
          let* quit := transfer_value ext msg in
          if (quit : bool) then ret (1, msg_gas msg, [])
          else
            (* Main loop *)
            let msg_to_raw := big_endian_to_int (msg_to msg) in
            let prog :=
              match specials msg_to_raw with
              | Some special => special msg
              | None => vm_execute msg code breaking
              end in
            let* (res, gas, dat) :=
              run_vm (fun e m c => apply_msg depth' e m c false) ext prog in
            (* If the message failed, revert execution *)
            (if res =? 0 then on_ext_state ext (revert snap) else ret tt) ;;
            let r : triple := (res, if res =? 0 then 0 else gas, dat) in
            modify (fun w => set_eve_cache (<[cache_key := r]> (eve_cache w)) w) ;;
            ret r
      end
  end.

(** ** tx_state_transition *)

Definition RLPEMPTYLIST : bytes := rlp_encode_list [].

(** [vm.Message(sender, to, value, gas, data, left, right)].
    Modelled from the spec: the class is not under src/; a message
    transfers value unless told otherwise. *)
Definition vm_Message (sender to : bytes) (value gas : Z) (data : CallData)
    (left right : Z) : Message :=
  mkMessage sender to value gas data true left right.

(** [''.join([chr(x) for x in data])] *)
Fixpoint join_chr (data : list Z) : option bytes :=
  match data with
  | [] => Some ""
  | x :: rest =>
      match chr x, join_chr rest with
      | Some c, Some s => Some (String c s)
      | _, _ => None
      end
  end.

(** [[safe_ord(x) for x in s]] *)
Fixpoint ords (s : bytes) : list Z :=
  match s with
  | EmptyString => []
  | String c s' => ord c :: ords s'
  end.

(** The log written on a skipped or failed transaction:
    [rlp.encode([encode_int(n)])]. *)
Definition status_log (n : Z) : M World bytes :=
  let* e := lift_opt PyException (encode_int n) in
  ret (rlp_encode_list [e]).

(** Lines 314-337: the two pre-checks, then the gas of the transaction and
    the emptied log. [None] when a pre-check skipped the transaction,
    otherwise [txindex] and [gas_remaining]. *)
Definition tx_prologue (tx : Transaction) (left_bound right_bound : Z)
  : M World (option (Z * Z)) :=
  let _EXSTATE := shardify EXECUTION_STATE left_bound in
  let _LOG := shardify LOG left_bound in
  (* Get index *)
  let* v := on_state (get_storage _EXSTATE TXINDEX) in
  let txindex := big_endian_to_int v in
  (* Get prior gas used *)
  let* v := on_state (get_storage _EXSTATE GAS_REMAINING) in
  let gas_remaining := big_endian_to_int v in
  (* If there is not enough gas left for this transaction, it's a no-op *)
  if gas_remaining - exec_gas tx <? 0 then
    let* l := status_log 0 in
    on_state (set_storage _LOG (PInt txindex) (PStr l)) ;;
    on_state (set_storage _EXSTATE TXINDEX (PInt (txindex + 1))) ;;
    ret None
  (* If the recipient is out of range, it's a no-op *)
  else if negb ((left_bound <=? get_shard (tx_addr tx))
                && (get_shard (tx_addr tx) <? right_bound)) then
    let* l := status_log 0 in
    on_state (set_storage _LOG (PInt txindex) (PStr l)) ;;
    on_state (set_storage _EXSTATE TXINDEX (PInt (txindex + 1))) ;;
    ret None
  else
    (* Set an object in the state for tx gas *)
    on_state (set_storage _EXSTATE TXGAS (PStr (encode_int32 (tx_gas tx)))) ;;
    (* Empty the log store *)
    on_state (set_storage _LOG (PInt txindex) (PStr RLPEMPTYLIST)) ;;
    ret (Some (txindex, gas_remaining)).

(** Line 339: [tx.code and not state.get_storage(tx.addr, b'')] *)
Definition tx_deploy_needed (tx : Transaction) : M World bool :=
  if decide (tx_code tx = "") then ret false
  else let* h := on_state (get_storage (tx_addr tx) (PStr "")) in
       ret (bool_decide (h = "")).

(** The message of line 340-341. *)
Definition deploy_message (tx : Transaction) (left_bound right_bound override_gas : Z)
  : Message :=
  vm_Message NULL_SENDER (tx_addr tx) 0 (Z.min (exec_gas tx) override_gas)
             (mkCallData [] 0 0) left_bound right_bound.

(** Lines 340-348: create the account. [None] when the deployment failed
    and the transaction is over, otherwise [execution_start_gas]. *)
Definition tx_deploy (depth : nat) (tx : Transaction) (left_bound right_bound : Z)
    (breaking : bool) (override_gas : Z) (txindex : Z) : M World (option Z) :=
  let _EXSTATE := shardify EXECUTION_STATE left_bound in
  let _LOG := shardify LOG left_bound in
  let* (result, execution_start_gas, data) :=
    apply_msg depth VMExt (deploy_message tx left_bound right_bound override_gas)
              (tx_code tx) breaking in
  if result =? 0 then
    let* l := status_log 1 in
    on_state (set_storage _LOG (PInt txindex) (PStr l)) ;;
    on_state (set_storage _EXSTATE TXINDEX (PInt (txindex + 1))) ;;
    ret None
  else
    let* code := lift_opt ValueError (join_chr data) in
    on_state (put_code (tx_addr tx) code) ;;
    ret (Some execution_start_gas).

(** The message of lines 352-353; it is built without bounds, which are
    taken to default to the whole shard range. *)
Definition exec_message (tx : Transaction) (execution_start_gas : Z) : Message :=
  vm_Message NULL_SENDER (tx_addr tx) 0 execution_start_gas
    (mkCallData (ords (tx_data tx)) 0 (Z.of_nat (String.length (tx_data tx))))
    0 MAXSHARDS.

(** Lines 352-356: the log must still be empty, then the machine runs. *)
Definition tx_execute (depth : nat) (tx : Transaction) (left_bound : Z)
    (breaking : bool) (txindex execution_start_gas : Z) : M World triple :=
  let _LOG := shardify LOG left_bound in
  let* l := on_state (get_storage _LOG (PInt txindex)) in
  assert (bool_decide (l = RLPEMPTYLIST)) ;;
  let* code := on_state (get_code (tx_addr tx)) in
  apply_msg depth VMExt (exec_message tx execution_start_gas) code breaking.

(** Lines 357-365, on the triple [apply_msg] returned. *)
Definition tx_epilogue (tx : Transaction) (left_bound : Z)
    (txindex gas_remaining execution_start_gas : Z) (r : triple)
  : M World (option (list Z)) :=
  let _EXSTATE := shardify EXECUTION_STATE left_bound in
  let _LOG := shardify LOG left_bound in
  let '(result, msg_gas_remained, data) := r in
  assert ((0 <=? msg_gas_remained)
          && (msg_gas_remained <=? execution_start_gas)
          && (execution_start_gas <=? exec_gas tx)) ;;
  (* Set gas used *)
  on_state (set_storage _EXSTATE GAS_REMAINING
              (PInt (gas_remaining - exec_gas tx + msg_gas_remained))) ;;
  (* Places a log in storage *)
  let* logs := on_state (get_storage _LOG (PInt txindex)) in
  let* status := lift_opt PyException
                   (encode_int (if result =? 0 then 1 else 2)) in
  on_state (set_storage _LOG (PInt txindex) (PStr (rlp_insert logs 0 status))) ;;
  (* Increments the txindex *)
  on_state (set_storage _EXSTATE TXINDEX (PInt (txindex + 1))) ;;
  ret (Some data).

Definition tx_state_transition (depth : nat) (tx : Transaction)
    (left_bound right_bound : Z) (breaking : bool) (override_gas : Z)
  : M World (option (list Z)) :=
  let* pre := tx_prologue tx left_bound right_bound in
  match pre with
  | None => ret None
  | Some (txindex, gas_remaining) =>
      (* Create the account if it does not yet exist *)
      let* deploy := tx_deploy_needed tx in
      let* start :=
        (if (deploy : bool)
         then tx_deploy depth tx left_bound right_bound breaking override_gas txindex
         else ret (Some (Z.min (exec_gas tx) override_gas))) in
      match start with
      | None => ret None
      | Some execution_start_gas =>
          (* Process VM execution *)
          let* r := tx_execute depth tx left_bound breaking txindex
                               execution_start_gas in
          tx_epilogue tx left_bound txindex gas_remaining execution_start_gas r
      end
  end.

End Execution.

(** ** Blocks *)

(** class Block. Once built a block is only read, so it holds its
    summaries by value, as they are when the constructor returns. *)
Record Block := mkBlock {
  header : BlockHeader;
  summaries : list TransactionGroupSummary;
  transaction_groups : list (list Transaction)
}.

(** The summaries handed to the constructor are objects it assigns to
    ([s.intrinsic_gas = ...]), and a list may hold one object twice: they
    are references into a store of summary objects. *)
Definition Heap : Type := nat -> TransactionGroupSummary.

(** The store after [s.intrinsic_gas = g]. *)
Definition with_intrinsic_gas (h : Heap) (s : nat) (g : Z) : Heap :=
  fun i => if decide (i = s)
           then mkSummary (gas_limit (h s)) (left_bound (h s)) (right_bound (h s))
                          (transaction_hash (h s)) (Some g)
           else h i.

Definition heap_set_intrinsic_gas (s : nat) (g : Z) : M Heap unit :=
  modify (fun h => with_intrinsic_gas h s g).

Definition sumZ (l : list Z) : Z := foldr Z.add 0 l.

(** [sum([s.intrinsic_gas for s in summaries])]: [None] when some summary
    has no such attribute. *)
Fixpoint sum_intrinsic_gas (l : list TransactionGroupSummary) : option Z :=
  match l with
  | [] => Some 0
  | s :: rest =>
      match intrinsic_gas s, sum_intrinsic_gas rest with
      | Some g, Some t => Some (g + t)
      | _, _ => None
      end
  end.

Section Blocks.
Context {E : Env}.

(** [a % b == 0] on Python integers. *)
Definition divides_check {W} (a b : Z) : M W bool :=
  if b =? 0 then raise ZeroDivisionError else ret (a mod b =? 0).

(** [TransactionGroupSummary(gas_limit, left_bound, right_bound, txgroup)] *)
Definition TransactionGroupSummary_init (gas_limit left_bound right_bound : Z)
    (txgroup : list Transaction) : TransactionGroupSummary :=
  mkSummary gas_limit left_bound right_bound (sha3 (rlp_encode_txgroup txgroup)) None.

(** The body of the loop over [zip(summaries, transaction_groups)] for one
    pair, returning the new [prevright]. *)
Definition check_pair (prevright : Z) (s : nat) (g : list Transaction) : M Heap Z :=
  let* o := gets (fun h => h s) in
  (* Check tx hash matches *)
  assert (bool_decide (transaction_hash o = sha3 (rlp_encode_txgroup g))) ;;
  (* Bounds must reflect a node in the binary tree *)
  let* aligned := divides_check (left_bound o) (right_bound o - left_bound o) in
  assert aligned ;;
  (* Summaries must be disjoint and in sorted order with bounds valid *)
  assert ((0 <=? prevright) && (prevright <=? left_bound o)
          && (left_bound o <? right_bound o) && (right_bound o <=? MAXSHARDS)) ;;
  (* Check that all transaction bounds are a subset of the summary *)
  assert (forallb (fun tx => (left_bound o <=? tx_left_bound tx)
                             && (tx_left_bound tx <? tx_right_bound tx)
                             && (tx_right_bound tx <=? right_bound o)) g) ;;
  heap_set_intrinsic_gas s (sumZ (map tx_intrinsic_gas g)) ;;
  ret (right_bound o).

Fixpoint check_pairs (prevright : Z) (pairs : list (nat * list Transaction))
  : M Heap unit :=
  match pairs with
  | [] => ret tt
  | (s, g) :: rest =>
      let* prevright := check_pair prevright s g in
      check_pairs prevright rest
  end.

(** The checks of auto-pack mode on each transaction. *)
Fixpoint check_transactions {W} (transactions : list Transaction) : M W unit :=
  match transactions with
  | [] => ret tt
  | tx :: rest =>
      let* aligned :=
        divides_check (tx_left_bound tx) (tx_right_bound tx - tx_left_bound tx) in
      assert aligned ;;
      assert ((0 <=? tx_left_bound tx) && (tx_left_bound tx <? tx_right_bound tx)
              && (tx_right_bound tx <=? MAXSHARDS)) ;;
      check_transactions rest
  end.

(** [Block.__init__] *)
Definition Block_init (hd : option BlockHeader) (transactions : list Transaction)
    (groups : option (list (list Transaction))) (sums : option (list nat))
    (num : Z) (prop sg : bytes) : M Heap Block :=
  match groups, sums, hd with
  | None, None, None =>
      (* one super-group with a global range *)
      check_transactions transactions ;;
      let s := TransactionGroupSummary_init GASLIMIT 0 MAXSHARDS transactions in
      let total := sumZ (map tx_intrinsic_gas transactions) in
      let s := mkSummary (gas_limit s) (left_bound s) (right_bound s)
                         (transaction_hash s) (Some total) in
      assert (total <? GASLIMIT) ;;
      ret (mkBlock (mkBlockHeader num (sha3 (rlp_encode_summaries [s])) prop sg)
                   [s] [transactions])
  | Some groups, Some sums, Some hd =>
      check_pairs 0 (zip sums groups) ;;
      let* objs := gets (fun h => map h sums) in
      (* Check gas limit condition *)
      let* total := lift_opt AttributeError (sum_intrinsic_gas objs) in
      assert (total <? GASLIMIT) ;;
      (* Check header transaction root matches *)
      assert (bool_decide (txroot hd = sha3 (rlp_encode_summaries objs))) ;;
      ret (mkBlock hd objs groups)
  | _, _, _ =>
      (* "If you supply one of txgroups/summaries/header you must supply
         all of them!" *)
      raise PyException
  end.

(** ** block_state_transition *)

Fixpoint apply_transactions (depth : nat) (g : list Transaction)
    (left_bound right_bound : Z) : M World unit :=
  match g with
  | [] => ret tt
  | tx :: rest =>
      tx_state_transition depth tx left_bound right_bound false (2 ^ 255) ;;
      apply_transactions depth rest left_bound right_bound
  end.

(** [for i in range(len(g)): assert state.get_storage(_LOG, i)] *)
Fixpoint assert_logs (_LOG : bytes) (i : Z) (n : nat) : M World unit :=
  match n with
  | O => ret tt
  | S n' =>
      let* l := on_state (get_storage _LOG (PInt i)) in
      assert (negb (bool_decide (l = ""))) ;;
      assert_logs _LOG (i + 1) n'
  end.

Definition initialize_with_gas_limit (gas_limit left_bound : Z) : M World unit :=
  on_state (set_storage (shardify EXECUTION_STATE left_bound) GAS_REMAINING
              (PInt gas_limit)).

(** The loop of [block_state_transition] over the groups of [block]. *)
Fixpoint process_groups (depth : nat) (block : Block)
    (pairs : list (TransactionGroupSummary * list Transaction)) : M World unit :=
  match pairs with
  | [] => ret tt
  | (s, g) :: rest =>
      let _EXSTATE := shardify EXECUTION_STATE (left_bound s) in
      let _LOG := shardify LOG (left_bound s) in
      (* Set the txindex to 0 to start off *)
      on_state (set_storage _EXSTATE TXINDEX (PInt 0)) ;;
      (* Initialize the gas remaining variable *)
      let* ig := lift_opt AttributeError (intrinsic_gas s) in
      initialize_with_gas_limit (gas_limit s - ig) (left_bound s) ;;
      (* the values formatted by the print statement *)
      lift_opt AttributeError (sum_intrinsic_gas (summaries block)) ;;
      (* Apply transactions sequentially *)
      apply_transactions depth g (left_bound s) (right_bound s) ;;
      let* v := on_state (get_storage _EXSTATE TXINDEX) in
      assert (big_endian_to_int v =? Z.of_nat (length g)) ;;
      assert_logs _LOG 0 (length g) ;;
      process_groups depth block rest
  end.

(** The update of the RNG seed (lines 296-301). *)
Definition update_rng_seed (blknumber : Z) (blkproposer : bytes) : M World unit :=
  let* prevseed :=
    (if negb (blknumber =? 0)
     then on_state (get_storage RNGSEEDS (PStr (encode_int32 (blknumber - 1))))
     else ret (repeat_byte zero_byte 32)) in
  let newseed := big_endian_to_int (sha3 (prevseed +:+ blkproposer)) in
  let* c := on_state (get_storage CASPER (PInt 0)) in
  let newseed := newseed - (newseed mod 2 ^ 64) + big_endian_to_int c in
  on_state (set_storage RNGSEEDS (PStr (encode_int32 blknumber)) (PInt newseed)).

(** Everything [block_state_transition] does before it updates the seed;
    returns [pre], [blknumber] and [blkproposer]. *)
Definition block_prologue (depth : nat) (block : option Block)
  : M World (bytes * Z * bytes) :=
  let* pre := on_state root in
  (* Determine the current block number, block proposer and block hash *)
  let* v := on_state (get_storage BLKNUMBER (PInt 0)) in
  let blknumber := big_endian_to_int v in
  let blkproposer :=
    match block with
    | Some b => proposer (header b)
    | None => repeat_byte zero_byte ADDR_BYTES
    end in
  let blkhash :=
    match block with
    | Some b => sha3 (rlp_encode_header (header b))
    | None => repeat_byte zero_byte 32
    end in
  (* Put the state root in storage *)
  (if negb (blknumber =? 0) then
     let* r := on_state root in
     on_state (set_storage STATEROOTS (PStr (encode_int32 (blknumber - 1))) (PStr r))
   else ret tt) ;;
  (* Put the proposer in storage *)
  on_state (set_storage PROPOSER (PInt 0) (PStr blkproposer)) ;;
  (* If the block exists (ie. is not NONE), process every transaction *)
  match block with
  | Some b =>
      assert (number (header b) =? blknumber) ;;
      process_groups depth b (zip (summaries b) (transaction_groups b))
  | None => ret tt
  end ;;
  (* Put the block hash in storage *)
  on_state (set_storage BLOCKHASHES (PStr (encode_int32 blknumber)) (PStr blkhash)) ;;
  (* Put the next block number in storage *)
  on_state (set_storage BLKNUMBER (PInt 0) (PStr (encode_int32 (blknumber + 1)))) ;;
  ret (pre, blknumber, blkproposer).

(** The consistency check against [transition_cache_map]. *)
Definition consistency_check (pre : bytes) (block : option Block) : M World unit :=
  let check_key :=
    pre +:+ match block with
            | Some b => sha3 (rlp_encode_header (header b))
            | None => "NONE"
            end in
  let* tcm := gets transition_cache_map in
  match tcm !! check_key with
  | None =>
      let* r := on_state root in
      modify (fun w => set_transition_cache_map
                         (<[check_key := r]> (transition_cache_map w)) w)
  | Some r' =>
      let* r := on_state root in
      assert (bool_decide (r' = r))
  end.

Definition block_state_transition (depth : nat) (block : option Block) : M World unit :=
  let* (pre, blknumber, blkproposer) := block_prologue depth block in
  (* Update the RNG seed (the lower 64 bits contains the number of
     validators, the upper 192 bits are pseudorandom) *)
  update_rng_seed blknumber blkproposer ;;
  (* Consistency checking *)
  consistency_check pre block.

End Blocks.

(** ** Observations used by the properties *)

(** The value a cached account holds for a key, if any. *)
Definition cached (s : State) (a k : bytes) : option bytes :=
  match cache s !! a with
  | Some sub => sub !! k
  | None => None
  end.

(** The value [get_storage] finds at a normalized address and a canonical
    key: the write cache first, then the committed tries. *)
Definition view (s : State) (a k : bytes) : bytes :=
  match cached s a k with
  | Some v => v
  | None => trie_get (state_get (root_hash s) a) k
  end.

(** Two states with the same committed root and journal in which every
    location reads the same, the second caching at least the accounts of
    the first. *)
Definition equiv (s t : State) : Prop :=
  root_hash t = root_hash s /\
  journal t = journal s /\
  (forall a k, view t a k = view s a k) /\
  (forall a, is_Some (cache s !! a) -> is_Some (cache t !! a)).

(** [t] was reached from [s] by journaled steps: unwinding the journal of
    [t] down to the length it had in [s] gives back [s], up to [equiv]. *)
Definition follows (s t : State) : Prop :=
  (length (journal s) <= length (journal t))%nat /\
  exists t', revert (length (journal s)) t = Ok tt t' /\ equiv s t'.

(** What a call through a façade does to the State under execution: it
    only takes journaled steps, and none at all through the empty
    façade. *)
Definition st_inv {E : Env} (ext : Ext) (w w' : World) : Prop :=
  follows (st w) (st w') /\ (ext = EmptyVMExt -> st w' = st w).

(** Every memoized triple with status 0 carries gas 0. *)
Definition cache_wf (c : gmap bytes triple) : Prop :=
  forall key res gas dat, c !! key = Some (res, gas, dat) -> res = 0 -> gas = 0.

(** The contract of [normalize_address] the module relies on: a
    normalized address is its own normal form. *)
Class EnvLaws (E : Env) : Prop := {
  normalize_idem : forall a a', normalize_address a = Some a' ->
                                normalize_address a' = Some a'
}.

Section Observations.
Context {E : Env}.

(** A caller's operations on a State. *)
Inductive StateOp :=
| OpSet (addr : bytes) (k v : pyval)
| OpGet (addr : bytes) (k : pyval)
| OpCommit.

Definition exec_op (op : StateOp) : M State unit :=
  match op with
  | OpSet addr k v => set_storage addr k v
  | OpGet addr k => get_storage addr k ;; ret tt
  | OpCommit => commit
  end.

(** A sequence of operations; one that raises leaves the state as it was
    when it raised, and the sequence goes on. *)
Fixpoint exec_ops (ops : list StateOp) (s : State) : State :=
  match ops with
  | [] => s
  | op :: rest => exec_ops rest (res_world (exec_op op s))
  end.

(** A sequence of reads, each on the state the previous one left, with
    what each returned or raised. *)
Fixpoint read_all (qs : list (bytes * pyval)) (s : State) : list (bytes + exn) :=
  match qs with
  | [] => []
  | (a, k) :: rest =>
      let r := get_storage a k s in
      res_value r :: read_all rest (res_world r)
  end.

(** One read. *)
Definition read (s : State) (a : bytes) (k : pyval) : bytes + exn :=
  res_value (get_storage a k s).

End Observations.

(** ** A sample instance of the collaborators

    Small stand-ins with the shape of the real ones, on which the
    definitions above can be run: three-byte addresses whose first byte is
    the shard, a short-form RLP, and a machine with a handful of
    programs. *)
Module Sample.

Definition sample_sha3 (s : bytes) : bytes :=
  encode_int32 (((big_endian_to_int s * 31 + Z.of_nat (String.length s) + 7)
                 * (2 ^ 200 + 12345)) mod 2 ^ 256).

(** RLP of a short string and of a short list of strings. *)
Definition rlp_str (s : bytes) : bytes :=
  match s with
  | String c EmptyString => if ord c <? 128 then s else String (byte_of 129) s
  | _ => String (byte_of (128 + Z.of_nat (String.length s))) s
  end.
Definition rlp_payload (items : list bytes) : bytes :=
  foldr (fun x acc => rlp_str x +:+ acc) "" items.
Definition rlp_list_of_payload (p : bytes) : bytes :=
  String (byte_of (192 + Z.of_nat (String.length p))) p.
Definition sample_rlp_encode_list (items : list bytes) : bytes :=
  rlp_list_of_payload (rlp_payload items).
(** Insertion at the head of an encoded list (the only index used). *)
Definition sample_rlp_insert (l : bytes) (i : Z) (x : bytes) : bytes :=
  match l with
  | String _ p => rlp_list_of_payload (rlp_str x +:+ p)
  | EmptyString => rlp_list_of_payload (rlp_str x)
  end.

Definition sample_shardify (base : bytes) (shard : Z) : bytes :=
  match base with
  | String _ rest => String (byte_of shard) rest
  | EmptyString => String (byte_of shard) ""
  end.
Definition sample_get_shard (a : bytes) : Z :=
  match a with
  | String c _ => ord c
  | EmptyString => 0
  end.
Definition sample_match_shard (base a : bytes) : bytes :=
  sample_shardify base (sample_get_shard a).

Definition addr_of (n : Z) : bytes := String zero_byte (String zero_byte (String (byte_of n) "")).

Definition sample_LOG : bytes := addr_of 9.

Definition sample_extract_all (d : CallData) : bytes := default "" (join_chr (cd_data d)).

(** The sample machine, by bytecode:
    - the empty code stops at once with status 1 and all its gas;
    - ["read"] returns the integer in slot 0 of the recipient, plus 2, as
      its status;
    - ["keep"] rewrites the log slot 0 of its shard with the encoding of
      the empty list and stops with status 1;
    - ["spoil"] writes ["x"] in that slot and stops with status 1;
    - ["fail"] writes slot 0 of the recipient and fails;
    - anything else fails. *)
Definition sample_vm_execute (msg : Message) (code : bytes) (breaking : bool) : vmprog :=
  if decide (code = "") then VRet (1, msg_gas msg, [])
  else if decide (code = "read") then
    VGet (msg_to msg) (PInt 0) (fun v => VRet (2 + big_endian_to_int v, msg_gas msg, []))
  else if decide (code = "keep") then
    VSet (sample_shardify sample_LOG (msg_left_bound msg)) (PInt 0)
         (PStr (sample_rlp_encode_list [])) (VRet (1, msg_gas msg, []))
  else if decide (code = "spoil") then
    VSet (sample_shardify sample_LOG (msg_left_bound msg)) (PInt 0)
         (PStr "x") (VRet (1, msg_gas msg, []))
  else if decide (code = "fail") then
    VSet (msg_to msg) (PInt 0) (PInt 77) (VRet (0, msg_gas msg, []))
  else VRet (0, 0, []).

#[local] Instance sample_env : Env := {|
  rlp_encode_list := sample_rlp_encode_list;
  rlp_encode_txgroup := fun g => sample_rlp_encode_list (map tx_data g);
  rlp_encode_summaries := fun l => sample_rlp_encode_list (map transaction_hash l);
  rlp_encode_header := fun h => sample_rlp_encode_list [txroot h; proposer h; sig h];
  rlp_insert := sample_rlp_insert;
  sha3 := sample_sha3;
  normalize_address := fun a => if decide (String.length a = 3%nat) then Some a else None;
  shardify := sample_shardify;
  get_shard := sample_get_shard;
  match_shard := sample_match_shard;
  str_of_int := int_to_big_endian;
  trie_root_hash := fun rt => encode_int32 (Z.of_nat (size rt));
  extract_all := sample_extract_all;
  vm_execute := sample_vm_execute;
  specials := fun _ => None;
  BLOCKHASHES := addr_of 1;
  STATEROOTS := addr_of 2;
  BLKNUMBER := addr_of 3;
  CASPER := addr_of 4;
  ETHER := addr_of 5;
  PROPOSER := addr_of 6;
  RNGSEEDS := addr_of 7;
  LOG := sample_LOG;
  EXECUTION_STATE := addr_of 8;
  NULL_SENDER := addr_of 0;
  GAS_REMAINING := PInt 0;
  TXGAS := PInt 1;
  TXINDEX := PInt 2;
  GASLIMIT := 4712388;
  MAXSHARDS := 256;
  ADDR_BYTES := 3;
  UNHASH_MAGIC_BYTES := "unhash:"
|}.

(** An empty state, and the process started on it. *)
Definition s0 : State := State_init ∅ ∅.
Definition w0 : World := World_init s0.

(** The process once shard 0 has 1000 gas remaining. *)
Definition w_gas : World := res_world (initialize_with_gas_limit 1000 0 w0).

(** Operations on a state: a write, a commit, a second write of the same
    slot, a read elsewhere. *)
Definition sample_ops : list StateOp :=
  [OpSet (addr_of 20) (PInt 1) (PInt 5); OpCommit;
   OpSet (addr_of 20) (PInt 1) (PInt 6); OpGet (addr_of 21) (PInt 0)].

(** Messages from account 30 to account 31 with 10 gas: one carrying no
    value, one carrying a value the sender does not have. *)
Definition plain_msg : Message :=
  mkMessage (addr_of 30) (addr_of 31) 0 10 (mkCallData [] 0 0) true 0 256.
Definition poor_msg : Message :=
  mkMessage (addr_of 30) (addr_of 31) 1 5 (mkCallData [] 0 0) true 0 256.

(** The process once slot 0 of account 31 holds 5. *)
Definition w_slot : World :=
  res_world (on_state (set_storage (addr_of 31) (PInt 0) (PInt 5)) w0).
(** ... and then once ["read"] was called through the state façade. *)
Definition w_called : World :=
  res_world (apply_msg 2 VMExt plain_msg "read" false w_slot).

(** Reads of the slot ["fail"] writes, of the sender's balance, and of an
    address that does not normalize. *)
Definition sample_reads : list (bytes * pyval) :=
  [(addr_of 31, PInt 0); (sample_match_shard (addr_of 5) (addr_of 30), PStr (addr_of 30));
   ("ab", PInt 0)].

(** The process once ["fail"] was called on the empty state. *)
Definition w_failed : World :=
  res_world (apply_msg 2 VMExt plain_msg "fail" false w0).

(** Transactions to account 20 in shard 0, with 50 execution gas: one
    without code, one whose constructor rewrites the log slot with the
    encoding of the empty list, one whose constructor spoils it. *)
Definition tx_plain : Transaction := mkTransaction (addr_of 20) "" "" 100 50 10 0 256.
Definition tx_keep : Transaction := mkTransaction (addr_of 20) "keep" "" 100 50 10 0 256.
Definition tx_spoil : Transaction := mkTransaction (addr_of 20) "spoil" "" 100 50 10 0 256.

(** The stages of [tx_plain] and of [tx_spoil] on [w_gas]. *)
Definition w_plain_pro : World := res_world (tx_prologue tx_plain 0 256 w_gas).
Definition w_plain_code : World := res_world (on_state (get_code (tx_addr tx_plain)) w_plain_pro).
Definition w_plain_exec : World := res_world (tx_execute 2 tx_plain 0 false 0 50 w_plain_pro).
Definition w_plain_done : World :=
  res_world (tx_state_transition 2 tx_plain 0 256 false (2 ^ 255) w_gas).
Definition w_keep_done : World :=
  res_world (tx_state_transition 2 tx_keep 0 256 false (2 ^ 255) w_gas).
Definition w_spoil_pro : World := res_world (tx_prologue tx_spoil 0 256 w_gas).
Definition w_spoil_dep : World := res_world (tx_deploy_needed tx_spoil w_spoil_pro).
Definition w_spoil_msg : World :=
  res_world (apply_msg 2 VMExt (deploy_message tx_spoil 0 256 (2 ^ 255)) "spoil" false
               w_spoil_dep).
Definition w_skip_done : World :=
  res_world (tx_state_transition 2 tx_plain 0 256 false (2 ^ 255) w0).

(** The process once [(CASPER, 0)] holds 2^64, and after an empty block
    on it and on the empty state. *)
Definition w_casper : World :=
  res_world (on_state (set_storage CASPER (PInt 0) (PInt (2 ^ 64))) w0).
Definition w_casper_done : World := res_world (block_state_transition 2 None w_casper).
Definition w_block_pro : World := res_world (block_prologue 2 None w0).
Definition w_block_done : World := res_world (block_state_transition 2 None w0).

(** Summary objects: every location holds a summary over [[0, 256)], or
    over [[0, 3)], for the empty group. *)
Definition heap_wide : Heap :=
  fun _ => mkSummary 1000 0 256 (sample_sha3 (sample_rlp_encode_list [])) None.
Definition heap_three : Heap :=
  fun _ => mkSummary 1000 0 3 (sample_sha3 (sample_rlp_encode_list [])) None.
Definition summary_wide : TransactionGroupSummary :=
  mkSummary 1000 0 256 (sample_sha3 (sample_rlp_encode_list [])) (Some 0).
Definition summary_three : TransactionGroupSummary :=
  mkSummary 1000 0 3 (sample_sha3 (sample_rlp_encode_list [])) (Some 0).
Definition header_for (l : list TransactionGroupSummary) : BlockHeader :=
  mkBlockHeader 0 (sha3 (rlp_encode_summaries l)) (addr_of 0) "".
(** A transaction whose bounds fit no summary. *)
Definition tx_stray : Transaction := mkTransaction (addr_of 20) "" "" 100 50 10 300 200.

End Sample.

(** ** Well-formed states

    What the methods of [State] keep true of a state: a cached value that
    is not marked modified is the committed one, every point update still
    on the journal names a cached account and a key marked modified, and
    every commit marker holds a cache that was itself coherent. *)
Definition coherent_at (c : gmap bytes (gmap bytes bytes))
    (m : gmap bytes (gset bytes)) (rt : gmap bytes (gmap bytes bytes)) : Prop :=
  forall a sub k v, c !! a = Some sub -> sub !! k = Some v ->
    k ∈ default ∅ (m !! a) \/ v = trie_get (state_get rt a) k.

Fixpoint journal_wf (j : list jentry) (accounts : gset bytes)
    (m : gmap bytes (gset bytes)) : Prop :=
  match j with
  | [] => True
  | JSet a k _ :: j' =>
      a ∈ accounts /\ k ∈ default ∅ (m !! a) /\ journal_wf j' accounts m
  | JRoot c m0 rt :: j' =>
      coherent_at c m0 rt /\ journal_wf j' (dom c) m0
  end.

Definition wf (s : State) : Prop :=
  coherent_at (cache s) (modified s) (root_hash s) /\
  journal_wf (journal s) (dom (cache s)) (modified s).

(** The value committed for a key of an account. *)
Definition committed (s : State) (a k : bytes) : bytes :=
  trie_get (state_get (root_hash s) a) k.

(** The keys and values whose canonical form the spec gives: any string,
    and the integers that 32 big-endian bytes hold. *)
Definition in_range (k : pyval) : Prop :=
  match k with
  | PInt z => 0 <= z < 2 ^ 256
  | PStr _ => True
  end.

(** A caller's calls on a State, [revert] and [root] included. A caller
    may hand [revert] any integer. *)
Inductive StateCall :=
| CallOp (op : StateOp)
| CallRevert (snap : Z)
| CallRoot.

Section MoreObservations.
Context {E : Env}.

(** [revert(snapshot)] for any integer [snapshot], as the loop of lines
    246-252 runs: [while len(self.journal) > snapshot] pops and undoes
    one entry; with a negative snapshot the test still holds on the
    emptied journal, and [self.journal.pop()] raises [IndexError]. [j] is
    the journal of [s]. On the snapshots [snapshot()] returns this is
    [revert_from]. *)
Fixpoint revert_loop (snapshot : Z) (j : list jentry) (s : State) : res State unit :=
  match j with
  | [] => if decide (snapshot < 0) then Raise IndexError s else Ok tt s
  | e :: j' =>
      if decide (snapshot < Z.of_nat (length j)) then
        let s := set_journal j' s in                       (* journal.pop() *)
        match e with
        | JRoot c m rt =>
            revert_loop snapshot j' (set_modified m (set_cache c (set_root_hash rt s)))
        | JSet addr key preval =>
            match cache_store addr key preval s with
            | Ok _ s' => revert_loop snapshot j' s'
            | Raise e' s' => Raise e' s'
            end
        end
      else Ok tt s
  end.
Definition revert_any (snapshot : Z) : M State unit :=
  fun s => revert_loop snapshot (journal s) s.

Definition exec_call (c : StateCall) : M State unit :=
  match c with
  | CallOp op => exec_op op
  | CallRevert snap => revert_any snap
  | CallRoot => root ;; ret tt
  end.

(** A sequence of calls; one that raises leaves the state as it was when
    it raised, and the sequence goes on. *)
Fixpoint exec_calls (cs : list StateCall) (s : State) : State :=
  match cs with
  | [] => s
  | c :: rest => exec_calls rest (res_world (exec_call c s))
  end.

(** What the constructor of [Block] has checked of the pairs it walked
    when it returns in explicit mode: the summaries are the objects as
    the constructor leaves them, [prevright] the bound carried into the
    loop. *)
Fixpoint pairs_valid (prevright : Z)
    (pairs : list (TransactionGroupSummary * list Transaction)) : Prop :=
  match pairs with
  | [] => True
  | (s, g) :: rest =>
      transaction_hash s = sha3 (rlp_encode_txgroup g) /\
      left_bound s mod (right_bound s - left_bound s) = 0 /\
      0 <= prevright <= left_bound s /\
      left_bound s < right_bound s <= MAXSHARDS /\
      Forall (fun tx => left_bound s <= tx_left_bound tx /\
                        tx_left_bound tx < tx_right_bound tx <= right_bound s) g /\
      intrinsic_gas s = Some (sumZ (map tx_intrinsic_gas g)) /\
      pairs_valid (right_bound s) rest
  end.

(** The per-pair checks of the constructor's loop alone, on the fields
    the loop reads: what must hold of the pairs for the loop to get
    through them. *)
Fixpoint pairs_pass (prevright : Z)
    (pairs : list (TransactionGroupSummary * list Transaction)) : Prop :=
  match pairs with
  | [] => True
  | (s, g) :: rest =>
      transaction_hash s = sha3 (rlp_encode_txgroup g) /\
      left_bound s mod (right_bound s - left_bound s) = 0 /\
      0 <= prevright <= left_bound s /\
      left_bound s < right_bound s <= MAXSHARDS /\
      Forall (fun tx => left_bound s <= tx_left_bound tx /\
                        tx_left_bound tx < tx_right_bound tx <= right_bound s) g /\
      pairs_pass (right_bound s) rest
  end.

End MoreObservations.

(** What a call through a façade leaves alone, however it ends: the
    determinism memo, the State of [EmptyVMExt], the State under execution
    when the façade is the empty one, and the well-formedness of the State
    under execution. *)
Definition call_frame (ext : Ext) (w w' : World) : Prop :=
  transition_cache_map w' = transition_cache_map w /\
  empty_st w' = empty_st w /\
  (ext = EmptyVMExt -> st w' = st w) /\
  (wf (st w) -> wf (st w')).

(** ** More sample inputs *)

Module MoreSample.
Import Sample.
#[local] Existing Instance sample_env.

(** Calls on a fresh state: a write, a root, a second write of the slot,
    a revert to the start, a read, a revert to a snapshot above the
    journal, a write, a revert to a negative snapshot, and a read. *)
Definition sample_calls : list StateCall :=
  [CallOp (OpSet (addr_of 20) (PInt 1) (PInt 5)); CallRoot;
   CallOp (OpSet (addr_of 20) (PInt 1) (PInt 6)); CallRevert 0;
   CallOp (OpGet (addr_of 21) (PInt 0)); CallRevert 7;
   CallOp (OpSet (addr_of 21) (PInt 1) (PInt 9)); CallRevert (-1);
   CallOp (OpGet (addr_of 21) (PInt 1))].

(** The state once slot 1 of account 20 was written, and once it was
    read after that. *)
Definition s_written : State :=
  exec_calls [CallOp (OpSet (addr_of 20) (PInt 1) (PInt 5))] s0.
Definition s_read : State :=
  res_world (get_storage (addr_of 20) (PInt 1) s_written).

(** The state once account 20 was given the code ["keep"]. *)
Definition s_code : State := res_world (put_code (addr_of 20) "keep" s0).

(** The process once ["read"] was called through the empty façade. *)
Definition w_static : World :=
  res_world (apply_msg 2 EmptyVMExt plain_msg "read" false w_slot).

(** The process once account 30 holds a balance of 10, and the message
    [poor_msg] sent on it. *)
Definition w_rich : World :=
  res_world (on_state (set_storage (match_shard ETHER (addr_of 30))
                                   (PStr (addr_of 30)) (PInt 10)) w0).

(** Blocks without groups, numbered 0 and 5, and the process after the
    first. *)
Definition block_zero : Block := mkBlock (header_for []) [] [].
Definition block_five : Block := mkBlock (mkBlockHeader 5 "" (addr_of 0) "") [] [].
Definition w_zero_done : World :=
  res_world (block_state_transition 2 (Some block_zero) w0).

(** The block auto-pack mode builds around [tx_plain], and a summary
    object as it comes off the wire. *)
Definition summary_auto : TransactionGroupSummary :=
  mkSummary GASLIMIT 0 MAXSHARDS (sha3 (rlp_encode_txgroup [tx_plain])) (Some 10).
Definition block_auto : Block :=
  mkBlock (mkBlockHeader 0 (sha3 (rlp_encode_summaries [summary_auto])) (addr_of 0) "")
          [summary_auto] [[tx_plain]].
Definition heap_fresh : Heap :=
  fun _ => TransactionGroupSummary_init GASLIMIT 0 MAXSHARDS [tx_plain].

(** The block explicit mode builds over [heap_wide], and the store it
    leaves. *)
Definition block_wide : Block := mkBlock (header_for [summary_wide]) [summary_wide] [[]].
Definition heap_wide_done : Heap :=
  res_world (Block_init (Some (header_for [summary_wide])) [] (Some [[]])
               (Some [0%nat]) 0 "" "" heap_wide).

(** The root hash of the state the first empty slot leaves, which is the
    pre-state of the second. *)
Definition pre_second : bytes := trie_root_hash (root_hash (st w_block_done)).

(** Summary objects again: location 1 holds a summary whose hash matches
    no group and whose range [[500, 7)] is backwards and out of the shard
    range, with an intrinsic gas already assigned; every other location is
    as in [heap_wide]. *)
Definition summary_stray : TransactionGroupSummary := mkSummary 1000 500 7 "junk" (Some 3).
Definition heap_stray : Heap :=
  fun i => if decide (i = 1%nat) then summary_stray else heap_wide i.
Definition heap_stray_done : Heap :=
  with_intrinsic_gas heap_stray 0 (sumZ (map tx_intrinsic_gas [])).

(** A transaction over the empty range [[7, 7)]. *)
Definition tx_empty : Transaction := mkTransaction (addr_of 20) "" "" 100 50 10 7 7.

End MoreSample.

(** * Properties *)

(** ** Integers and byte strings *)

Lemma ord_range c : 0 <= ord c < 256.
Proof.
  unfold ord. pose proof (N_ascii_bounded c) as H.
  lia.
Qed.

Lemma ord_byte_of z : 0 <= z < 256 -> ord (byte_of z) = z.
Proof.
  intros Hz. unfold ord, byte_of.
  rewrite N_ascii_embedding by lia. lia.
Qed.

Lemma big_endian_to_int_from_app acc s :
  big_endian_to_int_from acc s
  = acc * 256 ^ Z.of_nat (String.length s) + big_endian_to_int s.
Proof.
  unfold big_endian_to_int. revert acc.
  induction s as [|c s IH]; intros acc; simpl String.length.
  - simpl. lia.
  - cbn [big_endian_to_int_from].
    rewrite (IH (acc * 256 + ord c)), (IH (0 * 256 + ord c)).
    rewrite Nat2Z.inj_succ, Z.pow_succ_r by lia. ring.
Qed.

Lemma big_endian_to_int_cons c s :
  big_endian_to_int (String c s)
  = ord c * 256 ^ Z.of_nat (String.length s) + big_endian_to_int s.
Proof.
  unfold big_endian_to_int at 1. cbn [big_endian_to_int_from].
  rewrite big_endian_to_int_from_app. lia.
Qed.

Lemma big_endian_to_int_nonneg s : 0 <= big_endian_to_int s.
Proof.
  induction s as [|c s IH].
  - reflexivity.
  - rewrite big_endian_to_int_cons. pose proof (ord_range c).
    assert (0 <= 256 ^ Z.of_nat (String.length s)) by (apply Z.pow_nonneg; lia).
    nia.
Qed.

Lemma append_cons c (s t : bytes) : String c s +:+ t = String c (s +:+ t).
Proof. reflexivity. Qed.

Lemma append_empty (t : bytes) : "" +:+ t = t.
Proof. reflexivity. Qed.

Lemma big_endian_to_int_zeros n s :
  big_endian_to_int (repeat_byte zero_byte n +:+ s) = big_endian_to_int s.
Proof.
  induction n as [|n IH]; [reflexivity|].
  simpl repeat_byte. rewrite append_cons, big_endian_to_int_cons, IH.
  reflexivity.
Qed.

Lemma int_to_big_endian_loop_spec fuel : forall v acc,
  0 <= v < 2 ^ Z.of_nat fuel ->
  big_endian_to_int (int_to_big_endian_loop fuel v acc)
  = v * 256 ^ Z.of_nat (String.length acc) + big_endian_to_int acc.
Proof.
  induction fuel as [|fuel IH]; intros v acc Hv.
  - simpl in *. assert (v = 0) by lia. subst. lia.
  - cbn [int_to_big_endian_loop]. destruct (0 <? v) eqn:Hpos.
    + apply Z.ltb_lt in Hpos.
      rewrite IH.
      * cbn [String.length]. rewrite big_endian_to_int_cons.
        rewrite ord_byte_of by (apply Z.mod_pos_bound; lia).
        rewrite Nat2Z.inj_succ, Z.pow_succ_r by lia.
        pose proof (Z.div_mod v 256). lia.
      * rewrite Nat2Z.inj_succ, Z.pow_succ_r in Hv by lia.
        split; [apply Z.div_pos; lia|].
        apply Z.div_lt_upper_bound; lia.
    + apply Z.ltb_ge in Hpos. assert (v = 0) by lia. subst. lia.
Qed.

Lemma big_endian_to_int_of_int v :
  0 <= v -> big_endian_to_int (int_to_big_endian v) = v.
Proof.
  intros Hv. unfold int_to_big_endian.
  rewrite int_to_big_endian_loop_spec.
  - change (big_endian_to_int "") with 0.
    change (Z.of_nat (String.length "")) with 0. lia.
  - split; [lia|].
    destruct (Z.eq_dec v 0) as [->|Hne]; [reflexivity|].
    rewrite Nat2Z.inj_succ, Z2Nat.id by apply Z.log2_nonneg.
    apply Z.log2_spec. lia.
Qed.

(** Reading back a canonicalized integer gives the integer. *)
Lemma big_endian_to_int_encode_int32 v :
  0 <= v -> big_endian_to_int (encode_int32 v) = v.
Proof.
  intros Hv. unfold encode_int32, zpad.
  rewrite big_endian_to_int_zeros. by apply big_endian_to_int_of_int.
Qed.

Lemma length_repeat_byte c n : String.length (repeat_byte c n) = n.
Proof. induction n; simpl; congruence. Qed.

Lemma length_append (s t : bytes) :
  String.length (s +:+ t) = (String.length s + String.length t)%nat.
Proof.
  induction s as [|c s IH]; [reflexivity|].
  rewrite append_cons. simpl. congruence.
Qed.

Lemma length_encode_int32 v : (32 <= String.length (encode_int32 v))%nat.
Proof.
  unfold encode_int32, zpad. rewrite length_append, length_repeat_byte. lia.
Qed.

Lemma encode_int32_nonempty v : encode_int32 v <> "".
Proof.
  intros H. pose proof (length_encode_int32 v) as Hl.
  rewrite H in Hl. simpl in Hl. lia.
Qed.

(** ** The monad *)

Lemma bind_Ok {W A B} (m : M W A) (k : A -> M W B) w b w' :
  bind m k w = Ok b w' -> exists a w1, m w = Ok a w1 /\ k a w1 = Ok b w'.
Proof.
  unfold bind. destruct (m w) as [a w1|e w1]; [eauto|discriminate].
Qed.

Lemma bind_eq_Ok {W A B} (m : M W A) (k : A -> M W B) w a w1 :
  m w = Ok a w1 -> bind m k w = k a w1.
Proof. unfold bind. by intros ->. Qed.

Lemma bind_eq_Raise {W A B} (m : M W A) (k : A -> M W B) w e w1 :
  m w = Raise e w1 -> bind m k w = Raise e w1.
Proof. unfold bind. by intros ->. Qed.

Lemma on_state_Ok {A} (m : M State A) w a w' :
  on_state m w = Ok a w' -> exists s', m (st w) = Ok a s' /\ w' = set_st s' w.
Proof.
  unfold on_state. destruct (m (st w)) as [x s'|e s']; [|discriminate].
  intros [= -> <-]. eauto.
Qed.

Lemma on_state_eq_Ok {A} (m : M State A) w a s' :
  m (st w) = Ok a s' -> on_state m w = Ok a (set_st s' w).
Proof. unfold on_state. by intros ->. Qed.

Lemma on_empty_state_Ok {A} (m : M State A) w a w' :
  on_empty_state m w = Ok a w' ->
  exists s', m (empty_st w) = Ok a s' /\ w' = set_empty_st s' w.
Proof.
  unfold on_empty_state.
  destruct (m (empty_st w)) as [x s'|e s']; [|discriminate].
  intros [= -> <-]. eauto.
Qed.

Lemma assert_Ok {W} (b : bool) (w w' : W) u :
  assert b w = Ok u w' -> b = true /\ w' = w.
Proof. destruct b; unfold assert, ret, raise; intros H; inversion H; auto. Qed.

Lemma lift_opt_Ok {W A} e (o : option A) (w w' : W) a :
  lift_opt e o w = Ok a w' -> o = Some a /\ w' = w.
Proof. destruct o; unfold lift_opt, ret, raise; intros H; inversion H; auto. Qed.

(** ** The journaled state *)

Section StateFacts.
Context {E : Env}.

Lemma cache_store_Ok a k v s sub :
  cache s !! a = Some sub ->
  cache_store a k v s = Ok tt (set_cache (<[a := <[k := v]> sub]> (cache s)) s).
Proof. unfold cache_store. by intros ->. Qed.

Lemma cache_store_inv a k v s u s' :
  cache_store a k v s = Ok u s' ->
  exists sub, cache s !! a = Some sub /\
              s' = set_cache (<[a := <[k := v]> sub]> (cache s)) s.
Proof.
  unfold cache_store. destruct (cache s !! a) as [sub|]; [|discriminate].
  intros H; inversion H. eauto.
Qed.

Lemma view_ext s t :
  cache t = cache s -> root_hash t = root_hash s ->
  forall a k, view t a k = view s a k.
Proof. intros Hc Hr a k. unfold view, cached. by rewrite Hc, Hr. Qed.

Lemma view_cache_insert s c a sub k v x y :
  c !! a = Some sub -> cache s = c ->
  view (set_cache (<[a := <[k := v]> sub]> c) s) x y
  = if decide (x = a /\ y = k) then v else view s x y.
Proof.
  intros Hsub Hc. unfold view, cached. simpl. rewrite Hc.
  destruct (decide (x = a)) as [->|Hne].
  - rewrite lookup_insert_eq, Hsub.
    destruct (decide (y = k)) as [->|Hk].
    + rewrite lookup_insert_eq. by rewrite decide_True.
    + rewrite lookup_insert_ne by done. rewrite decide_False; [done|by intros [? ?]].
  - rewrite lookup_insert_ne by done. rewrite decide_False; [done|by intros [? ?]].
Qed.

Lemma equiv_refl s : equiv s s.
Proof. by repeat split. Qed.

Lemma equiv_trans s t u : equiv s t -> equiv t u -> equiv s u.
Proof.
  intros (Hr1 & Hj1 & Hv1 & Hc1) (Hr2 & Hj2 & Hv2 & Hc2).
  repeat split; [congruence|congruence| |auto].
  intros a k. by rewrite Hv2, Hv1.
Qed.

(** The result of a read, and what the read leaves behind. *)
Lemma get_storage_Ok a k s a' :
  normalize_address a = Some a' ->
  exists s', get_storage a k s = Ok (view s a' (canon k)) s' /\
             equiv s s' /\ is_Some (cache s' !! a') /\
             db s' = db s /\ modified s' = modified s.
Proof.
  intros Hn. unfold get_storage, normalize.
  unfold bind at 1. rewrite Hn. cbn [lift_opt ret].
  unfold bind at 1. cbn [gets].
  unfold view, cached.
  destruct (cache s !! a') as [sub|] eqn:Hsub.
  - destruct (sub !! canon k) as [v|] eqn:Hv.
    + exists s. unfold ret. split; [done|]. split; [apply equiv_refl|].
      split; [by rewrite Hsub|done].
    + unfold bind, gets, ret.
      rewrite (cache_store_Ok _ _ _ _ sub) by done.
      eexists. split; [reflexivity|]. split; [|split].
      * repeat split; try done.
        -- intros x y. rewrite (view_cache_insert s (cache s) a' sub) by done.
           case_decide as Hd; [|done]. destruct Hd as [-> ->].
           unfold view, cached. by rewrite Hsub, Hv.
        -- intros x [? Hx]. simpl. destruct (decide (x = a')) as [->|].
           ++ rewrite lookup_insert_eq. eauto.
           ++ rewrite lookup_insert_ne by done. eauto.
      * simpl. rewrite lookup_insert_eq. eauto.
      * done.
  - unfold bind, modify, gets, ret.
    rewrite (cache_store_Ok _ _ _ _ ∅) by (simpl; apply lookup_insert_eq).
    eexists. split; [reflexivity|]. split; [|split].
    + repeat split; try done.
      * intros x y. simpl. rewrite insert_insert_eq.
        unfold view, cached. simpl.
        destruct (decide (x = a')) as [->|].
        -- rewrite lookup_insert_eq, Hsub.
           destruct (decide (y = canon k)) as [->|].
           ++ by rewrite lookup_insert_eq.
           ++ by rewrite lookup_insert_ne, lookup_empty.
        -- by rewrite lookup_insert_ne.
      * intros x [? Hx]. simpl. rewrite insert_insert_eq.
        destruct (decide (x = a')) as [->|].
        -- rewrite lookup_insert_eq. eauto.
        -- rewrite lookup_insert_ne by done. eauto.
    + simpl. rewrite lookup_insert_eq. eauto.
    + done.
Qed.

Lemma get_storage_Raise a k s :
  normalize_address a = None -> get_storage a k s = Raise PyException s.
Proof.
  intros Hn. unfold get_storage, normalize, bind. by rewrite Hn.
Qed.

Lemma get_storage_inv a k s v s' :
  get_storage a k s = Ok v s' ->
  exists a', normalize_address a = Some a' /\ v = view s a' (canon k) /\
             equiv s s' /\ is_Some (cache s' !! a') /\
             db s' = db s /\ modified s' = modified s.
Proof.
  intros H. destruct (normalize_address a) as [a'|] eqn:Hn.
  - destruct (get_storage_Ok a k s a' Hn) as (s2 & H2 & ?).
    rewrite H in H2. inversion H2; subst. eauto.
  - rewrite get_storage_Raise in H by done. discriminate.
Qed.

End StateFacts.

Section JournalFacts.
Context {E : Env} {EL : EnvLaws E}.

(** The result of a write. *)
Lemma set_storage_Ok a k v s a' :
  normalize_address a = Some a' ->
  exists s', set_storage a k v s = Ok tt s' /\
    root_hash s' = root_hash s /\ db s' = db s /\
    journal s' = JSet a' (canon k) (view s a' (canon k)) :: journal s /\
    (forall x y, view s' x y
                 = if decide (x = a' /\ y = canon k) then canon v else view s x y) /\
    (forall x, is_Some (cache s !! x) -> is_Some (cache s' !! x)) /\
    is_Some (cache s' !! a') /\
    canon k ∈ default ∅ (modified s' !! a').
Proof.
  intros Hn. pose proof (normalize_idem _ _ Hn) as Hn'.
  unfold set_storage, normalize.
  unfold bind at 1. rewrite Hn. cbn [lift_opt ret].
  destruct (get_storage_Ok a' (PStr (canon k)) s a' Hn')
    as (s1 & Hget & (Hr1 & Hj1 & Hv1 & Hc1) & [sub Hsub] & Hdb1 & Hm1).
  cbn [canon] in Hget.
  rewrite (bind_eq_Ok _ _ _ _ _ Hget).
  unfold bind at 1. cbn [modify].
  unfold bind at 1.
  rewrite (cache_store_Ok _ _ _ _ sub) by done.
  cbn [modify]. eexists. split; [reflexivity|].
  cbn [root_hash db journal cache modified set_cache set_journal set_modified].
  split; [done|]. split; [done|]. split; [by rewrite Hj1|].
  split; [|split; [|split]].
  - intros x y.
    match goal with |- view (set_modified ?m ?s2) _ _ = _ =>
      rewrite (view_ext s2 (set_modified m s2)) by done end.
    rewrite (view_cache_insert _ (cache s1) a' sub) by done.
    rewrite (view_ext s1 (set_journal _ s1)) by done.
    by rewrite Hv1.
  - intros x Hx. apply Hc1 in Hx. destruct (decide (x = a')) as [->|].
    + rewrite lookup_insert_eq. eauto.
    + by rewrite lookup_insert_ne.
  - rewrite lookup_insert_eq. eauto.
  - rewrite lookup_insert_eq. simpl. set_solver.
Qed.

Lemma set_storage_Raise a k v s :
  normalize_address a = None -> set_storage a k v s = Raise PyException s.
Proof.
  intros Hn. unfold set_storage, normalize, bind. by rewrite Hn.
Qed.

Lemma set_storage_inv a k v s u s' :
  set_storage a k v s = Ok u s' ->
  exists a', normalize_address a = Some a' /\
    root_hash s' = root_hash s /\ db s' = db s /\
    journal s' = JSet a' (canon k) (view s a' (canon k)) :: journal s /\
    (forall x y, view s' x y
                 = if decide (x = a' /\ y = canon k) then canon v else view s x y) /\
    (forall x, is_Some (cache s !! x) -> is_Some (cache s' !! x)) /\
    is_Some (cache s' !! a') /\
    canon k ∈ default ∅ (modified s' !! a').
Proof.
  intros H. destruct (normalize_address a) as [a'|] eqn:Hn.
  - destruct (set_storage_Ok a k v s a' Hn) as (s2 & H2 & ?).
    rewrite H in H2. inversion H2; subst. eauto.
  - rewrite set_storage_Raise in H by done. discriminate.
Qed.

(** *** Unwinding the journal *)

Lemma revert_from_journal n j : forall s u s',
  journal s = j -> revert_from n j s = Ok u s' ->
  length (journal s') = Nat.min n (length j).
Proof.
  induction j as [|e j IH]; intros s u s' Hj H; cbn [revert_from] in H.
  - inversion H; subst. rewrite Hj. simpl. lia.
  - case_decide as Hlt.
    + simpl in Hlt. destruct e as [a k p|c m rt].
      * destruct (cache_store a k p (set_journal j s)) as [[] s1|] eqn:Hcs; [|discriminate].
        apply cache_store_inv in Hcs as (sub & _ & ->).
        apply IH in H; [|done]. rewrite H. simpl. lia.
      * apply IH in H; [|done]. rewrite H. simpl. lia.
    + inversion H; subst. rewrite Hj. simpl in *. lia.
Qed.

(** Unwinding commutes with [equiv]. *)
Lemma revert_from_equiv n j : forall s t u s',
  journal s = j -> equiv s t -> revert_from n j s = Ok u s' ->
  exists t', revert_from n j t = Ok tt t' /\ equiv s' t'.
Proof.
  induction j as [|e j IH]; intros s t u s' Hj Heq H; cbn [revert_from] in *.
  - inversion H; subst. eauto.
  - case_decide as Hlt; [|inversion H; subst; eauto].
    destruct Heq as (Hr & Hjt & Hv & Hc).
    destruct e as [a k p|c m rt].
    + destruct (cache_store a k p (set_journal j s)) as [[] s1|] eqn:Hcs; [|discriminate].
      apply cache_store_inv in Hcs as (sub & Hsub & ->).
      cbn [cache set_journal] in Hsub.
      destruct (Hc a) as [sub' Hsub']; [eauto|].
      rewrite (cache_store_Ok _ _ _ _ sub') by done.
      eapply IH; [| |exact H]; [done|].
      repeat split; try done.
      * intros x y. cbn [cache set_journal].
        rewrite (view_cache_insert (set_journal j t) (cache t) a sub') by done.
        rewrite (view_cache_insert (set_journal j s) (cache s) a sub) by done.
        case_decide; [done|].
        rewrite (view_ext t (set_journal j t)), (view_ext s (set_journal j s)) by done.
        apply Hv.
      * intros z. cbn [cache set_cache set_journal].
        destruct (decide (z = a)) as [->|].
        -- rewrite !lookup_insert_eq. eauto.
        -- rewrite !lookup_insert_ne by done. apply Hc.
    + eapply IH; [| |exact H]; [done|]. by repeat split.
Qed.

(** Unwinding to an older snapshot absorbs unwinding to a newer one. *)
Lemma revert_from_revert_from n m j : forall s u s',
  (n <= m)%nat -> journal s = j -> revert_from m j s = Ok u s' ->
  revert_from n (journal s') s' = revert_from n j s.
Proof.
  induction j as [|e j IH]; intros s u s' Hnm Hj H; cbn [revert_from] in H.
  - inversion H; subst. by rewrite Hj.
  - case_decide as Hlt.
    + cbn [revert_from]. rewrite decide_True by (simpl in *; lia).
      destruct e as [a k p|c mo rt].
      * destruct (cache_store a k p (set_journal j s)) as [[] s1|] eqn:Hcs; [|discriminate].
        pose proof Hcs as Hcs'.
        apply cache_store_inv in Hcs' as (sub & _ & ->).
        eapply IH; [done| |exact H]. done.
      * eapply IH; [done| |exact H]. done.
    + inversion H; subst. by rewrite Hj.
Qed.

Lemma revert_at_length s : revert (length (journal s)) s = Ok tt s.
Proof.
  unfold revert. destruct (journal s) as [|e j]; cbn [revert_from]; [done|].
  rewrite decide_False by lia. done.
Qed.

Lemma equiv_follows s t : equiv s t -> follows s t.
Proof.
  intros Heq. pose proof Heq as (_ & Hj & _).
  split; [by rewrite Hj|].
  exists t. split; [|done]. rewrite <- Hj. apply revert_at_length.
Qed.

Lemma follows_refl s : follows s s.
Proof. apply equiv_follows, equiv_refl. Qed.

Lemma follows_trans s t u : follows s t -> follows t u -> follows s u.
Proof.
  intros (Hl1 & t' & Hrt & Heq1) (Hl2 & u' & Hru & Heq2).
  split; [lia|].
  unfold revert in *.
  pose proof (revert_from_revert_from (length (journal s)) _ _ u _ u' Hl1 eq_refl Hru) as Hrr.
  destruct (revert_from_equiv _ _ t u' _ t' eq_refl Heq2 Hrt) as (u'' & Hru' & Heq3).
  destruct Heq2 as (_ & Hj2 & _). rewrite Hj2 in Hrr.
  exists u''. split; [congruence|]. by eapply equiv_trans.
Qed.

(** Each journaled step can be unwound. *)
Lemma follows_get a k s v s' : get_storage a k s = Ok v s' -> follows s s'.
Proof.
  intros H. apply get_storage_inv in H as (? & _ & _ & Heq & _).
  by apply equiv_follows.
Qed.

Lemma follows_set a k v s u s' : set_storage a k v s = Ok u s' -> follows s s'.
Proof.
  intros H. apply set_storage_inv in H
    as (a' & _ & Hr & _ & Hj & Hv & Hc & [sub Hsub] & _).
  split; [rewrite Hj; simpl; lia|].
  unfold revert. rewrite Hj. cbn [revert_from].
  rewrite decide_True by (simpl; lia).
  rewrite (cache_store_Ok _ _ _ _ sub) by done.
  destruct (journal s) as [|e j] eqn:Hjs.
  - cbn [revert_from]. eexists. split; [reflexivity|].
    repeat split; try done.
    + intros x y.
      rewrite (view_cache_insert (set_journal [] s') (cache s') a' sub) by done.
      rewrite (view_ext s' (set_journal [] s')) by done.
      rewrite Hv. case_decide as Hd; [by destruct Hd as [-> ->]|done].
    + intros x Hx. apply Hc in Hx. cbn [cache set_cache set_journal].
      destruct (decide (x = a')) as [->|].
      * rewrite lookup_insert_eq. eauto.
      * by rewrite lookup_insert_ne.
  - cbn [revert_from]. rewrite decide_False by (simpl; lia).
    eexists. split; [reflexivity|].
    repeat split; try done.
    + intros x y.
      rewrite (view_cache_insert (set_journal (e :: j) s') (cache s') a' sub) by done.
      rewrite (view_ext s' (set_journal (e :: j) s')) by done.
      rewrite Hv. case_decide as Hd; [by destruct Hd as [-> ->]|done].
    + intros x Hx. apply Hc in Hx. cbn [cache set_cache set_journal].
      destruct (decide (x = a')) as [->|].
      * rewrite lookup_insert_eq. eauto.
      * by rewrite lookup_insert_ne.
Qed.

Lemma follows_commit s u s' : commit s = Ok u s' -> follows s s'.
Proof.
  unfold commit. intros H. inversion H; subst; clear H.
  split; [simpl; lia|].
  unfold revert. cbn [journal revert_from].
  rewrite decide_True by (simpl; lia).
  cbn [set_journal set_root_hash set_cache set_modified root_hash db journal cache modified].
  destruct s as [rt d j c m]. cbn [root_hash db journal cache modified].
  destruct j as [|e j]; cbn [revert_from].
  - eexists. split; [reflexivity|]. apply equiv_refl.
  - rewrite decide_False by (simpl; lia).
    eexists. split; [reflexivity|]. apply equiv_refl.
Qed.

End JournalFacts.

Section RoundTrip.
Context {E : Env} {EL : EnvLaws E}.

Lemma exec_op_follows op s : follows s (res_world (exec_op op s)).
Proof.
  destruct op as [a k v|a k|]; cbn [exec_op].
  - destruct (normalize_address a) as [a'|] eqn:Hn.
    + destruct (set_storage_Ok a k v s a' Hn) as (s' & H & _).
      rewrite H. cbn [res_world]. by eapply follows_set.
    + rewrite set_storage_Raise by done. apply follows_refl.
  - destruct (normalize_address a) as [a'|] eqn:Hn.
    + destruct (get_storage_Ok a k s a' Hn) as (s' & H & _).
      rewrite (bind_eq_Ok _ _ _ _ _ H). cbn [ret res_world].
      by eapply follows_get.
    + rewrite (bind_eq_Raise _ _ _ _ _ (get_storage_Raise a k s Hn)).
      apply follows_refl.
  - destruct (commit s) as [u s'|e s'] eqn:H.
    + by eapply follows_commit.
    + discriminate.
Qed.

Lemma exec_ops_follows ops : forall s, follows s (exec_ops ops s).
Proof.
  induction ops as [|op ops IH]; intros s; cbn [exec_ops].
  - apply follows_refl.
  - eapply follows_trans; [apply exec_op_follows|apply IH].
Qed.

(** Reads see a state only through [view]. *)
Lemma read_all_view qs : forall s t,
  (forall a k, view t a k = view s a k) -> read_all qs t = read_all qs s.
Proof.
  induction qs as [|[a k] qs IH]; intros s t Hv; cbn [read_all]; [done|].
  destruct (normalize_address a) as [a'|] eqn:Hn.
  - destruct (get_storage_Ok a k s a' Hn) as (s1 & -> & (_ & _ & Hs & _) & _).
    destruct (get_storage_Ok a k t a' Hn) as (t1 & -> & (_ & _ & Ht & _) & _).
    cbn [res_value res_world]. rewrite Hv. f_equal.
    apply IH. intros x y. by rewrite Ht, Hs.
  - rewrite !get_storage_Raise by done. cbn [res_value res_world].
    f_equal. by apply IH.
Qed.

Lemma read_view s a k a' :
  normalize_address a = Some a' -> read s a k = inl (view s a' (canon k)).
Proof.
  intros Hn. unfold read.
  by destruct (get_storage_Ok a k s a' Hn) as (s1 & -> & _).
Qed.

(** C5: a snapshot, then any sequence of [set_storage] calls with reads
    and [commit]s interleaved, then [revert] to the snapshot: the revert
    completes, unwinding the commit markers too, and every later
    [get_storage] returns what it returned before the snapshot. *)
Theorem snapshot_revert_round_trip (s : State) (ops : list StateOp) t0 s' :
  snapshot s = Ok t0 s' ->
  exists s2, revert t0 (exec_ops ops s') = Ok tt s2 /\
             forall qs, read_all qs s2 = read_all qs s.
Proof.
  intros Hsnap. unfold snapshot, gets in Hsnap. inversion Hsnap; subst; clear Hsnap.
  destruct (exec_ops_follows ops s') as (_ & s2 & Hrev & (_ & _ & Hv & _)).
  exists s2. split; [done|]. intros qs. by apply read_all_view.
Qed.

End RoundTrip.

(** ** apply_msg *)

Tactic Notation "inv_bind" hyp(H) "as" simple_intropattern(a) ident(w) ident(H1) :=
  apply bind_Ok in H as (a & w & H1 & H).

Lemma set_st_st w : set_st (st w) w = w.
Proof. by destruct w. Qed.

Lemma set_empty_st_empty_st w : set_empty_st (empty_st w) w = w.
Proof. by destruct w. Qed.

Section ApplyMsgFacts.
Context {E : Env} {EL : EnvLaws E}.

Lemma st_inv_refl ext w : st_inv ext w w.
Proof. split; [apply follows_refl|done]. Qed.

Lemma st_inv_same ext w w' : st w' = st w -> st_inv ext w w'.
Proof. intros H. split; [rewrite H; apply follows_refl|done]. Qed.

Lemma st_inv_trans ext w1 w2 w3 :
  st_inv ext w1 w2 -> st_inv ext w2 w3 -> st_inv ext w1 w3.
Proof.
  intros [Hf1 He1] [Hf2 He2]. split; [by eapply follows_trans|].
  intros He. by rewrite He2, He1.
Qed.

Lemma st_inv_empty ext w w' : st_inv EmptyVMExt w w' -> st_inv ext w w'.
Proof. intros [_ He]. apply st_inv_same. by apply He. Qed.

Lemma ext_get_storage_st_inv ext a k w v w' :
  ext_get_storage ext a k w = Ok v w' -> st_inv ext w w'.
Proof.
  destruct ext; cbn [ext_get_storage]; intros H.
  - apply on_state_Ok in H as (s' & H & ->). split; [|done].
    by eapply follows_get.
  - inversion H; subst. apply st_inv_refl.
Qed.

Lemma ext_set_storage_st_inv ext a k v w u w' :
  ext_set_storage ext a k v w = Ok u w' -> st_inv ext w w'.
Proof.
  destruct ext; cbn [ext_set_storage]; intros H.
  - apply on_state_Ok in H as (s' & H & ->). split; [|done].
    by eapply follows_set.
  - inversion H; subst. apply st_inv_refl.
Qed.

Lemma ext_unhash_st_inv ext x w v w' :
  ext_unhash ext x w = Ok v w' -> st_inv ext w w'.
Proof.
  destruct ext; cbn [ext_unhash]; intros H.
  - apply on_state_Ok in H as (s' & H & ->). apply st_inv_same.
    unfold db_get in H. destruct (db (st w) !! _); by inversion H.
  - inversion H; subst. apply st_inv_refl.
Qed.

Lemma ext_puthashdata_st_inv ext d w u w' :
  ext_puthashdata ext d w = Ok u w' -> st_inv ext w w'.
Proof.
  destruct ext; cbn [ext_puthashdata]; intros H; [|discriminate].
  apply on_state_Ok in H as (s' & H & ->). split; [|done].
  unfold db_put, modify in H. inversion H; subst.
  apply equiv_follows. by repeat split.
Qed.

Lemma run_vm_st_inv call :
  (forall e m c w r w', call e m c w = Ok r w' -> st_inv e w w') ->
  forall p ext w r w', run_vm call ext p w = Ok r w' -> st_inv ext w w'.
Proof.
  intros Hcall p.
  induction p as [r0|a k cont IH|a k v cont IH|h cont IH|d cont IH
                  |m code cont IH|m code cont IH|e];
    intros ext w r w' H; cbn [run_vm] in H.
  - inversion H; subst. apply st_inv_refl.
  - inv_bind H as v w1 H1.
    eapply st_inv_trans; [by eapply ext_get_storage_st_inv|by eapply IH].
  - inv_bind H as u w1 H1.
    eapply st_inv_trans; [by eapply ext_set_storage_st_inv|by eapply IH].
  - inv_bind H as v w1 H1.
    eapply st_inv_trans; [by eapply ext_unhash_st_inv|by eapply IH].
  - inv_bind H as u w1 H1.
    eapply st_inv_trans; [by eapply ext_puthashdata_st_inv|by eapply IH].
  - inv_bind H as v w1 H1.
    eapply st_inv_trans; [by eapply Hcall|by eapply IH].
  - inv_bind H as v w1 H1.
    eapply st_inv_trans; [eapply st_inv_empty; by eapply Hcall|by eapply IH].
  - discriminate.
Qed.

Lemma transfer_value_st_inv ext msg w q w' :
  transfer_value ext msg w = Ok q w' -> st_inv ext w w'.
Proof.
  unfold transfer_value. intros H.
  destruct (transfers_value msg); [|inversion H; subst; apply st_inv_refl].
  inv_bind H as bal w0 H0.
  pose proof (ext_get_storage_st_inv _ _ _ _ _ _ H0) as I0.
  destruct (_ <? _); [inversion H; subst; done|].
  destruct (negb _); [|inversion H; subst; done].
  inv_bind H as b1 w1 H1. pose proof (ext_get_storage_st_inv _ _ _ _ _ _ H1) as I1.
  inv_bind H as u2 w2 H2. pose proof (ext_set_storage_st_inv _ _ _ _ _ _ _ H2) as I2.
  inv_bind H as b3 w3 H3. pose proof (ext_get_storage_st_inv _ _ _ _ _ _ H3) as I3.
  inv_bind H as u4 w4 H4. pose proof (ext_set_storage_st_inv _ _ _ _ _ _ _ H4) as I4.
  inversion H; subst.
  repeat (eapply st_inv_trans; [eassumption|]). apply st_inv_refl.
Qed.

Lemma on_ext_state_snapshot ext w n w' :
  on_ext_state ext snapshot w = Ok n w' ->
  w' = w /\ (ext = VMExt -> n = length (journal (st w))) /\
  (ext = EmptyVMExt -> n = length (journal (empty_st w))).
Proof.
  destruct ext; cbn [on_ext_state]; intros H.
  - apply on_state_Ok in H as (s' & H & ->). unfold snapshot, gets in H.
    inversion H; subst. rewrite set_st_st. done.
  - apply on_empty_state_Ok in H as (s' & H & ->). unfold snapshot, gets in H.
    inversion H; subst. rewrite set_empty_st_empty_st. done.
Qed.

(** A call takes journaled steps only, and a call that returns status 0
    leaves every location as it found it. *)
Lemma apply_msg_st_inv depth : forall ext msg code b w r w',
  apply_msg depth ext msg code b w = Ok r w' ->
  st_inv ext w w' /\
  (r.1.1 = 0 -> forall a k, view (st w') a k = view (st w) a k).
Proof.
  induction depth as [|depth IH]; intros ext msg code b w r w' H;
    cbn [apply_msg] in H; [discriminate|].
  inv_bind H as ec wa Ha. unfold gets in Ha. inversion Ha; subst; clear Ha.
  destruct (if decide (ext = EmptyVMExt) then _ else None) as [hit|].
  { inversion H; subst. split; [apply st_inv_refl|done]. }
  inv_bind H as snap wb Hb. apply on_ext_state_snapshot in Hb as (-> & Hsnap1 & Hsnap2).
  inv_bind H as quit w0 H0. pose proof (transfer_value_st_inv _ _ _ _ _ H0) as I1.
  destruct quit.
  { inversion H; subst. split; [done|]. cbn. discriminate. }
  inv_bind H as [[res g] dat] w1 H1.
  assert (I2 : st_inv ext w0 w1).
  { eapply run_vm_st_inv; [|exact H1]. intros e m c x y z Hc.
    by apply IH in Hc as [? _]. }
  pose proof (st_inv_trans _ _ _ _ I1 I2) as I3.
  inv_bind H as u2 w2 H2. inv_bind H as u3 w3 H3. unfold modify in H3.
  inversion H3; subst; clear H3. inversion H; subst; clear H.
  cbn [fst st set_eve_cache].
  destruct (res =? 0) eqn:Hres.
  - destruct ext; cbn [on_ext_state] in H2.
    + apply on_state_Ok in H2 as (s' & Hrev & ->). cbn [st set_st].
      destruct I3 as [(Hl & t' & Hrev' & Heq) _].
      rewrite (Hsnap1 eq_refl) in Hrev. rewrite Hrev in Hrev'.
      inversion Hrev'; subst.
      split; [split; [by apply equiv_follows|done]|].
      intros _. by destruct Heq as (_ & _ & Hv & _).
    + apply on_empty_state_Ok in H2 as (s' & Hrev & ->). cbn [st set_empty_st].
      destruct I3 as [I3 I3'].
      split; [apply st_inv_same; cbn; by apply I3'|].
      intros _ x y. cbn. by rewrite I3'.
  - inversion H2; subst. split; [done|]. intros ?. apply Z.eqb_neq in Hres. lia.
Qed.

(** C6: a call of [apply_msg] that returns status 0 leaves the state, as
    observed through [get_storage], as it was when the call started. *)
Theorem apply_msg_revert_atomic depth ext msg code breaking w g dat w' :
  apply_msg depth ext msg code breaking w = Ok (0, g, dat) w' ->
  forall qs, read_all qs (st w') = read_all qs (st w).
Proof.
  intros H qs. apply apply_msg_st_inv in H as [_ Hv].
  apply read_all_view. by apply Hv.
Qed.

End ApplyMsgFacts.

(** *** The pure-call memo *)

Section MemoFacts.
Context {E : Env}.

Lemma on_state_eve_cache {A} (m : M State A) w a w' :
  on_state m w = Ok a w' -> eve_cache w' = eve_cache w.
Proof. intros H. by apply on_state_Ok in H as (s' & _ & ->). Qed.

Lemma on_empty_state_eve_cache {A} (m : M State A) w a w' :
  on_empty_state m w = Ok a w' -> eve_cache w' = eve_cache w.
Proof. intros H. by apply on_empty_state_Ok in H as (s' & _ & ->). Qed.

Lemma on_ext_state_eve_cache {A} ext (m : M State A) w a w' :
  on_ext_state ext m w = Ok a w' -> eve_cache w' = eve_cache w.
Proof.
  destruct ext; cbn [on_ext_state];
    [apply on_state_eve_cache|apply on_empty_state_eve_cache].
Qed.

Lemma ext_get_storage_eve_cache ext a k w v w' :
  ext_get_storage ext a k w = Ok v w' -> eve_cache w' = eve_cache w.
Proof.
  destruct ext; cbn [ext_get_storage]; [apply on_state_eve_cache|].
  by intros [= _ <-].
Qed.

Lemma ext_set_storage_eve_cache ext a k v w u w' :
  ext_set_storage ext a k v w = Ok u w' -> eve_cache w' = eve_cache w.
Proof.
  destruct ext; cbn [ext_set_storage]; [apply on_state_eve_cache|].
  by intros [= _ <-].
Qed.

Lemma ext_unhash_eve_cache ext x w v w' :
  ext_unhash ext x w = Ok v w' -> eve_cache w' = eve_cache w.
Proof.
  destruct ext; cbn [ext_unhash]; [apply on_state_eve_cache|].
  by intros [= _ <-].
Qed.

Lemma ext_puthashdata_eve_cache ext d w u w' :
  ext_puthashdata ext d w = Ok u w' -> eve_cache w' = eve_cache w.
Proof.
  destruct ext; cbn [ext_puthashdata]; [apply on_state_eve_cache|discriminate].
Qed.

Lemma transfer_value_eve_cache ext msg w q w' :
  transfer_value ext msg w = Ok q w' -> eve_cache w' = eve_cache w.
Proof.
  unfold transfer_value. intros H.
  destruct (transfers_value msg); [|by inversion H].
  inv_bind H as bal w0 H0. apply ext_get_storage_eve_cache in H0.
  destruct (_ <? _); [inversion H; by subst|].
  destruct (negb _); [|inversion H; by subst].
  inv_bind H as b1 w1 H1. apply ext_get_storage_eve_cache in H1.
  inv_bind H as u2 w2 H2. apply ext_set_storage_eve_cache in H2.
  inv_bind H as b3 w3 H3. apply ext_get_storage_eve_cache in H3.
  inv_bind H as u4 w4 H4. apply ext_set_storage_eve_cache in H4.
  inversion H; subst. congruence.
Qed.

Lemma run_vm_cache_wf call :
  (forall e m c w r w', cache_wf (eve_cache w) -> call e m c w = Ok r w' ->
                        cache_wf (eve_cache w')) ->
  forall p ext w r w', cache_wf (eve_cache w) -> run_vm call ext p w = Ok r w' ->
                       cache_wf (eve_cache w').
Proof.
  intros Hcall p.
  induction p as [r0|a k cont IH|a k v cont IH|h cont IH|d cont IH
                  |m code cont IH|m code cont IH|e];
    intros ext w r w' Hwf H; cbn [run_vm] in H.
  - inversion H; by subst.
  - inv_bind H as v w1 H1. apply ext_get_storage_eve_cache in H1.
    eapply IH; [|exact H]. by rewrite H1.
  - inv_bind H as u w1 H1. apply ext_set_storage_eve_cache in H1.
    eapply IH; [|exact H]. by rewrite H1.
  - inv_bind H as v w1 H1. apply ext_unhash_eve_cache in H1.
    eapply IH; [|exact H]. by rewrite H1.
  - inv_bind H as u w1 H1. apply ext_puthashdata_eve_cache in H1.
    eapply IH; [|exact H]. by rewrite H1.
  - inv_bind H as v w1 H1. eapply IH; [|exact H]. by eapply Hcall.
  - inv_bind H as v w1 H1. eapply IH; [|exact H]. by eapply Hcall.
  - discriminate.
Qed.

Lemma cache_wf_empty : cache_wf ∅.
Proof. intros key res g dat H. by rewrite lookup_empty in H. Qed.

(** The memo keeps its shape, and a triple returned with status 0 has
    gas 0. *)
Lemma apply_msg_cache_wf depth : forall ext msg code b w r w',
  cache_wf (eve_cache w) ->
  apply_msg depth ext msg code b w = Ok r w' ->
  cache_wf (eve_cache w') /\ (r.1.1 = 0 -> r.1.2 = 0).
Proof.
  induction depth as [|depth IH]; intros ext msg code b w r w' Hwf H;
    cbn [apply_msg] in H; [discriminate|].
  inv_bind H as ec wa Ha. unfold gets in Ha. inversion Ha; subst; clear Ha.
  destruct (if decide (ext = EmptyVMExt) then _ else None) as [hit|] eqn:Hhit.
  { inversion H; subst. split; [done|].
    case_decide; [|discriminate]. destruct r as [[res g] dat].
    cbn. by eapply Hwf. }
  inv_bind H as snap wb Hb. apply on_ext_state_eve_cache in Hb.
  inv_bind H as quit w0 H0. apply transfer_value_eve_cache in H0.
  destruct quit.
  { inversion H; subst. split; [by rewrite H0, Hb|]. cbn. discriminate. }
  inv_bind H as [[res g] dat] w1 H1.
  assert (Hwf1 : cache_wf (eve_cache w1)).
  { eapply run_vm_cache_wf; [| |exact H1].
    - intros e m c x y z Hx Hc. by apply (IH _ _ _ _ _ _ _ Hx) in Hc as [? _].
    - by rewrite H0, Hb. }
  inv_bind H as u2 w2 H2. inv_bind H as u3 w3 H3. unfold modify in H3.
  inversion H3; subst; clear H3. inversion H; subst; clear H.
  assert (Hc2 : eve_cache w2 = eve_cache w1).
  { destruct (res =? 0); [by eapply on_ext_state_eve_cache|by inversion H2]. }
  cbn [fst snd eve_cache set_eve_cache]. split.
  - intros key r0 g0 d0 Hl Hr. rewrite Hc2 in Hl.
    destruct (decide (cache_key_of msg code = key)) as [Heq|Hne].
    + subst key. rewrite lookup_insert_eq in Hl. inversion Hl; subst.
      by rewrite (proj2 (Z.eqb_eq _ _) eq_refl).
    + rewrite lookup_insert_ne in Hl by done. by eapply Hwf1.
  - intros ->. reflexivity.
Qed.

(** Whatever the façade, a call that neither finds its key in the memo
    nor quits on the value transfer ends by storing its triple under its
    key. *)
Lemma apply_msg_memoizes depth ext msg code b w r w' :
  apply_msg depth ext msg code b w = Ok r w' ->
  (exists w1, transfer_value ext msg w = Ok true w1) \/
  eve_cache w' !! cache_key_of msg code = Some r.
Proof.
  intros H. destruct depth as [|depth]; [discriminate|]. cbn [apply_msg] in H.
  inv_bind H as ec wa Ha. unfold gets in Ha. inversion Ha; subst; clear Ha.
  destruct (if decide (ext = EmptyVMExt) then _ else None) as [hit|] eqn:Hhit.
  { inversion H; subst. right. by case_decide. }
  inv_bind H as snap wb Hb. apply on_ext_state_snapshot in Hb as (-> & _).
  inv_bind H as quit w0 H0.
  destruct quit; [left; eauto|].
  inv_bind H as [[res g] dat] w1 H1.
  inv_bind H as u2 w2 H2. inv_bind H as u3 w3 H3. unfold modify in H3.
  inversion H3; subst; clear H3. inversion H; subst; clear H.
  right. cbn [eve_cache set_eve_cache]. apply lookup_insert_eq.
Qed.

(** C3, as the code has it: a call that returns status 0 returns gas 0
    (the memo holding only triples of that shape, as it does when only
    [apply_msg] fills it); a call that quits because the sender cannot pay
    returns status 1 with the whole gas of the message and no data. *)
Theorem apply_msg_failed_gas depth ext msg code breaking w res g dat w' :
  cache_wf (eve_cache w) ->
  apply_msg depth ext msg code breaking w = Ok (res, g, dat) w' ->
  (res = 0 -> g = 0) /\
  (forall w1,
     (if decide (ext = EmptyVMExt) then eve_cache w !! cache_key_of msg code
      else None) = None ->
     transfer_value ext msg w = Ok true w1 ->
     (res, g, dat) = (1, msg_gas msg, []) /\ w' = w1).
Proof.
  intros Hwf H. split.
  - by apply (apply_msg_cache_wf _ _ _ _ _ _ _ _ Hwf) in H as [_ ?].
  - intros w1 Hmiss Hquit. destruct depth as [|depth]; [discriminate|].
    cbn [apply_msg] in H.
    inv_bind H as ec wa Ha. unfold gets in Ha. inversion Ha; subst; clear Ha.
    rewrite Hmiss in H.
    inv_bind H as snap wb Hb. apply on_ext_state_snapshot in Hb as (-> & _).
    rewrite (bind_eq_Ok _ _ _ _ _ Hquit) in H. by inversion H.
Qed.

End MemoFacts.

(** *** Commit *)

Section CommitFacts.
Context {E : Env}.

Lemma commit_account_spec mods sub t :
  (forall k, trie_get (commit_account mods sub t).1 k
             = match sub !! k with
               | Some v => if decide (k ∈ mods /\ v <> trie_get t k)
                           then v else trie_get t k
               | None => trie_get t k
               end) /\
  ((commit_account mods sub t).2 = false -> (commit_account mods sub t).1 = t).
Proof.
  unfold commit_account.
  apply (map_fold_weak_ind
    (fun (acc : gmap string string * bool) (m : gmap string string) =>
       (forall k, trie_get acc.1 k
                  = match m !! k with
                    | Some v => if decide (k ∈ mods /\ v <> trie_get t k)
                                then v else trie_get t k
                    | None => trie_get t k
                    end) /\
       (acc.2 = false -> acc.1 = t))).
  - split; [|done]. intros k. by rewrite lookup_empty.
  - intros i x m [t1 b1] Hi [IH1 IH2]. cbn [fst snd] in *.
    assert (Hti : trie_get t1 i = trie_get t i).
    { rewrite IH1. by rewrite Hi. }
    case_decide as Hd; cbn [fst snd].
    + split; [|discriminate]. intros k. unfold trie_update.
      destruct (decide (k = i)) as [->|Hne].
      * rewrite lookup_insert_eq. unfold trie_get at 1.
        rewrite lookup_insert_eq. cbn. rewrite Hti in Hd.
        by rewrite decide_True.
      * rewrite (lookup_insert_ne m) by done. rewrite <- IH1.
        unfold trie_get. by rewrite lookup_insert_ne.
    + split; [|done]. intros k.
      destruct (decide (k = i)) as [->|Hne].
      * rewrite lookup_insert_eq. rewrite Hti in Hd.
        by rewrite decide_False.
      * rewrite lookup_insert_ne by done. apply IH1.
Qed.

(** A location that is cached and marked modified reads the same after a
    commit. *)
Lemma commit_view_modified s u s' a k v :
  commit s = Ok u s' ->
  cached s a k = Some v -> k ∈ default ∅ (modified s !! a) ->
  view s' a k = v.
Proof.
  unfold commit. intros H Hc Hm. inversion H; subst; clear H.
  unfold view, cached. cbn [cache root_hash]. rewrite lookup_empty.
  unfold cached in Hc. destruct (cache s !! a) as [sub|] eqn:Hsub; [|discriminate].
  set (f := fun (addr : string) (subcache : gmap string string)
                (st : gmap string (gmap string string)) =>
              let '(t, touched) :=
                commit_account (default ∅ (modified s !! addr)) subcache
                               (state_get st addr) in
              if touched then <[addr := t]> st else st).
  assert (Hfold : forall c,
    forall x, state_get (map_fold f (root_hash s) c) x
              = match c !! x with
                | Some sub' => (commit_account (default ∅ (modified s !! x)) sub'
                                               (state_get (root_hash s) x)).1
                | None => state_get (root_hash s) x
                end).
  { intros c.
    apply (map_fold_weak_ind
      (fun (r : gmap string (gmap string string)) (m : gmap string (gmap string string)) =>
         forall x, state_get r x
              = match m !! x with
                | Some sub' => (commit_account (default ∅ (modified s !! x)) sub'
                                               (state_get (root_hash s) x)).1
                | None => state_get (root_hash s) x
                end)).
    - intros x. by rewrite lookup_empty.
    - intros i sub' m r Hi IH x. unfold f.
      assert (Hri : state_get r i = state_get (root_hash s) i).
      { rewrite IH. by rewrite Hi. }
      rewrite Hri.
      destruct (commit_account_spec (default ∅ (modified s !! i)) sub'
                  (state_get (root_hash s) i)) as [_ Hun].
      destruct (decide (x = i)) as [->|Hne].
      + rewrite lookup_insert_eq.
        destruct (commit_account _ sub' _) as [t1 b1] eqn:Hca. cbn [fst snd] in *.
        destruct b1.
        * unfold state_get. rewrite lookup_insert_eq. reflexivity.
        * rewrite Hri. by rewrite Hun.
      + rewrite lookup_insert_ne by done. rewrite <- IH.
        destruct (commit_account _ sub' _) as [t1 b1] eqn:Hca.
        destruct b1; [|done].
        unfold state_get. by rewrite lookup_insert_ne. }
  fold f. rewrite Hfold, Hsub.
  destruct (commit_account_spec (default ∅ (modified s !! a)) sub
              (state_get (root_hash s) a)) as [Hget _].
  rewrite Hget, Hc. case_decide as Hd; [done|].
  destruct (decide (v = trie_get (state_get (root_hash s) a) k)); [done|].
  exfalso. by apply Hd.
Qed.

Lemma commit_inv s u s' :
  commit s = Ok u s' ->
  db s' = db s /\ cache s' = ∅ /\ modified s' = ∅ /\
  journal s' = JRoot (cache s) (modified s) (root_hash s) :: journal s.
Proof. unfold commit. intros H. by inversion H. Qed.

Lemma commit_total s : exists s', commit s = Ok tt s'.
Proof. unfold commit. eauto. Qed.

End CommitFacts.

(** ** Transactions *)

Section TxFacts.
Context {E : Env} {EL : EnvLaws E}.

Lemma set_storage_cached a k v s u s' a' :
  normalize_address a = Some a' ->
  set_storage a k v s = Ok u s' ->
  cached s' a' (canon k) = Some (canon v).
Proof.
  intros Hn H. pose proof (normalize_idem _ _ Hn) as Hn'.
  unfold set_storage, normalize in H.
  unfold bind at 1 in H. rewrite Hn in H. cbn [lift_opt ret] in H.
  inv_bind H as p s1 H1. apply get_storage_inv in H1 as (? & Hx & _).
  inv_bind H as u2 s2 H2. unfold modify in H2. inversion H2; subst; clear H2.
  inv_bind H as u3 s3 H3. apply cache_store_inv in H3 as (sub & Hsub & ->).
  unfold modify in H. inversion H; subst; clear H.
  unfold cached. cbn [cache set_cache set_modified].
  by rewrite !lookup_insert_eq.
Qed.

(** Reads and writes of the State under execution, in the process. *)
Lemma on_get_Ok a k w a' :
  normalize_address a = Some a' ->
  exists w', on_state (get_storage a k) w = Ok (view (st w) a' (canon k)) w' /\
             (forall x y, view (st w') x y = view (st w) x y).
Proof.
  intros Hn. destruct (get_storage_Ok a k (st w) a' Hn) as (s' & H & Heq & _).
  exists (set_st s' w). split; [by apply on_state_eq_Ok|].
  by destruct Heq as (_ & _ & Hv & _).
Qed.

Lemma on_get_inv a k w v w' :
  on_state (get_storage a k) w = Ok v w' ->
  exists a', normalize_address a = Some a' /\ v = view (st w) a' (canon k) /\
             (forall x y, view (st w') x y = view (st w) x y).
Proof.
  intros H. apply on_state_Ok in H as (s' & H & ->).
  apply get_storage_inv in H as (a' & Hn & -> & (_ & _ & Hv & _) & _).
  eauto.
Qed.

Lemma on_set_Ok a k v w a' :
  normalize_address a = Some a' ->
  exists w', on_state (set_storage a k v) w = Ok tt w' /\
    (forall x y, view (st w') x y
                 = if decide (x = a' /\ y = canon k) then canon v
                   else view (st w) x y).
Proof.
  intros Hn. destruct (set_storage_Ok a k v (st w) a' Hn) as (s' & H & _ & _ & _ & Hv & _).
  exists (set_st s' w). split; [by apply on_state_eq_Ok|done].
Qed.

Lemma on_set_inv a k v w u w' :
  on_state (set_storage a k v) w = Ok u w' ->
  exists a', normalize_address a = Some a' /\
    (forall x y, view (st w') x y
                 = if decide (x = a' /\ y = canon k) then canon v
                   else view (st w) x y).
Proof.
  intros H. apply on_state_Ok in H as (s' & H & ->).
  apply set_storage_inv in H as (a' & Hn & _ & _ & _ & Hv & _). eauto.
Qed.

Lemma encode_int_small v : 0 <= v < 2 ^ 256 -> encode_int v = Some (int_to_big_endian v).
Proof. intros Hv. unfold encode_int. by rewrite decide_True. Qed.

Lemma status_log_Ok n (w : World) :
  0 <= n < 2 ^ 256 ->
  status_log n w = Ok (rlp_encode_list [int_to_big_endian n]) w.
Proof.
  intros Hn. unfold status_log, bind, lift_opt. by rewrite encode_int_small.
Qed.

(** The effect of the skip written by the two pre-checks. *)
Lemma skip_writes lb txindex (w : World) ex lg :
  normalize_address (shardify EXECUTION_STATE lb) = Some ex ->
  normalize_address (shardify LOG lb) = Some lg ->
  exists w',
    (let* l := status_log 0 in
     on_state (set_storage (shardify LOG lb) (PInt txindex) (PStr l)) ;;
     on_state (set_storage (shardify EXECUTION_STATE lb) TXINDEX (PInt (txindex + 1))) ;;
     ret (@None (Z * Z))) w = Ok None w' /\
    (forall x y, view (st w') x y
       = if decide (x = ex /\ y = canon TXINDEX) then encode_int32 (txindex + 1)
         else if decide (x = lg /\ y = encode_int32 txindex)
              then rlp_encode_list [int_to_big_endian 0]
              else view (st w) x y).
Proof.
  intros Hex Hlg.
  rewrite (bind_eq_Ok _ _ _ _ _ (status_log_Ok 0 w ltac:(lia))).
  destruct (on_set_Ok (shardify LOG lb) (PInt txindex)
              (PStr (rlp_encode_list [int_to_big_endian 0])) w lg Hlg) as (w1 & H1 & V1).
  rewrite (bind_eq_Ok _ _ _ _ _ H1).
  destruct (on_set_Ok (shardify EXECUTION_STATE lb) TXINDEX (PInt (txindex + 1)) w1 ex Hex)
    as (w2 & H2 & V2).
  rewrite (bind_eq_Ok _ _ _ _ _ H2).
  exists w2. split; [done|].
  intros x y. rewrite V2. case_decide; [done|]. by rewrite V1.
Qed.

(** C7: on a pre-check skip (not enough gas left for [tx.exec_gas], or a
    recipient shard outside [[left_bound, right_bound)]) the transition
    completes and the only storage changes are the log slot
    [(_LOG, txindex)], set to the RLP encoding of [[0]], and
    [(_EXSTATE, TXINDEX)], incremented by one; [(_EXSTATE, GAS_REMAINING)]
    and every other location read as before. *)
Theorem tx_skip_frame depth tx lb rb breaking override_gas w ex lg vi vg :
  normalize_address (shardify EXECUTION_STATE lb) = Some ex ->
  normalize_address (shardify LOG lb) = Some lg ->
  lg <> ex ->
  canon TXINDEX <> canon GAS_REMAINING ->
  read (st w) (shardify EXECUTION_STATE lb) TXINDEX = inl vi ->
  read (st w) (shardify EXECUTION_STATE lb) GAS_REMAINING = inl vg ->
  big_endian_to_int vg < exec_gas tx \/
    ~ (lb <= get_shard (tx_addr tx) < rb) ->
  let txindex := big_endian_to_int vi in
  exists w',
    tx_state_transition depth tx lb rb breaking override_gas w = Ok None w' /\
    read (st w') (shardify LOG lb) (PInt txindex)
      = inl (rlp_encode_list [int_to_big_endian 0]) /\
    read (st w') (shardify EXECUTION_STATE lb) TXINDEX
      = inl (encode_int32 (txindex + 1)) /\
    big_endian_to_int (encode_int32 (txindex + 1)) = txindex + 1 /\
    read (st w') (shardify EXECUTION_STATE lb) GAS_REMAINING = inl vg /\
    (forall a k,
       (forall a', normalize_address a = Some a' ->
                   (a', canon k) <> (lg, encode_int32 txindex) /\
                   (a', canon k) <> (ex, canon TXINDEX)) ->
       read (st w') a k = read (st w) a k).
Proof.
  intros Hex Hlg Hne Hkeys Hvi Hvg Hskip txindex.
  rewrite (read_view _ _ TXINDEX _ Hex) in Hvi.
  rewrite (read_view _ _ GAS_REMAINING _ Hex) in Hvg.
  injection Hvi as Hvi. injection Hvg as Hvg.
  unfold tx_state_transition, tx_prologue.
  destruct (on_get_Ok (shardify EXECUTION_STATE lb) TXINDEX w ex Hex) as (w1 & H1 & V1).
  destruct (on_get_Ok (shardify EXECUTION_STATE lb) GAS_REMAINING w1 ex Hex) as (w2 & H2 & V2).
  rewrite V1, Hvg in H2. rewrite Hvi in H1.
  assert (Hw2 : exists w',
    tx_prologue tx lb rb w = Ok None w' /\
    (forall x y, view (st w') x y
       = if decide (x = ex /\ y = canon TXINDEX) then encode_int32 (txindex + 1)
         else if decide (x = lg /\ y = encode_int32 txindex)
              then rlp_encode_list [int_to_big_endian 0]
              else view (st w) x y)).
  { unfold tx_prologue.
    rewrite (bind_eq_Ok _ _ _ _ _ H1), (bind_eq_Ok _ _ _ _ _ H2).
    destruct (skip_writes lb txindex w2 ex lg Hex Hlg) as (w' & Hw & V).
    exists w'. fold txindex.
    assert (V' : forall x y, view (st w') x y
       = if decide (x = ex /\ y = canon TXINDEX) then encode_int32 (txindex + 1)
         else if decide (x = lg /\ y = encode_int32 txindex)
              then rlp_encode_list [int_to_big_endian 0]
              else view (st w) x y).
    { intros x y. rewrite V. by rewrite V2, V1. }
    destruct (big_endian_to_int vg - exec_gas tx <? 0) eqn:Hgas; [done|].
    apply Z.ltb_ge in Hgas.
    destruct Hskip as [Hlt|Hout]; [lia|].
    destruct (negb _) eqn:Hin; [done|].
    apply negb_false_iff, andb_true_iff in Hin as [Hl Hr].
    apply Z.leb_le in Hl. apply Z.ltb_lt in Hr. exfalso. apply Hout. lia. }
  destruct Hw2 as (w' & Hpro & V).
  exists w'. unfold tx_state_transition in *.
  rewrite (bind_eq_Ok _ _ _ _ _ Hpro). split; [done|].
  pose proof (big_endian_to_int_nonneg vi) as Hnn.
  split; [|split; [|split; [|split]]].
  - rewrite (read_view _ _ _ _ Hlg). f_equal. cbn [canon]. rewrite V.
    rewrite decide_False by (intros [? ?]; congruence).
    by rewrite decide_True.
  - rewrite (read_view _ _ _ _ Hex). f_equal. rewrite V. by rewrite decide_True.
  - apply big_endian_to_int_encode_int32. unfold txindex. lia.
  - rewrite (read_view _ _ _ _ Hex). f_equal. rewrite V.
    rewrite decide_False by (intros [? ?]; congruence).
    rewrite decide_False by (intros [? ?]; congruence). done.
  - intros a k Hak. unfold read.
    destruct (normalize_address a) as [a'|] eqn:Hn.
    + destruct (Hak a' eq_refl) as [Hk1 Hk2].
      fold (read (st w') a k). fold (read (st w) a k).
      rewrite !(read_view _ _ _ _ Hn). f_equal. rewrite V.
      rewrite decide_False by (intros [? ?]; congruence).
      rewrite decide_False by (intros [? ?]; congruence). done.
    + by rewrite !get_storage_Raise.
Qed.

End TxFacts.

Section TxRun.
Context {E : Env} {EL : EnvLaws E}.

Lemma on_put_code_Ok a code w a' :
  normalize_address a = Some a' ->
  exists w', on_state (put_code a code) w = Ok tt w' /\
    (forall x y, view (st w') x y
                 = if decide (x = a' /\ y = "") then sha3 code
                   else view (st w) x y).
Proof.
  intros Hn. unfold put_code, db_put.
  destruct (set_storage_Ok a (PStr "") (PStr (sha3 code))
              (set_db (<[UNHASH_MAGIC_BYTES +:+ sha3 code := code]> (db (st w))) (st w))
              a' Hn) as (s' & H & _ & _ & _ & Hv & _).
  exists (set_st s' w). split.
  - apply on_state_eq_Ok. unfold bind, modify. by rewrite H.
  - intros x y. rewrite Hv. cbn [canon]. case_decide; [done|].
    by apply view_ext.
Qed.

(** What the prologue leaves when it does not skip. *)
Lemma tx_prologue_inv tx lb rb w txindex gas_remaining w1 :
  tx_prologue tx lb rb w = Ok (Some (txindex, gas_remaining)) w1 ->
  exists ex lg,
    normalize_address (shardify EXECUTION_STATE lb) = Some ex /\
    normalize_address (shardify LOG lb) = Some lg /\
    txindex = big_endian_to_int (view (st w) ex (canon TXINDEX)) /\
    gas_remaining = big_endian_to_int (view (st w) ex (canon GAS_REMAINING)).
Proof.
  unfold tx_prologue. intros H.
  inv_bind H as v1 wa Ha. apply on_get_inv in Ha as (ex & Hex & -> & V1).
  inv_bind H as v2 wb Hb. apply on_get_inv in Hb as (ex' & Hex' & -> & V2).
  assert (ex' = ex) by congruence. subst ex'.
  destruct (_ <? 0).
  { inv_bind H as l wc Hc. inv_bind H as u wd Hd. inv_bind H as u' we He.
    discriminate. }
  destruct (negb _).
  { inv_bind H as l wc Hc. inv_bind H as u wd Hd. inv_bind H as u' we He.
    discriminate. }
  inv_bind H as u wc Hc. inv_bind H as u' wd Hd.
  apply on_set_inv in Hd as (lg & Hlg & _).
  inversion H; subst. exists ex, lg. by rewrite V1.
Qed.

(** C4, as the code has it: when [tx_state_transition] runs to its last
    step and returns the data of the call, the status it prepends to the
    log at [(_LOG, txindex)] is 2 exactly when [apply_msg] returned a
    non-zero status, and 1 exactly when it returned 0. *)
Theorem tx_log_status depth tx lb rb breaking override_gas w data w' :
  (forall ex lg,
     normalize_address (shardify EXECUTION_STATE lb) = Some ex ->
     normalize_address (shardify LOG lb) = Some lg -> lg <> ex) ->
  tx_state_transition depth tx lb rb breaking override_gas w = Ok (Some data) w' ->
  exists vi start code w1 w2 result g logs status,
    read (st w) (shardify EXECUTION_STATE lb) TXINDEX = inl vi /\
    apply_msg depth VMExt (exec_message tx start) code breaking w1
      = Ok (result, g, data) w2 /\
    read (st w2) (shardify LOG lb) (PInt (big_endian_to_int vi)) = inl logs /\
    read (st w') (shardify LOG lb) (PInt (big_endian_to_int vi))
      = inl (rlp_insert logs 0 (int_to_big_endian status)) /\
    (status = 2 <-> result <> 0) /\ (status = 1 <-> result = 0).
Proof.
  intros Hdist H. unfold tx_state_transition in H.
  inv_bind H as pre wp Hpro.
  destruct pre as [[txindex gas_remaining]|]; [|discriminate].
  apply tx_prologue_inv in Hpro as (ex & lg & Hex & Hlg & Hti & _).
  pose proof (Hdist ex lg Hex Hlg) as Hne.
  inv_bind H as deploy wd Hd. inv_bind H as start ws Hs.
  destruct start as [start|]; [|discriminate].
  inv_bind H as r w2 Hexec. destruct r as [[result g] data'].
  unfold tx_execute in Hexec.
  inv_bind Hexec as l wa Ha. inv_bind Hexec as u wb Hb.
  inv_bind Hexec as code w1 Hcode.
  unfold tx_epilogue in H.
  inv_bind H as u1 wc Hc. apply assert_Ok in Hc as [_ ->].
  inv_bind H as u2 w3 H3. apply on_set_inv in H3 as (ex' & Hex' & V3).
  assert (ex' = ex) by congruence. subst ex'.
  inv_bind H as logs w4 H4. apply on_get_inv in H4 as (lg' & Hlg' & Hlogs & V4).
  assert (lg' = lg) by congruence. subst lg'.
  inv_bind H as status w5 H5. apply lift_opt_Ok in H5 as [Hst ->].
  inv_bind H as u6 w6 H6. apply on_set_inv in H6 as (lg' & Hlg'' & V6).
  assert (lg' = lg) by congruence. subst lg'.
  inv_bind H as u7 w7 H7. apply on_set_inv in H7 as (ex' & Hex'' & V7).
  assert (ex' = ex) by congruence. subst ex'.
  inversion H; subst data' w7; clear H.
  exists (view (st w) ex (canon TXINDEX)), start, code, w1, w2, result, g,
         (view (st w2) lg (encode_int32 txindex)),
         (if result =? 0 then 1 else 2).
  rewrite <- Hti.
  split; [by apply read_view|]. split; [done|].
  split; [by rewrite (read_view _ _ _ _ Hlg)|].
  split.
  - rewrite (read_view _ _ _ _ Hlg). f_equal. cbn [canon].
    rewrite V7. rewrite decide_False by (intros [? ?]; congruence).
    rewrite V6. rewrite decide_True by done. cbn [canon].
    rewrite Hlogs. cbn [canon]. rewrite V3.
    rewrite decide_False by (intros [? ?]; congruence).
    unfold encode_int in Hst. case_decide; [|discriminate].
    by inversion Hst.
  - destruct (result =? 0) eqn:Hr;
      [apply Z.eqb_eq in Hr|apply Z.eqb_neq in Hr]; lia.
Qed.

(** C10, as the code has it: when the deployment call returns a non-zero
    status and leaves in the log slot [(_LOG, txindex)] anything but the
    RLP encoding of the empty list, [tx_state_transition] raises an
    assertion error instead of completing. *)
Theorem deploy_spoiled_log_asserts depth tx lb rb breaking override_gas
    w txindex gas_remaining w1 w2 result g data code w3 :
  tx_prologue tx lb rb w = Ok (Some (txindex, gas_remaining)) w1 ->
  tx_deploy_needed tx w1 = Ok true w2 ->
  apply_msg depth VMExt (deploy_message tx lb rb override_gas) (tx_code tx) breaking w2
    = Ok (result, g, data) w3 ->
  result <> 0 ->
  join_chr data = Some code ->
  read (st w3) (shardify LOG lb) (PInt txindex) <> inl RLPEMPTYLIST ->
  exists w',
    tx_state_transition depth tx lb rb breaking override_gas w
      = Raise AssertionError w'.
Proof.
  intros Hpro Hdep Hmsg Hres Hjoin Hlog.
  unfold tx_state_transition.
  rewrite (bind_eq_Ok _ _ _ _ _ Hpro). cbn beta iota.
  rewrite (bind_eq_Ok _ _ _ _ _ Hdep). cbn beta iota.
  apply tx_prologue_inv in Hpro as (ex & lg & Hex & Hlg & _).
  assert (Hta : exists ta, normalize_address (tx_addr tx) = Some ta).
  { unfold tx_deploy_needed in Hdep. case_decide; [discriminate|].
    inv_bind Hdep as h wa Ha. apply on_get_inv in Ha as (ta & Hta & _). eauto. }
  destruct Hta as [ta Hta].
  destruct (on_put_code_Ok (tx_addr tx) code w3 ta Hta) as (w4 & Hput & V4).
  assert (Hstart : tx_deploy depth tx lb rb breaking override_gas txindex w2
                   = Ok (Some g) w4).
  { unfold tx_deploy. rewrite (bind_eq_Ok _ _ _ _ _ Hmsg). cbn beta iota.
    rewrite (proj2 (Z.eqb_neq _ _) Hres).
    unfold bind at 1. rewrite Hjoin. cbn [lift_opt ret].
    by rewrite (bind_eq_Ok _ _ _ _ _ Hput). }
  rewrite (bind_eq_Ok _ _ _ _ _ Hstart). cbn beta iota.
  destruct (on_get_Ok (shardify LOG lb) (PInt txindex) w4 lg Hlg) as (w5 & H5 & V5).
  unfold tx_execute.
  exists w5. apply bind_eq_Raise.
  rewrite (bind_eq_Ok _ _ _ _ _ H5).
  rewrite bool_decide_eq_false_2; [done|].
  intros Heq. apply Hlog. rewrite (read_view _ _ _ _ Hlg). f_equal.
  rewrite <- Heq, V4. rewrite decide_False; [done|].
  intros [_ Hk]. cbn [canon] in Hk. by apply encode_int32_nonempty in Hk.
Qed.

End TxRun.

(** ** Blocks *)

Section BlockFacts.
Context {E : Env} {EL : EnvLaws E}.

(** Reading [state.root] keeps a location that was just written. *)
Lemma on_root_keeps w r w' a k v :
  on_state root w = Ok r w' ->
  cached (st w) a k = Some v -> k ∈ default ∅ (modified (st w) !! a) ->
  view (st w') a k = v.
Proof.
  intros H Hc Hm. apply on_state_Ok in H as (s' & H & ->). cbn [st set_st].
  unfold root in H. inv_bind H as u s1 H1. inv_bind H as rt s2 H2.
  unfold gets in H2. inversion H2; subst. inversion H; subst.
  by eapply commit_view_modified.
Qed.

Lemma seed_packing mix v :
  0 <= mix -> 0 <= v < 2 ^ 64 ->
  Z.land (mix - mix mod 2 ^ 64 + v) (Z.ones 64) = v /\
  Z.shiftr (mix - mix mod 2 ^ 64 + v) 64 = Z.shiftr mix 64.
Proof.
  intros Hm Hv. rewrite Z.land_ones, !Z.shiftr_div_pow2 by lia.
  pose proof (Z.div_mod mix (2 ^ 64) ltac:(lia)) as Hdm.
  assert (Heq : mix - mix mod 2 ^ 64 + v = v + (mix / 2 ^ 64) * 2 ^ 64) by lia.
  rewrite Heq. split.
  - rewrite Z.mod_add by lia. apply Z.mod_small. lia.
  - rewrite Z.div_add by lia. rewrite (Z.div_small v) by lia. lia.
Qed.

(** What lines 296-301 compute: the seed written at
    [(RNGSEEDS, blknumber)] is [mix - mix mod 2^64 + v], where [mix] is [sha3(prevseed ‖ blkproposer)]
    read as a big-endian integer, [prevseed] the seed stored at
    [(RNGSEEDS, blknumber - 1)] (32 zero bytes when [blknumber] is 0) and
    [v] the integer stored at [(CASPER, 0)]; when [v] is below 2^64 its low
    64 bits are [v] and its upper bits are those of the hash. *)
Theorem rng_seed_update depth block w w' :
  block_state_transition depth block w = Ok tt w' ->
  exists pre blknumber blkproposer w1 prevseed c,
    block_prologue depth block w = Ok (pre, blknumber, blkproposer) w1 /\
    blkproposer = match block with
                  | Some b => proposer (header b)
                  | None => repeat_byte zero_byte ADDR_BYTES
                  end /\
    (if blknumber =? 0 then prevseed = repeat_byte zero_byte 32
     else read (st w1) RNGSEEDS (PStr (encode_int32 (blknumber - 1))) = inl prevseed) /\
    read (st w1) CASPER (PInt 0) = inl c /\
    let mix := big_endian_to_int (sha3 (prevseed +:+ blkproposer)) in
    let v := big_endian_to_int c in
    let newseed := mix - mix mod 2 ^ 64 + v in
    read (st w') RNGSEEDS (PStr (encode_int32 blknumber)) = inl (encode_int32 newseed) /\
    big_endian_to_int (encode_int32 newseed) = newseed /\
    (v < 2 ^ 64 ->
     Z.land newseed (Z.ones 64) = v /\ Z.shiftr newseed 64 = Z.shiftr mix 64).
Proof.
  intros H. unfold block_state_transition in H.
  inv_bind H as [[pre blknumber] blkproposer] w1 Hpro.
  inv_bind H as u w2 Hseed.
  assert (Hprop : blkproposer = match block with
                                | Some b => proposer (header b)
                                | None => repeat_byte zero_byte ADDR_BYTES
                                end).
  { unfold block_prologue in Hpro.
    inv_bind Hpro as p0 wa Ha. inv_bind Hpro as v0 wb Hb.
    inv_bind Hpro as u1 wc Hc. inv_bind Hpro as u2 wd Hd.
    inv_bind Hpro as u3 we He. inv_bind Hpro as u4 wf Hf.
    inv_bind Hpro as u5 wg Hg. by inversion Hpro. }
  unfold update_rng_seed in Hseed.
  inv_bind Hseed as prevseed wa Ha.
  inv_bind Hseed as c wb Hb. apply on_get_inv in Hb as (ca & Hca & Hc & Vb).
  pose proof Hseed as Hset.
  apply on_state_Ok in Hset as (s2 & Hset & ->).
  pose proof Hset as Hset'.
  apply set_storage_inv in Hset' as (rs & Hrs & _ & _ & _ & V2 & _ & _ & Hmod).
  pose proof (set_storage_cached _ _ _ _ _ _ _ Hrs Hset) as Hcached.
  cbn [canon] in *.
  assert (Hpre : (if blknumber =? 0 then prevseed = repeat_byte zero_byte 32
                  else read (st w1) RNGSEEDS (PStr (encode_int32 (blknumber - 1)))
                       = inl prevseed) /\
                 forall x y, view (st wa) x y = view (st w1) x y).
  { destruct (blknumber =? 0); cbn [negb] in Ha.
    - inversion Ha; by subst.
    - apply on_get_inv in Ha as (rs' & Hrs' & -> & Va).
      split; [|done]. by rewrite (read_view _ _ _ _ Hrs'). }
  destruct Hpre as [Hprev Va].
  set (mix := big_endian_to_int (sha3 (prevseed +:+ blkproposer))) in *.
  set (v := big_endian_to_int c) in *.
  assert (Hfinal : view (st w') rs (encode_int32 blknumber)
                   = encode_int32 (mix - mix mod 2 ^ 64 + v)).
  { unfold consistency_check in H.
    inv_bind H as tcm wc Hc'. unfold gets in Hc'. inversion Hc'; subst tcm wc; clear Hc'.
    destruct (_ !! _).
    - inv_bind H as r w3 H3. apply assert_Ok in H as [_ ->].
      eapply on_root_keeps; [exact H3| |]; cbn [st set_st]; done.
    - inv_bind H as r w3 H3. unfold modify in H. inversion H; subst.
      cbn [st set_transition_cache_map].
      eapply on_root_keeps; [exact H3| |]; cbn [st set_st]; done. }
  exists pre, blknumber, blkproposer, w1, prevseed, c.
  split; [done|]. split; [done|]. split; [done|].
  split; [rewrite (read_view _ _ _ _ Hca), Hc; f_equal; by rewrite Va|].
  cbn zeta. fold mix v.
  pose proof (big_endian_to_int_nonneg (sha3 (prevseed +:+ blkproposer))) as Hm.
  pose proof (big_endian_to_int_nonneg c) as Hv. fold mix in Hm. fold v in Hv.
  assert (Hmod64 : 0 <= mix mod 2 ^ 64 <= mix).
  { split; [apply Z.mod_pos_bound; lia|]. apply Z.mod_le; lia. }
  split; [by rewrite (read_view _ _ _ _ Hrs), <- Hfinal|].
  split; [apply big_endian_to_int_encode_int32; lia|].
  intros Hlt. apply seed_packing; lia.
Qed.

End BlockFacts.

(** *** Block construction *)

Section BlockInit.
Context {E : Env}.

Lemma three_not_power_of_two (k : Z) : 2 ^ k <> 3.
Proof.
  destruct (Z_lt_le_dec k 0) as [Hneg|Hnn].
  - rewrite Z.pow_neg_r by done. lia.
  - destruct (Z.eq_dec k 0) as [->|]; [cbn; lia|].
    destruct (Z.eq_dec k 1) as [->|]; [cbn; lia|].
    assert (2 ^ 2 <= 2 ^ k) by (apply Z.pow_le_mono_r; lia).
    change (2 ^ 2) with 4 in *. lia.
Qed.

(** When the four assertions of the loop body hold, the pair is accepted. *)
Lemma check_pair_Ok prevright s g (h : Heap) :
  transaction_hash (h s) = sha3 (rlp_encode_txgroup g) ->
  right_bound (h s) - left_bound (h s) <> 0 ->
  left_bound (h s) mod (right_bound (h s) - left_bound (h s)) = 0 ->
  0 <= prevright <= left_bound (h s) ->
  left_bound (h s) < right_bound (h s) <= MAXSHARDS ->
  forallb (fun tx => (left_bound (h s) <=? tx_left_bound tx)
                     && (tx_left_bound tx <? tx_right_bound tx)
                     && (tx_right_bound tx <=? right_bound (h s))) g = true ->
  check_pair prevright s g h
  = Ok (right_bound (h s)) (with_intrinsic_gas h s (sumZ (map tx_intrinsic_gas g))).
Proof.
  intros Hh Hw Hmod Hprev Hbounds Htxs.
  unfold check_pair, bind, gets, assert, divides_check, heap_set_intrinsic_gas,
    modify, ret.
  rewrite bool_decide_eq_true_2 by done.
  rewrite (proj2 (Z.eqb_neq _ _) Hw).
  rewrite (proj2 (Z.eqb_eq _ _) Hmod).
  rewrite (proj2 (Z.leb_le _ _) (proj1 Hprev)).
  rewrite (proj2 (Z.leb_le _ _) (proj2 Hprev)).
  rewrite (proj2 (Z.ltb_lt _ _) (proj1 Hbounds)).
  rewrite (proj2 (Z.leb_le _ _) (proj2 Hbounds)).
  cbn [andb]. rewrite Htxs. reflexivity.
Qed.

(** C1 at the failing input: a single summary over the shard range
    [[0, 3)], whose width 3 is no power of two, with an empty group, the
    matching transaction hash and the matching header root. The
    constructor accepts it: the only alignment check is
    [left_bound % (right_bound - left_bound) == 0], and 0 % 3 is 0. *)
Theorem unaligned_summary_accepted (h : Heap) (s : nat) hd gl num prop sg :
  3 <= MAXSHARDS ->
  0 < GASLIMIT ->
  gas_limit (h s) = gl -> left_bound (h s) = 0 -> right_bound (h s) = 3 ->
  transaction_hash (h s) = sha3 (rlp_encode_txgroup []) ->
  txroot hd = sha3 (rlp_encode_summaries
                      [mkSummary gl 0 3 (sha3 (rlp_encode_txgroup [])) (Some 0)]) ->
  (forall k : Z, 2 ^ k <> 3 - 0) /\
  exists h',
    Block_init (Some hd) [] (Some [[]]) (Some [s]) num prop sg h
    = Ok (mkBlock hd [mkSummary gl 0 3 (sha3 (rlp_encode_txgroup [])) (Some 0)] [[]]) h'.
Proof.
  intros Hmax Hgas Hgl Hl Hr Hh Hroot.
  split; [intros k; apply three_not_power_of_two|].
  assert (Hpairs : check_pairs 0 (zip [s] [[]]) h
                   = Ok tt (with_intrinsic_gas h s (sumZ (map tx_intrinsic_gas [])))).
  { cbn [zip_with check_pairs].
    by rewrite (bind_eq_Ok _ _ _ _ _
                  (check_pair_Ok 0 s [] h Hh ltac:(lia) ltac:(by rewrite Hl, Hr)
                     ltac:(lia) ltac:(lia) eq_refl)). }
  assert (Hobj : with_intrinsic_gas h s (sumZ (map tx_intrinsic_gas [])) s
                 = mkSummary gl 0 3 (sha3 (rlp_encode_txgroup [])) (Some 0)).
  { unfold with_intrinsic_gas. rewrite decide_True by done.
    by rewrite Hgl, Hl, Hr, Hh. }
  remember (with_intrinsic_gas h s (sumZ (map tx_intrinsic_gas []))) as h1 eqn:Hh1.
  unfold Block_init. rewrite (bind_eq_Ok _ _ _ _ _ Hpairs).
  unfold bind at 1. cbn [gets map]. rewrite Hobj. unfold bind, lift_opt, assert, ret.
  cbn [sum_intrinsic_gas intrinsic_gas Z.add].
  change (0 + 0) with 0. rewrite (proj2 (Z.ltb_lt 0 GASLIMIT) Hgas).
  rewrite bool_decide_eq_true_2 by done. eauto.
Qed.

(** With lists of different lengths the loop of the constructor runs on
    the zipped common prefix. *)
Lemma zip_prefix_only hd txs (sums extra_sums : list nat)
    (groups extra_groups : list (list Transaction)) num prop sg :
  length sums = length groups ->
  extra_sums = [] \/ extra_groups = [] ->
  Block_init (Some hd) txs (Some (groups ++ extra_groups)%list)
             (Some (sums ++ extra_sums)%list) num prop sg
  = (check_pairs 0 (zip sums groups) ;;
     let* objs := gets (fun h : Heap => map h (sums ++ extra_sums)%list) in
     let* total := lift_opt AttributeError (sum_intrinsic_gas objs) in
     assert (total <? GASLIMIT) ;;
     assert (bool_decide (txroot hd = sha3 (rlp_encode_summaries objs))) ;;
     ret (mkBlock hd objs (groups ++ extra_groups)%list)).
Proof.
  intros Hlen Hextra. unfold Block_init.
  rewrite zip_with_app by done.
  destruct Hextra as [-> | ->].
  - cbn [zip_with]. by rewrite app_nil_r.
  - rewrite zip_with_nil_r. by rewrite app_nil_r.
Qed.

End BlockInit.

(** ** The properties on the sample instance *)

Module SampleFacts.
Import Sample.
#[local] Existing Instance sample_env.

Lemma sample_laws : EnvLaws sample_env.
Proof.
  constructor. intros a a' H. cbn in *.
  case_decide as Hl; [|discriminate]. inversion H; subst.
  by rewrite decide_True.
Qed.

Lemma sample_accounts_distinct ex lg :
  normalize_address (shardify EXECUTION_STATE 0) = Some ex ->
  normalize_address (shardify LOG 0) = Some lg -> lg <> ex.
Proof. intros [= <-] [= <-]. discriminate. Qed.

(** C1: the constructor accepts the summary over [[0, 3)]. *)
Lemma unaligned_summary_accepted_witness :
  (forall k : Z, 2 ^ k <> 3 - 0) /\
  exists h',
    Block_init (Some (header_for [summary_three])) [] (Some [[]]) (Some [0%nat])
               0 "" "" heap_three
    = Ok (mkBlock (header_for [summary_three]) [summary_three] [[]]) h'.
Proof.
  apply (unaligned_summary_accepted (E:=sample_env) heap_three 0
           (header_for [summary_three]) 1000 0 "" "");
    first [reflexivity | done].
Defined.

(** C2 at the failing input. Slot 0 of account 31 holds 5. The bytecode
    ["read"] called through [VMExt] returns status 7 and is memoized under
    the key of the call; the same call through [EmptyVMExt] then returns
    that stored 7, while [EmptyVMExt] computing it returns status 2. *)
Theorem eve_cache_written_by_any_facade :
  eve_cache w_slot = ∅ /\
  apply_msg 2 VMExt plain_msg "read" false w_slot = Ok (7, 10, []) w_called /\
  eve_cache w_called !! cache_key_of plain_msg "read" = Some (7, 10, []) /\
  apply_msg 2 EmptyVMExt plain_msg "read" false w_called = Ok (7, 10, []) w_called /\
  res_value (apply_msg 2 EmptyVMExt plain_msg "read" false w_slot) = inl (2, 10, []).
Proof.
  split; [vm_compute; reflexivity|].
  split; [vm_compute; reflexivity|].
  split; [vm_compute; reflexivity|].
  split; vm_compute; reflexivity.
Qed.

(** C3 fails for status 1: the sender has no balance, the message carries
    value 1 and gas 5, and the call returns status 1 with gas 5. *)
Lemma apply_msg_soft_failure_keeps_gas :
  exists res g dat w',
    apply_msg 1 VMExt poor_msg "" false w0 = Ok (res, g, dat) w' /\
    res = 1 /\ g = 5 /\ g <> 0.
Proof.
  exists 1, 5, [], (res_world (apply_msg 1 VMExt poor_msg "" false w0)).
  split; [vm_compute; reflexivity|].
  split; [reflexivity|]. split; [reflexivity|]. discriminate.
Qed.

Lemma apply_msg_failed_gas_witness :
  (0 = 0 -> 0 = 0) /\
  (forall w1,
     (if decide (VMExt = EmptyVMExt) then eve_cache w0 !! cache_key_of plain_msg "fail"
      else None) = None ->
     transfer_value VMExt plain_msg w0 = Ok true w1 ->
     ((0, 0, []) : triple) = (1, msg_gas plain_msg, []) /\ w_failed = w1).
Proof.
  apply (apply_msg_failed_gas (E:=sample_env) 2 VMExt plain_msg "fail" false w0
           0 0 [] w_failed).
  - apply cache_wf_empty.
  - vm_compute. reflexivity.
Defined.

(** C4 fails for status 1: the machine stops on the empty code with status
    1, [apply_msg] returns (1, 50, []), and the log gets status 2. *)
Lemma status_one_logged_as_success :
  tx_prologue tx_plain 0 256 w_gas = Ok (Some (0, 1000)) w_plain_pro /\
  tx_deploy_needed tx_plain w_plain_pro = Ok false w_plain_pro /\
  on_state (get_code (tx_addr tx_plain)) w_plain_pro = Ok "" w_plain_code /\
  apply_msg 2 VMExt (exec_message tx_plain 50) "" false w_plain_code
    = Ok (1, 50, []) w_plain_exec /\
  tx_state_transition 2 tx_plain 0 256 false (2 ^ 255) w_gas = Ok (Some []) w_plain_done /\
  read (st w_plain_done) (shardify LOG 0) (PInt 0)
    = inl (rlp_insert RLPEMPTYLIST 0 (int_to_big_endian 2)) /\
  rlp_insert RLPEMPTYLIST 0 (int_to_big_endian 2)
    <> rlp_insert RLPEMPTYLIST 0 (int_to_big_endian 1).
Proof.
  split; [vm_compute; reflexivity|].
  split; [vm_compute; reflexivity|].
  split; [vm_compute; reflexivity|].
  split; [vm_compute; reflexivity|].
  split; [vm_compute; reflexivity|].
  split; [vm_compute; reflexivity|].
  vm_compute. discriminate.
Qed.

Lemma tx_log_status_witness :
  exists vi start code w1 w2 result g logs status,
    read (st w_gas) (shardify EXECUTION_STATE 0) TXINDEX = inl vi /\
    apply_msg 2 VMExt (exec_message tx_plain start) code false w1
      = Ok (result, g, []) w2 /\
    read (st w2) (shardify LOG 0) (PInt (big_endian_to_int vi)) = inl logs /\
    read (st w_plain_done) (shardify LOG 0) (PInt (big_endian_to_int vi))
      = inl (rlp_insert logs 0 (int_to_big_endian status)) /\
    (status = 2 <-> result <> 0) /\ (status = 1 <-> result = 0).
Proof.
  apply (tx_log_status (E:=sample_env) (EL:=sample_laws) 2 tx_plain 0 256 false
           (2 ^ 255) w_gas [] w_plain_done).
  - apply sample_accounts_distinct.
  - vm_compute. reflexivity.
Defined.

Lemma snapshot_revert_round_trip_witness :
  exists s2, revert 0 (exec_ops sample_ops s0) = Ok tt s2 /\
             forall qs, read_all qs s2 = read_all qs s0.
Proof.
  apply (snapshot_revert_round_trip (E:=sample_env) (EL:=sample_laws)
           s0 sample_ops 0%nat s0).
  reflexivity.
Defined.

Lemma apply_msg_revert_atomic_witness :
  read_all sample_reads (st w_failed) = read_all sample_reads (st w0).
Proof.
  apply (apply_msg_revert_atomic (E:=sample_env) (EL:=sample_laws)
           2 VMExt plain_msg "fail" false w0 0 [] w_failed).
  vm_compute. reflexivity.
Defined.

Lemma tx_skip_frame_witness :
  exists w',
    tx_state_transition 2 tx_plain 0 256 false (2 ^ 255) w0 = Ok None w' /\
    read (st w') (shardify LOG 0) (PInt (big_endian_to_int ""))
      = inl (rlp_encode_list [int_to_big_endian 0]) /\
    read (st w') (shardify EXECUTION_STATE 0) TXINDEX
      = inl (encode_int32 (big_endian_to_int "" + 1)) /\
    big_endian_to_int (encode_int32 (big_endian_to_int "" + 1))
      = big_endian_to_int "" + 1 /\
    read (st w') (shardify EXECUTION_STATE 0) GAS_REMAINING = inl "" /\
    (forall a k,
       (forall a', normalize_address a = Some a' ->
                   (a', canon k) <> (shardify LOG 0, encode_int32 (big_endian_to_int "")) /\
                   (a', canon k) <> (shardify EXECUTION_STATE 0, canon TXINDEX)) ->
       read (st w') a k = read (st w0) a k).
Proof.
  apply (tx_skip_frame (E:=sample_env) (EL:=sample_laws) 2 tx_plain 0 256 false
           (2 ^ 255) w0 (shardify EXECUTION_STATE 0) (shardify LOG 0) "" "").
  - reflexivity.
  - reflexivity.
  - discriminate.
  - vm_compute. discriminate.
  - reflexivity.
  - reflexivity.
  - left. vm_compute. reflexivity.
Defined.

(** C8 at the failing input. [(CASPER, 0)] holds 2^64 and an empty slot
    is processed at block number 0. Line 300 adds the stored integer to
    the hash with its low 64 bits cleared, where the comment above it
    says that the lower 64 bits contain the number of validators and the
    upper 192 bits are pseudorandom: the sum carries into the upper bits
    of the seed, which are no longer those of the hash, and the low 64
    bits are not the stored integer. *)
Lemma rng_seed_carry :
  exists seed,
    block_state_transition 2 None w_casper = Ok tt w_casper_done /\
    read (st w_casper) CASPER (PInt 0) = inl (encode_int32 (2 ^ 64)) /\
    read (st w_casper_done) RNGSEEDS (PStr (encode_int32 0)) = inl seed /\
    Z.shiftr (big_endian_to_int seed) 64
      <> Z.shiftr (big_endian_to_int
                     (sha3 (repeat_byte zero_byte 32 +:+ repeat_byte zero_byte ADDR_BYTES)))
                  64 /\
    Z.land (big_endian_to_int seed) (Z.ones 64) <> 2 ^ 64.
Proof.
  eexists. split; [vm_compute; reflexivity|].
  split; [vm_compute; reflexivity|].
  split; [vm_compute; reflexivity|].
  split; vm_compute; discriminate.
Qed.

Lemma rng_seed_update_witness :
  exists pre blknumber blkproposer w1 prevseed c,
    block_prologue 2 None w0 = Ok (pre, blknumber, blkproposer) w1 /\
    blkproposer = repeat_byte zero_byte ADDR_BYTES /\
    (if blknumber =? 0 then prevseed = repeat_byte zero_byte 32
     else read (st w1) RNGSEEDS (PStr (encode_int32 (blknumber - 1))) = inl prevseed) /\
    read (st w1) CASPER (PInt 0) = inl c /\
    let mix := big_endian_to_int (sha3 (prevseed +:+ blkproposer)) in
    let v := big_endian_to_int c in
    let newseed := mix - mix mod 2 ^ 64 + v in
    read (st w_block_done) RNGSEEDS (PStr (encode_int32 blknumber))
      = inl (encode_int32 newseed) /\
    big_endian_to_int (encode_int32 newseed) = newseed /\
    (v < 2 ^ 64 ->
     Z.land newseed (Z.ones 64) = v /\ Z.shiftr newseed 64 = Z.shiftr mix 64).
Proof.
  apply (rng_seed_update (E:=sample_env) (EL:=sample_laws) 2 None w0 w_block_done).
  vm_compute. reflexivity.
Defined.

(** C10 fails for a constructor that writes the encoding of the empty
    list itself: ["keep"] writes the log slot, the deployment succeeds, and
    the transition completes with a success log. *)
Lemma deploy_rewriting_log_completes :
  vm_execute (deploy_message tx_keep 0 256 (2 ^ 255)) (tx_code tx_keep) false
    = VSet (shardify LOG 0) (PInt 0) (PStr RLPEMPTYLIST) (VRet (1, 50, [])) /\
  read (st w_gas) (shardify EXECUTION_STATE 0) TXINDEX = inl "" /\
  big_endian_to_int "" = 0 /\
  tx_state_transition 2 tx_keep 0 256 false (2 ^ 255) w_gas = Ok (Some []) w_keep_done /\
  read (st w_keep_done) (shardify LOG 0) (PInt 0)
    = inl (rlp_insert RLPEMPTYLIST 0 (int_to_big_endian 2)).
Proof.
  split; [vm_compute; reflexivity|].
  split; [vm_compute; reflexivity|].
  split; [vm_compute; reflexivity|].
  split; vm_compute; reflexivity.
Qed.

Lemma deploy_spoiled_log_asserts_witness :
  exists w',
    tx_state_transition 2 tx_spoil 0 256 false (2 ^ 255) w_gas
      = Raise AssertionError w'.
Proof.
  apply (deploy_spoiled_log_asserts (E:=sample_env) (EL:=sample_laws)
           2 tx_spoil 0 256 false (2 ^ 255) w_gas 0 1000 w_spoil_pro w_spoil_dep
           1 50 [] "" w_spoil_msg).
  - vm_compute. reflexivity.
  - vm_compute. reflexivity.
  - vm_compute. reflexivity.
  - discriminate.
  - reflexivity.
  - vm_compute. discriminate.
Defined.

End SampleFacts.

(** ** Further properties of the journaled state *)

Section WellFormed.
Context {E : Env} {EL : EnvLaws E}.

(** The state a read leaves: the same one on a cache hit, and otherwise
    the same one with the value it found memoized. *)
Lemma get_storage_shape a k s v s' :
  get_storage a k s = Ok v s' ->
  exists a', normalize_address a = Some a' /\ v = view s a' (canon k) /\
    s' = match cached s a' (canon k) with
         | Some _ => s
         | None => set_cache (<[a' := <[canon k := v]> (default ∅ (cache s !! a'))]>
                                (cache s)) s
         end.
Proof.
  intros H. destruct (normalize_address a) as [a'|] eqn:Hn;
    [|by rewrite get_storage_Raise in H].
  exists a'. split; [done|].
  unfold get_storage, normalize in H.
  unfold bind at 1 in H. rewrite Hn in H. cbn [lift_opt ret] in H.
  unfold bind at 1 in H. cbn [gets] in H.
  unfold view, cached.
  destruct (cache s !! a') as [sub|] eqn:Hsub.
  - destruct (sub !! canon k) as [v0|] eqn:Hv.
    + unfold ret in H. inversion H; subst. done.
    + unfold bind, gets, ret in H.
      rewrite (cache_store_Ok _ _ _ _ sub) in H by done.
      inversion H; subst. done.
  - unfold bind, modify, gets, ret in H.
    rewrite (cache_store_Ok _ _ _ _ ∅) in H by (simpl; apply lookup_insert_eq).
    inversion H; subst. split; [done|]. cbn [cache set_cache default].
    by rewrite insert_insert_eq.
Qed.

Lemma journal_wf_mono j : forall (acc acc' : gset string) (m m' : gmap string (gset string)),
  acc ⊆ acc' ->
  (forall a, default ∅ (m !! a) ⊆ default ∅ (m' !! a)) ->
  journal_wf j acc m -> journal_wf j acc' m'.
Proof.
  induction j as [|[a k p|c m0 rt] j IH]; intros acc acc' m m' Hacc Hm H;
    cbn [journal_wf] in *; [done| |done].
  destruct H as (Ha & Hk & Hj). split; [set_solver|]. split; [by apply Hm|].
  by eapply IH.
Qed.

Lemma wf_init rt d : wf (State_init rt d).
Proof.
  split; [|done]. intros a sub k v H. cbn [cache State_init] in H.
  by rewrite lookup_empty in H.
Qed.

Lemma wf_get a k s v s' : get_storage a k s = Ok v s' -> wf s -> wf s'.
Proof.
  intros H [Hco Hj]. apply get_storage_shape in H as (a' & Hn & Hv & ->).
  unfold cached in *. unfold view, cached in Hv.
  destruct (cache s !! a') as [sub|] eqn:Hsub; cbn [default].
  - destruct (sub !! canon k) as [v0|] eqn:Hk; [done|].
    split; cbn [cache modified root_hash journal set_cache].
    + intros x sub' y z Hx Hy.
      destruct (decide (x = a')) as [->|Hne].
      * rewrite lookup_insert_eq in Hx. inversion Hx; subst sub'.
        destruct (decide (y = canon k)) as [->|Hney].
        -- rewrite lookup_insert_eq in Hy. inversion Hy; subst. by right.
        -- rewrite lookup_insert_ne in Hy by done. by eapply Hco.
      * rewrite lookup_insert_ne in Hx by done. by eapply Hco.
    + eapply journal_wf_mono; [| |exact Hj]; [|done].
      rewrite dom_insert_L. set_solver.
  - split; cbn [cache modified root_hash journal set_cache].
    + intros x sub' y z Hx Hy.
      destruct (decide (x = a')) as [->|Hne].
      * rewrite lookup_insert_eq in Hx. inversion Hx; subst sub'.
        destruct (decide (y = canon k)) as [->|Hney].
        -- rewrite lookup_insert_eq in Hy. inversion Hy; subst. by right.
        -- by rewrite lookup_insert_ne, lookup_empty in Hy.
      * rewrite lookup_insert_ne in Hx by done. by eapply Hco.
    + eapply journal_wf_mono; [| |exact Hj]; [|done].
      rewrite dom_insert_L. set_solver.
Qed.

Lemma wf_set a k v s u s' : set_storage a k v s = Ok u s' -> wf s -> wf s'.
Proof.
  intros H Hwf. pose proof H as H0.
  unfold set_storage, normalize in H.
  destruct (normalize_address a) as [a'|] eqn:Hn;
    [|by rewrite set_storage_Raise in H0].
  unfold bind at 1 in H. cbn [lift_opt ret] in H.
  inv_bind H as p s1 H1. pose proof (wf_get _ _ _ _ _ H1 Hwf) as [Hco1 Hj1].
  apply get_storage_inv in H1 as (a0 & _ & _ & (_ & Hjeq & _) & _).
  inv_bind H as u2 s2 H2. unfold modify in H2. inversion H2; subst; clear H2.
  inv_bind H as u3 s3 H3. apply cache_store_inv in H3 as (sub & Hsub & ->).
  unfold modify in H. inversion H; subst; clear H.
  cbn [cache set_journal] in Hsub.
  split; cbn [cache modified root_hash journal set_cache set_modified set_journal].
  - intros x sub' y z Hx Hy.
    destruct (decide (x = a')) as [->|Hne].
    + rewrite lookup_insert_eq in Hx. inversion Hx; subst sub'.
      rewrite lookup_insert_eq. cbn [default].
      destruct (decide (y = canon k)) as [->|Hney]; [left; set_solver|].
      rewrite lookup_insert_ne in Hy by done.
      destruct (Hco1 _ _ _ _ Hsub Hy) as [Hf|Hv]; [left; set_solver|by right].
    + rewrite lookup_insert_ne in Hx by done. rewrite lookup_insert_ne by done.
      by eapply Hco1.
  - split; [rewrite dom_insert_L; set_solver|].
    split; [rewrite lookup_insert_eq; cbn; set_solver|].
    eapply journal_wf_mono; [| |exact Hj1].
    + rewrite dom_insert_L. set_solver.
    + intros x. destruct (decide (x = a')) as [->|Hne].
      * rewrite lookup_insert_eq. cbn. set_solver.
      * by rewrite lookup_insert_ne.
Qed.

Lemma wf_commit s u s' : commit s = Ok u s' -> wf s -> wf s'.
Proof.
  unfold commit. intros H [Hco Hj]. inversion H; subst; clear H.
  split; cbn [cache modified root_hash journal].
  - intros a sub k v Ha. by rewrite lookup_empty in Ha.
  - done.
Qed.

(** On a well-formed state [revert] completes, whatever the snapshot. *)
Lemma wf_revert_from n j : forall s,
  journal s = j -> wf s ->
  exists s', revert_from n j s = Ok tt s' /\ wf s'.
Proof.
  induction j as [|e j IH]; intros s Hjs [Hco Hj]; cbn [revert_from].
  - exists s. by split.
  - case_decide as Hlt; [|exists s; by split].
    rewrite Hjs in Hj. destruct e as [a k p|c m rt]; cbn [journal_wf] in Hj.
    + destruct Hj as (Ha & Hk & Hj).
      apply elem_of_dom in Ha as [sub Hsub].
      rewrite (cache_store_Ok _ _ _ _ sub) by done.
      apply IH; [done|].
      split; cbn [cache modified root_hash journal set_cache set_journal].
      * intros x sub' y z Hx Hy.
        destruct (decide (x = a)) as [->|Hne].
        -- rewrite lookup_insert_eq in Hx. inversion Hx; subst sub'.
           destruct (decide (y = k)) as [->|Hney]; [by left|].
           rewrite lookup_insert_ne in Hy by done. by eapply Hco.
        -- rewrite lookup_insert_ne in Hx by done. by eapply Hco.
      * eapply journal_wf_mono; [| |exact Hj]; [|done].
        rewrite dom_insert_L. set_solver.
    + destruct Hj as (Hc & Hj). apply IH; [done|]. by split.
Qed.

Lemma wf_revert n s : wf s -> exists s', revert n s = Ok tt s' /\ wf s'.
Proof. intros H. by apply wf_revert_from. Qed.

Lemma wf_root s r s' : root s = Ok r s' -> wf s -> wf s'.
Proof.
  unfold root. intros H Hwf. inv_bind H as u s1 H1. inv_bind H as rt s2 H2.
  unfold gets in H2. inversion H2; subst. inversion H; subst.
  by eapply wf_commit.
Qed.

Lemma exec_op_raise_same op s e s' : exec_op op s = Raise e s' -> s' = s.
Proof.
  destruct op as [a k v|a k|]; cbn [exec_op]; intros H.
  - destruct (normalize_address a) as [a'|] eqn:Hn.
    + destruct (set_storage_Ok a k v s a' Hn) as (s2 & H2 & _). congruence.
    + rewrite set_storage_Raise in H by done. by inversion H.
  - destruct (normalize_address a) as [a'|] eqn:Hn.
    + destruct (get_storage_Ok a k s a' Hn) as (s2 & H2 & _).
      rewrite (bind_eq_Ok _ _ _ _ _ H2) in H. discriminate.
    + rewrite (bind_eq_Raise _ _ _ _ _ (get_storage_Raise a k s Hn)) in H.
      by inversion H.
  - unfold commit in H. discriminate.
Qed.

Lemma revert_loop_nonneg z j : forall s,
  0 <= z -> revert_loop z j s = revert_from (Z.to_nat z) j s.
Proof.
  induction j as [|e j IH]; intros s Hz; cbn [revert_loop revert_from].
  - by rewrite decide_False by lia.
  - destruct (decide (z < Z.of_nat (length (e :: j)))) as [Hlt|Hge].
    + rewrite decide_True by lia. destruct e as [a k p|c m rt].
      * destruct (cache_store a k p (set_journal j s)) as [u s1|e1 s1]; [|done].
        by apply IH.
      * by apply IH.
    + by rewrite decide_False by lia.
Qed.

Lemma revert_loop_negative z j : forall s,
  z < 0 ->
  revert_loop z j s = match revert_from 0 j s with
                      | Ok _ s' => Raise IndexError s'
                      | Raise e s' => Raise e s'
                      end.
Proof.
  induction j as [|e j IH]; intros s Hz; cbn [revert_loop revert_from].
  - by rewrite decide_True by done.
  - rewrite decide_True by lia. rewrite decide_True by (simpl; lia).
    destruct e as [a k p|c m rt].
    + destruct (cache_store a k p (set_journal j s)) as [u s1|e1 s1]; [|done].
      by apply IH.
    + by apply IH.
Qed.

Lemma revert_any_nonneg z s : 0 <= z -> revert_any z s = revert (Z.to_nat z) s.
Proof. intros Hz. by apply revert_loop_nonneg. Qed.

(** A negative snapshot on a well-formed state: everything is unwound,
    then the pop fails. *)
Lemma wf_revert_any_negative z s :
  wf s -> z < 0 ->
  exists s', revert 0 s = Ok tt s' /\ revert_any z s = Raise IndexError s' /\ wf s'.
Proof.
  intros Hwf Hz. destruct (wf_revert 0 s Hwf) as (s' & H & Hwf').
  exists s'. split; [done|]. split; [|done].
  unfold revert_any. rewrite revert_loop_negative by done.
  unfold revert in H. by rewrite H.
Qed.

Lemma wf_exec_call c s : wf s -> wf (res_world (exec_call c s)).
Proof.
  intros Hwf. destruct c as [op|n|]; cbn [exec_call].
  - destruct (exec_op op s) as [u s'|e s'] eqn:H; cbn [res_world].
    + destruct op as [a k v|a k|]; cbn [exec_op] in H.
      * by eapply wf_set.
      * inv_bind H as v s1 H1. inversion H; subst. by eapply wf_get.
      * by eapply wf_commit.
    + apply exec_op_raise_same in H. by subst.
  - destruct (decide (0 <= n)) as [Hn|Hn].
    + rewrite revert_any_nonneg by done.
      destruct (wf_revert (Z.to_nat n) s Hwf) as (s' & -> & Hwf'). done.
    + destruct (wf_revert_any_negative n s Hwf) as (s' & _ & -> & Hwf'); [lia|done].
  - destruct (commit_total s) as [s1 H1].
    assert (Hroot : root s = Ok (trie_root_hash (root_hash s1)) s1).
    { unfold root. by rewrite (bind_eq_Ok _ _ _ _ _ H1). }
    rewrite (bind_eq_Ok _ _ _ _ _ Hroot). cbn [ret res_world].
    by eapply wf_commit.
Qed.

Lemma exec_calls_wf cs : forall s, wf s -> wf (exec_calls cs s).
Proof.
  induction cs as [|c cs IH]; intros s Hwf; cbn [exec_calls]; [done|].
  apply IH. by apply wf_exec_call.
Qed.

(** X1: every state reached from a fresh [State] by [set_storage],
    [get_storage], [commit], [root] and [revert] calls (to any integer
    snapshot, negative ones included, and whether or not a call raised)
    is well-formed. *)
Theorem reachable_states_wf rt d (cs : list StateCall) :
  wf (exec_calls cs (State_init rt d)).
Proof. apply exec_calls_wf, wf_init. Qed.

End WellFormed.

Section StateMore.
Context {E : Env} {EL : EnvLaws E}.

Lemma get_storage_hit a k s a' v :
  normalize_address a = Some a' -> cached s a' (canon k) = Some v ->
  get_storage a k s = Ok v s.
Proof.
  intros Hn Hc. unfold get_storage, normalize.
  unfold bind at 1. rewrite Hn. cbn [lift_opt ret].
  unfold bind at 1. cbn [gets]. unfold cached in Hc.
  destruct (cache s !! a') as [sub|]; [|discriminate]. by rewrite Hc.
Qed.

(** X2: a read is a read only. It pushes nothing on the journal, marks
    nothing modified, leaves the committed root and the code store alone
    and changes the result of no read; repeated at once it returns the
    same value and leaves the state exactly as it is. *)
Theorem get_storage_pure a k s v s' :
  get_storage a k s = Ok v s' ->
  journal s' = journal s /\ modified s' = modified s /\
  root_hash s' = root_hash s /\ db s' = db s /\
  get_storage a k s' = Ok v s' /\
  forall qs, read_all qs s' = read_all qs s.
Proof.
  intros H. pose proof H as H0.
  apply get_storage_inv in H0 as (a' & Hn & Hv & (Hr & Hj & Hview & _) & _ & Hdb & Hm).
  split; [done|]. split; [done|]. split; [done|]. split; [done|].
  split; [|intros qs; by apply read_all_view].
  apply get_storage_shape in H as (a2 & Hn2 & _ & Hs).
  assert (a2 = a') by congruence. subst a2.
  apply (get_storage_hit a k s' a' v Hn).
  destruct (cached s a' (canon k)) as [v0|] eqn:Hc.
  - subst s'. rewrite Hc. f_equal. unfold view in Hv. by rewrite Hc in Hv.
  - subst s'. unfold cached. cbn [cache set_cache].
    by rewrite !lookup_insert_eq.
Qed.

(** X3: a write is read back, and only it. For keys and values that
    are strings or integers of [0, 2^256): [set_storage] on an address
    that normalizes completes, pushes one journal entry, makes the slot
    read as the canonical form of the value (an integer key or value being
    the same as its 32-byte encoding, from which an integer value is read
    back), and leaves every other slot reading as before, the other integer
    keys of the account among them; on an address that does not normalize
    it raises and leaves the state as it is. *)
Theorem set_storage_read_back a k v s :
  in_range k -> in_range v ->
  match normalize_address a with
  | Some a' =>
      exists s', set_storage a k v s = Ok tt s' /\
        length (journal s') = S (length (journal s)) /\
        read s' a k = inl (canon v) /\
        read s' a (PStr (canon k)) = inl (canon v) /\
        (forall z, v = PInt z -> big_endian_to_int (canon v) = z) /\
        (forall b j,
           in_range j ->
           (forall b', normalize_address b = Some b' -> (b', canon j) <> (a', canon k)) ->
           read s' b j = read s b j) /\
        (forall z z',
           k = PInt z -> 0 <= z' < 2 ^ 256 -> z' <> z ->
           read s' a (PInt z') = read s a (PInt z'))
  | None => set_storage a k v s = Raise PyException s
  end.
Proof.
  intros Hk Hv0.
  destruct (normalize_address a) as [a'|] eqn:Hn; [|by apply set_storage_Raise].
  destruct (set_storage_Ok a k v s a' Hn) as (s' & H & _ & _ & Hj & Hv & _).
  assert (Hframe : forall b j,
            (forall b', normalize_address b = Some b' -> (b', canon j) <> (a', canon k)) ->
            read s' b j = read s b j).
  { intros b j Hb. unfold read.
    destruct (normalize_address b) as [b'|] eqn:Hnb.
    - fold (read s' b j). fold (read s b j).
      rewrite !(read_view _ _ _ _ Hnb). f_equal. rewrite Hv.
      rewrite decide_False; [done|]. intros [-> Hkk].
      apply (Hb a' eq_refl). by rewrite Hkk.
    - by rewrite !get_storage_Raise. }
  exists s'. split; [done|]. split; [by rewrite Hj|].
  split; [|split; [|split; [|split]]].
  - rewrite (read_view _ _ _ _ Hn). f_equal. rewrite Hv. by rewrite decide_True.
  - rewrite (read_view _ _ _ _ Hn). f_equal. cbn [canon]. rewrite Hv.
    by rewrite decide_True.
  - intros z ->. cbn [canon in_range] in *.
    apply big_endian_to_int_encode_int32. lia.
  - intros b j _ Hb. by apply Hframe.
  - intros z z' -> Hz' Hne. apply Hframe. intros b' _ [= _ Heq].
    cbn [canon in_range] in *. apply Hne.
    rewrite <- (big_endian_to_int_encode_int32 z') by lia.
    rewrite <- (big_endian_to_int_encode_int32 z) by lia.
    by rewrite Heq.
Qed.

(** *** What commit writes *)

Lemma commit_committed s u s' a k :
  commit s = Ok u s' ->
  committed s' a k
  = match cached s a k with
    | Some v => if decide (k ∈ default ∅ (modified s !! a)) then v
                else committed s a k
    | None => committed s a k
    end.
Proof.
  intros H. unfold commit in H. inversion H; subst s'; clear H.
  unfold committed. cbn [root_hash].
  set (f := fun (addr : string) (subcache : gmap string string)
                (st : gmap string (gmap string string)) =>
              let '(t, touched) :=
                commit_account (default ∅ (modified s !! addr)) subcache
                               (state_get st addr) in
              if touched then <[addr := t]> st else st).
  assert (Hfold : forall x, state_get (map_fold f (root_hash s) (cache s)) x
              = match cache s !! x with
                | Some sub' => (commit_account (default ∅ (modified s !! x)) sub'
                                               (state_get (root_hash s) x)).1
                | None => state_get (root_hash s) x
                end).
  { apply (map_fold_weak_ind
      (fun (r : gmap string (gmap string string)) (m : gmap string (gmap string string)) =>
         forall x, state_get r x
              = match m !! x with
                | Some sub' => (commit_account (default ∅ (modified s !! x)) sub'
                                               (state_get (root_hash s) x)).1
                | None => state_get (root_hash s) x
                end)).
    - intros x. by rewrite lookup_empty.
    - intros i sub' m r Hi IH x. unfold f.
      assert (Hri : state_get r i = state_get (root_hash s) i).
      { rewrite IH. by rewrite Hi. }
      rewrite Hri.
      destruct (commit_account_spec (default ∅ (modified s !! i)) sub'
                  (state_get (root_hash s) i)) as [_ Hun].
      destruct (decide (x = i)) as [->|Hne].
      + rewrite lookup_insert_eq.
        destruct (commit_account _ sub' _) as [t1 b1] eqn:Hca. cbn [fst snd] in *.
        destruct b1.
        * unfold state_get. rewrite lookup_insert_eq. reflexivity.
        * rewrite Hri. by rewrite Hun.
      + rewrite lookup_insert_ne by done. rewrite <- IH.
        destruct (commit_account _ sub' _) as [t1 b1] eqn:Hca.
        destruct b1; [|done].
        unfold state_get. by rewrite lookup_insert_ne. }
  fold f. rewrite Hfold. unfold cached.
  destruct (cache s !! a) as [sub|] eqn:Hsub; [|done].
  destruct (commit_account_spec (default ∅ (modified s !! a)) sub
              (state_get (root_hash s) a)) as [Hget _].
  rewrite Hget. destruct (sub !! k) as [v|] eqn:Hk; [|done].
  destruct (decide (k ∈ default ∅ (modified s !! a))) as [Hin|Hnin].
  - case_decide as Hd; [done|].
    destruct (decide (v = trie_get (state_get (root_hash s) a) k)); [done|].
    exfalso. by apply Hd.
  - rewrite decide_False; [done|]. by intros [? _].
Qed.

(** X4: [commit] writes into the tries exactly the cached values that
    are marked modified: afterwards such a key holds its cached value, and
    every other key of every account holds what it held. The write cache
    and the modified marks are emptied, the code store is left alone, and
    one marker is pushed on the journal. *)
Theorem commit_writes_modified s :
  exists s', commit s = Ok tt s' /\
    cache s' = ∅ /\ modified s' = ∅ /\ db s' = db s /\
    length (journal s') = S (length (journal s)) /\
    forall a k,
      committed s' a k
      = match cached s a k with
        | Some v => if decide (k ∈ default ∅ (modified s !! a)) then v
                    else committed s a k
        | None => committed s a k
        end.
Proof.
  destruct (commit_total s) as [s' H]. exists s'. split; [done|].
  destruct (commit_inv _ _ _ H) as (Hdb & Hc & Hm & Hj).
  split; [done|]. split; [done|]. split; [done|]. split; [by rewrite Hj|].
  intros a k. by eapply commit_committed.
Qed.

Lemma view_after_commit (s' : State) a k :
  cache s' = ∅ -> view s' a k = committed s' a k.
Proof. intros Hc. unfold view, cached. by rewrite Hc, lookup_empty. Qed.

Lemma commit_view_wf s u s' a k :
  wf s -> commit s = Ok u s' -> view s' a k = view s a k.
Proof.
  intros Hwf H. destruct (commit_inv _ _ _ H) as (_ & Hc & _ & _).
  rewrite (view_after_commit s') by done.
  rewrite (commit_committed _ _ _ a k H).
  unfold view. destruct Hwf as [Hco _]. unfold cached in *.
  destruct (cache s !! a) as [sub|] eqn:Hsub; [|done].
  destruct (sub !! k) as [v|] eqn:Hk; [|done].
  case_decide as Hd; [done|].
  destruct (Hco _ _ _ _ Hsub Hk) as [Hin|Hv]; [done|by rewrite Hv].
Qed.

Lemma on_root_view_wf w r w' :
  wf (st w) -> on_state root w = Ok r w' ->
  wf (st w') /\ forall a k, view (st w') a k = view (st w) a k.
Proof.
  intros Hwf H. apply on_state_Ok in H as (s' & H & ->). cbn [st set_st].
  unfold root in H. inv_bind H as u s1 H1. inv_bind H as rt s2 H2.
  unfold gets in H2. inversion H2; subst. inversion H; subst.
  split; [by eapply wf_commit|]. intros a k. by eapply commit_view_wf.
Qed.

(** X5: on a well-formed state (any state the methods of [State] lead
    to) a commit changes the result of no read. *)
Theorem commit_preserves_reads s :
  wf s ->
  exists s', commit s = Ok tt s' /\ wf s' /\
             forall qs, read_all qs s' = read_all qs s.
Proof.
  intros Hwf. destruct (commit_total s) as [s' H].
  exists s'. split; [done|]. split; [by eapply wf_commit|].
  intros qs. apply read_all_view. intros a k. by eapply commit_view_wf.
Qed.

(** X6: [root] is idempotent. Whatever the state, [root] leaves the
    write cache and the modified marks empty, and a second [root] right
    after it returns the same hash and changes no committed value. *)
Theorem root_idempotent s :
  exists r s1 s2, root s = Ok r s1 /\ cache s1 = ∅ /\ modified s1 = ∅ /\
                  root s1 = Ok r s2 /\ root_hash s2 = root_hash s1 /\
                  cache s2 = ∅ /\ modified s2 = ∅.
Proof.
  destruct (commit_total s) as [s1 H1].
  destruct (commit_inv _ _ _ H1) as (_ & Hc1 & Hm1 & _).
  destruct (commit_total s1) as [s2 H2].
  destruct (commit_inv _ _ _ H2) as (_ & Hc2 & Hm2 & _).
  assert (Hrt : root_hash s2 = root_hash s1).
  { unfold commit in H2. inversion H2; subst s2. cbn [root_hash].
    rewrite Hc1. apply map_fold_empty. }
  exists (trie_root_hash (root_hash s1)), s1, s2.
  split; [unfold root; by rewrite (bind_eq_Ok _ _ _ _ _ H1)|].
  split; [done|]. split; [done|].
  split; [unfold root; rewrite (bind_eq_Ok _ _ _ _ _ H2); cbn; by rewrite Hrt|].
  done.
Qed.

(** X7: what [revert] does on a well-formed state, for any integer
    snapshot. It never fails in the cache ([KeyError]) and keeps the state
    well-formed. With a snapshot that is not negative it completes and
    leaves a journal of the snapshot's length, or the state as it is when
    the snapshot is not below the journal's length. With a negative
    snapshot it unwinds the whole journal, exactly as [revert(0)] does,
    and then raises [IndexError]. *)
Theorem revert_total (n : Z) s :
  wf s ->
  exists s', wf s' /\
    if decide (0 <= n) then
      revert_any n s = Ok tt s' /\
      Z.of_nat (length (journal s')) = Z.min n (Z.of_nat (length (journal s))) /\
      (Z.of_nat (length (journal s)) <= n -> s' = s)
    else
      revert_any n s = Raise IndexError s' /\
      revert_any 0 s = Ok tt s' /\ journal s' = [].
Proof.
  intros Hwf. case_decide as Hn.
  - destruct (wf_revert (Z.to_nat n) s Hwf) as (s' & H & Hwf').
    exists s'. split; [done|]. rewrite revert_any_nonneg by done.
    split; [done|]. split.
    + rewrite (revert_from_journal _ _ _ _ _ eq_refl H). lia.
    + intros Hle. unfold revert in H.
      destruct (journal s) as [|e j] eqn:Hj; cbn [revert_from] in H.
      * by inversion H.
      * rewrite decide_False in H by (simpl in *; lia). by inversion H.
  - destruct (wf_revert_any_negative n s Hwf) as (s' & H0 & H & Hwf'); [lia|].
    exists s'. split; [done|]. split; [done|].
    split; [by rewrite revert_any_nonneg by lia|].
    pose proof (revert_from_journal _ _ _ _ _ eq_refl H0) as Hlen.
    destruct (journal s') as [|e j]; [done|]. simpl in Hlen. lia.
Qed.

End StateMore.

(** ** What calls leave alone *)

Section Frames.
Context {E : Env} {EL : EnvLaws E}.

Lemma res_world_bind {W A B} (m : M W A) (k : A -> M W B) w :
  res_world (bind m k w)
  = match m w with
    | Ok a w1 => res_world (k a w1)
    | Raise _ w1 => w1
    end.
Proof. unfold bind. by destruct (m w). Qed.

Lemma call_frame_refl ext w : call_frame ext w w.
Proof. unfold call_frame. auto. Qed.

Lemma call_frame_trans ext w1 w2 w3 :
  call_frame ext w1 w2 -> call_frame ext w2 w3 -> call_frame ext w1 w3.
Proof.
  intros (A1 & B1 & C1 & D1) (A2 & B2 & C2 & D2).
  split; [congruence|]. split; [congruence|]. split; [|auto].
  intros He. by rewrite C2, C1.
Qed.

Lemma call_frame_empty ext w w' : call_frame EmptyVMExt w w' -> call_frame ext w w'.
Proof.
  intros (A & B & C & D). split; [done|]. split; [done|].
  split; [intros _; by apply C|done].
Qed.

(** Sequencing: the frame of a computation made of two. *)
Lemma call_frame_bind {A B} ext (m : M World A) (k : A -> M World B) w :
  call_frame ext w (res_world (m w)) ->
  (forall a w1, m w = Ok a w1 -> call_frame ext w1 (res_world (k a w1))) ->
  call_frame ext w (res_world (bind m k w)).
Proof.
  intros Hm Hk. rewrite res_world_bind.
  destruct (m w) as [a w1|e w1] eqn:Hmw; [|done].
  eapply call_frame_trans; [exact Hm|]. by apply Hk.
Qed.

Lemma call_frame_pure {A} ext (m : M World A) w :
  res_world (m w) = w -> call_frame ext w (res_world (m w)).
Proof. intros ->. apply call_frame_refl. Qed.

Lemma on_state_frame {A} (m : M State A) w :
  (wf (st w) -> wf (res_world (m (st w)))) ->
  call_frame VMExt w (res_world (on_state m w)).
Proof.
  intros H. unfold on_state.
  destruct (m (st w)) as [a s|e s]; cbn [res_world] in *;
    unfold call_frame; cbn [st set_st empty_st transition_cache_map];
    (split; [done|split; [done|split; [discriminate|done]]]).
Qed.

Lemma get_storage_wf a k s : wf s -> wf (res_world (get_storage a k s)).
Proof.
  intros Hwf. destruct (get_storage a k s) as [v s'|e s'] eqn:H; cbn [res_world].
  - by eapply wf_get.
  - destruct (normalize_address a) as [a'|] eqn:Hn.
    + destruct (get_storage_Ok a k s a' Hn) as (s2 & H2 & _). congruence.
    + rewrite get_storage_Raise in H by done. by inversion H; subst.
Qed.

Lemma set_storage_wf a k v s : wf s -> wf (res_world (set_storage a k v s)).
Proof.
  intros Hwf. destruct (set_storage a k v s) as [u s'|e s'] eqn:H; cbn [res_world].
  - by eapply wf_set.
  - destruct (normalize_address a) as [a'|] eqn:Hn.
    + destruct (set_storage_Ok a k v s a' Hn) as (s2 & H2 & _). congruence.
    + rewrite set_storage_Raise in H by done. by inversion H; subst.
Qed.

Lemma db_get_wf key s : wf s -> wf (res_world (db_get key s)).
Proof. intros Hwf. unfold db_get. by destruct (db s !! key). Qed.

Lemma db_put_wf key v s : wf s -> wf (res_world (db_put key v s)).
Proof. intros Hwf. unfold db_put, modify. done. Qed.

Lemma revert_wf n s : wf s -> wf (res_world (revert n s)).
Proof. intros Hwf. by destruct (wf_revert n s Hwf) as (s' & -> & ?). Qed.

Lemma root_total s : exists r s', root s = Ok r s'.
Proof.
  destruct (commit_total s) as [s1 H1]. unfold root.
  rewrite (bind_eq_Ok _ _ _ _ _ H1). cbn. eauto.
Qed.

Lemma root_wf s : wf s -> wf (res_world (root s)).
Proof.
  intros Hwf. destruct (root_total s) as (r & s1 & H).
  rewrite H. cbn. by eapply wf_root.
Qed.

Lemma get_code_wf a s : wf s -> wf (res_world (get_code a s)).
Proof.
  intros Hwf. unfold get_code. rewrite res_world_bind.
  pose proof (get_storage_wf a (PStr "") s Hwf) as H1.
  destruct (get_storage a (PStr "") s) as [h s1|e s1]; cbn [res_world] in *; [|done].
  case_decide; [done|]. by apply db_get_wf.
Qed.

Lemma put_code_wf a code s : wf s -> wf (res_world (put_code a code s)).
Proof.
  intros Hwf. unfold put_code. rewrite res_world_bind.
  unfold db_put, modify. by apply set_storage_wf.
Qed.

Lemma ext_get_storage_frame ext a k w :
  call_frame ext w (res_world (ext_get_storage ext a k w)).
Proof.
  destruct ext; cbn [ext_get_storage]; [|apply call_frame_refl].
  apply on_state_frame, get_storage_wf.
Qed.

Lemma ext_set_storage_frame ext a k v w :
  call_frame ext w (res_world (ext_set_storage ext a k v w)).
Proof.
  destruct ext; cbn [ext_set_storage]; [|apply call_frame_refl].
  apply on_state_frame, set_storage_wf.
Qed.

Lemma ext_unhash_frame ext x w :
  call_frame ext w (res_world (ext_unhash ext x w)).
Proof.
  destruct ext; cbn [ext_unhash]; [|apply call_frame_refl].
  apply on_state_frame, db_get_wf.
Qed.

Lemma ext_puthashdata_frame ext d w :
  call_frame ext w (res_world (ext_puthashdata ext d w)).
Proof.
  destruct ext; cbn [ext_puthashdata]; [|apply call_frame_refl].
  apply on_state_frame, db_put_wf.
Qed.

Lemma run_vm_frame call :
  (forall e m c w, call_frame e w (res_world (call e m c w))) ->
  forall p ext w, call_frame ext w (res_world (run_vm call ext p w)).
Proof.
  intros Hcall p.
  induction p as [r0|a k cont IH|a k v cont IH|h cont IH|d cont IH
                  |m code cont IH|m code cont IH|e];
    intros ext w; cbn [run_vm].
  - apply call_frame_refl.
  - apply call_frame_bind; [apply ext_get_storage_frame|intros; apply IH].
  - apply call_frame_bind; [apply ext_set_storage_frame|intros; apply IH].
  - apply call_frame_bind; [apply ext_unhash_frame|intros; apply IH].
  - apply call_frame_bind; [apply ext_puthashdata_frame|intros; apply IH].
  - apply call_frame_bind; [apply Hcall|intros; apply IH].
  - apply call_frame_bind; [apply call_frame_empty, Hcall|intros; apply IH].
  - apply call_frame_refl.
Qed.

Lemma transfer_value_frame ext msg w :
  call_frame ext w (res_world (transfer_value ext msg w)).
Proof.
  unfold transfer_value. destruct (transfers_value msg); [|apply call_frame_refl].
  apply call_frame_bind; [apply ext_get_storage_frame|]. intros bal w1 _.
  destruct (_ <? _); [apply call_frame_refl|].
  destruct (negb _); [|apply call_frame_refl].
  apply call_frame_bind; [apply ext_get_storage_frame|]. intros b1 w2 _.
  apply call_frame_bind; [apply ext_set_storage_frame|]. intros u2 w3 _.
  apply call_frame_bind; [apply ext_get_storage_frame|]. intros b3 w4 _.
  apply call_frame_bind; [apply ext_set_storage_frame|]. intros u4 w5 _.
  apply call_frame_refl.
Qed.

Lemma apply_msg_frame depth : forall ext msg code b w,
  call_frame ext w (res_world (apply_msg depth ext msg code b w)).
Proof.
  induction depth as [|depth IH]; intros ext msg code b w; cbn [apply_msg];
    [apply call_frame_refl|].
  apply call_frame_bind; [apply call_frame_refl|]. intros ec wa Ha.
  unfold gets in Ha. inversion Ha; subst; clear Ha.
  destruct (if decide (ext = EmptyVMExt) then _ else None) as [hit|];
    [apply call_frame_refl|].
  destruct (on_ext_state ext snapshot wa) as [snap wb|e wb] eqn:Hsnap.
  2:{ destruct ext; cbn [on_ext_state] in Hsnap;
        unfold on_state, on_empty_state, snapshot, gets in Hsnap; discriminate. }
  pose proof Hsnap as Hsnap'.
  apply on_ext_state_snapshot in Hsnap' as (-> & Hs1 & Hs2).
  rewrite res_world_bind, Hsnap.
  apply call_frame_bind; [apply transfer_value_frame|]. intros quit w0 H0.
  pose proof (transfer_value_frame ext msg wa) as F0. rewrite H0 in F0.
  cbn [res_world] in F0.
  destruct quit; [apply call_frame_refl|].
  rewrite res_world_bind.
  pose proof (run_vm_frame (fun e m c => apply_msg depth e m c false)
                (fun e m c x => IH e m c false x)
                (match specials (big_endian_to_int (msg_to msg)) with
                 | Some special => special msg
                 | None => vm_execute msg code b
                 end) ext w0) as F1.
  destruct (run_vm _ ext _ w0) as [[[res g] dat] w1|e w1]; cbn [res_world] in F1;
    [|done].
  eapply call_frame_trans; [exact F1|].
  pose proof (call_frame_trans _ _ _ _ F0 F1) as F01.
  apply call_frame_bind; [|intros; apply call_frame_bind;
                            [unfold call_frame, modify; cbn; auto
                            |intros; apply call_frame_refl]].
  destruct (res =? 0); [|apply call_frame_refl].
  destruct ext; cbn [on_ext_state].
  - apply on_state_frame. apply revert_wf.
  - unfold on_empty_state.
    destruct F01 as (_ & He & _). rewrite (Hs2 eq_refl), <- He.
    rewrite revert_at_length. cbn [res_world].
    rewrite set_empty_st_empty_st. apply call_frame_refl.
Qed.

(** X8: a call through [EmptyVMExt] never touches the State under
    execution, nor the State held by [EmptyVMExt] itself, nor the
    determinism memo, whether it returns or raises. *)
Theorem static_call_untouched depth msg code breaking w :
  let w' := res_world (apply_msg depth EmptyVMExt msg code breaking w) in
  st w' = st w /\ empty_st w' = empty_st w /\
  transition_cache_map w' = transition_cache_map w.
Proof.
  cbn zeta.
  destruct (apply_msg_frame depth EmptyVMExt msg code breaking w) as (A & B & C & _).
  split; [by apply C|]. by split.
Qed.

(** X9: [apply_msg] keeps the State under execution well-formed, through
    either façade and however it ends. *)
Theorem apply_msg_keeps_wf depth ext msg code breaking w :
  wf (st w) -> wf (st (res_world (apply_msg depth ext msg code breaking w))).
Proof.
  intros H.
  by destruct (apply_msg_frame depth ext msg code breaking w) as (_ & _ & _ & D);
    apply D.
Qed.

End Frames.

(** ** Further properties of apply_msg *)

Section ApplyMsgMore.
Context {E : Env} {EL : EnvLaws E}.



(** X11: a message that transfers value from a sender whose balance is
    below the value is stopped before the machine runs: the call returns
    status 1 with the whole gas of the message and no data, pushes nothing
    on the journal, memoizes nothing and changes the result of no read. *)
Theorem insufficient_balance_quits depth msg code breaking w bal :
  transfers_value msg = true ->
  read (st w) (match_shard ETHER (msg_sender msg)) (PStr (msg_sender msg)) = inl bal ->
  big_endian_to_int bal < msg_value msg ->
  exists w',
    apply_msg (S depth) VMExt msg code breaking w = Ok (1, msg_gas msg, []) w' /\
    journal (st w') = journal (st w) /\
    eve_cache w' = eve_cache w /\
    forall qs, read_all qs (st w') = read_all qs (st w).
Proof.
  intros Htv Hbal Hlt. unfold read in Hbal.
  destruct (get_storage (match_shard ETHER (msg_sender msg)) (PStr (msg_sender msg)) (st w))
    as [v s1|e s1] eqn:Hget; [|discriminate].
  cbn [res_value] in Hbal. inversion Hbal; subst v; clear Hbal.
  pose proof (get_storage_inv _ _ _ _ _ Hget) as (a0 & _ & _ & (_ & Hj & Hview & _) & _).
  assert (Hreads : forall qs, read_all qs s1 = read_all qs (st w))
    by (intros qs; by apply read_all_view).
  exists (set_st s1 w).
  split; [|split; [done|split; [done|exact Hreads]]].
  cbn [apply_msg]. unfold bind at 1. cbn [gets].
  rewrite decide_False by done.
  assert (Hs : on_ext_state VMExt snapshot w = Ok (length (journal (st w))) w).
  { cbn [on_ext_state]. unfold on_state, snapshot, gets. by rewrite set_st_st. }
  rewrite (bind_eq_Ok _ _ _ _ _ Hs).
  assert (Hq : transfer_value VMExt msg w = Ok true (set_st s1 w)).
  { unfold transfer_value. rewrite Htv. cbn [ext_get_storage].
    rewrite (bind_eq_Ok _ _ _ _ _ (on_state_eq_Ok _ _ _ _ Hget)).
    by rewrite (proj2 (Z.ltb_lt _ _) Hlt). }
  by rewrite (bind_eq_Ok _ _ _ _ _ Hq).
Qed.

(** X12: the value transfer moves the value. When the sender's balance
    covers a positive value, [transfer_value] completes without quitting;
    afterwards the sender's balance slot holds the balance minus the value
    and the recipient's holds its balance plus the value (when the two are
    one slot, it holds the same integer as before), and every other slot
    reads as before. *)
Theorem transfer_moves_value msg w sa ra bs br :
  transfers_value msg = true ->
  0 < msg_value msg ->
  normalize_address (match_shard ETHER (msg_sender msg)) = Some sa ->
  normalize_address (match_shard ETHER (msg_to msg)) = Some ra ->
  read (st w) (match_shard ETHER (msg_sender msg)) (PStr (msg_sender msg)) = inl bs ->
  read (st w) (match_shard ETHER (msg_to msg)) (PStr (msg_to msg)) = inl br ->
  msg_value msg <= big_endian_to_int bs ->
  exists w',
    transfer_value VMExt msg w = Ok false w' /\
    (if decide ((sa, msg_sender msg) = (ra, msg_to msg)) then
       read (st w') (match_shard ETHER (msg_sender msg)) (PStr (msg_sender msg))
       = inl (encode_int32 (big_endian_to_int bs))
     else
       read (st w') (match_shard ETHER (msg_sender msg)) (PStr (msg_sender msg))
       = inl (encode_int32 (big_endian_to_int bs - msg_value msg)) /\
       read (st w') (match_shard ETHER (msg_to msg)) (PStr (msg_to msg))
       = inl (encode_int32 (big_endian_to_int br + msg_value msg))) /\
    forall a k,
      (forall a', normalize_address a = Some a' ->
                  (a', canon k) <> (sa, msg_sender msg) /\
                  (a', canon k) <> (ra, msg_to msg)) ->
      read (st w') a k = read (st w) a k.
Proof.
  intros Htv Hpos Hsa Hra Hbs Hbr Hle.
  rewrite (read_view _ _ _ _ Hsa) in Hbs. rewrite (read_view _ _ _ _ Hra) in Hbr.
  injection Hbs as Hbs. injection Hbr as Hbr. cbn [canon] in *.
  unfold transfer_value. rewrite Htv.
  destruct (on_get_Ok (match_shard ETHER (msg_sender msg)) (PStr (msg_sender msg)) w sa Hsa)
    as (w1 & H1 & V1).
  cbn [ext_get_storage ext_set_storage canon] in *.
  rewrite (bind_eq_Ok _ _ _ _ _ H1). rewrite Hbs.
  rewrite (proj2 (Z.ltb_ge _ _) Hle).
  rewrite (proj2 (Z.eqb_neq (msg_value msg) 0)) by lia. cbn [negb].
  destruct (on_get_Ok (match_shard ETHER (msg_sender msg)) (PStr (msg_sender msg)) w1 sa Hsa)
    as (w2 & H2 & V2).
  cbn [canon] in H2. rewrite V1, Hbs in H2.
  rewrite (bind_eq_Ok _ _ _ _ _ H2).
  destruct (on_set_Ok (match_shard ETHER (msg_sender msg)) (PStr (msg_sender msg))
              (PInt (big_endian_to_int bs - msg_value msg)) w2 sa Hsa) as (w3 & H3 & V3).
  rewrite (bind_eq_Ok _ _ _ _ _ H3).
  destruct (on_get_Ok (match_shard ETHER (msg_to msg)) (PStr (msg_to msg)) w3 ra Hra)
    as (w4 & H4 & V4).
  rewrite (bind_eq_Ok _ _ _ _ _ H4). cbn [canon] in *.
  destruct (on_set_Ok (match_shard ETHER (msg_to msg)) (PStr (msg_to msg))
              (PInt (big_endian_to_int (view (st w3) ra (msg_to msg)) + msg_value msg))
              w4 ra Hra) as (w5 & H5 & V5).
  rewrite (bind_eq_Ok _ _ _ _ _ H5). cbn [canon] in *.
  exists w5. split; [done|].
  assert (Hfinal : forall x y, view (st w5) x y
            = if decide (x = ra /\ y = msg_to msg)
              then encode_int32 (big_endian_to_int (view (st w3) ra (msg_to msg))
                                 + msg_value msg)
              else if decide (x = sa /\ y = msg_sender msg)
                   then encode_int32 (big_endian_to_int bs - msg_value msg)
                   else view (st w) x y).
  { intros x y. rewrite V5. case_decide; [done|]. rewrite V4, V3.
    case_decide; [done|]. by rewrite V2, V1. }
  split.
  - case_decide as Hsame.
    + injection Hsame as Hs1 Hs2.
      rewrite (read_view _ _ _ _ Hsa). f_equal. cbn [canon].
      rewrite Hfinal. rewrite decide_True by done.
      rewrite V3. rewrite decide_True by done. cbn [canon].
      rewrite big_endian_to_int_encode_int32 by lia. f_equal. lia.
    + split.
      * rewrite (read_view _ _ _ _ Hsa). f_equal. cbn [canon]. rewrite Hfinal.
        rewrite decide_False by (intros [? ?]; apply Hsame; congruence).
        by rewrite decide_True.
      * rewrite (read_view _ _ _ _ Hra). f_equal. cbn [canon]. rewrite Hfinal.
        rewrite decide_True by done. rewrite V3.
        rewrite decide_False by (intros [? ?]; apply Hsame; congruence).
        by rewrite V2, V1, Hbr.
  - intros a k Hak. unfold read.
    destruct (normalize_address a) as [a'|] eqn:Hn.
    + destruct (Hak a' eq_refl) as [Hk1 Hk2].
      fold (read (st w5) a k). fold (read (st w) a k).
      rewrite !(read_view _ _ _ _ Hn). f_equal. rewrite Hfinal.
      rewrite decide_False by (intros [? ?]; congruence).
      rewrite decide_False by (intros [? ?]; congruence). done.
    + by rewrite !get_storage_Raise.
Qed.

Lemma revert_from_suffix n j : forall s u s',
  journal s = j -> revert_from n j s = Ok u s' ->
  exists pre, j = (pre ++ journal s')%list.
Proof.
  induction j as [|e j IH]; intros s u s' Hj H; cbn [revert_from] in H.
  - inversion H; subst. exists []. by rewrite Hj.
  - case_decide as Hlt.
    + destruct e as [a k p|c m rt].
      * destruct (cache_store a k p (set_journal j s)) as [[] s1|] eqn:Hcs; [|discriminate].
        apply cache_store_inv in Hcs as (sub & _ & ->).
        apply IH in H as [pre Hpre]; [|done].
        exists (JSet a k p :: pre). by rewrite Hpre at 1.
      * apply IH in H as [pre Hpre]; [|done].
        exists (JRoot c m rt :: pre). by rewrite Hpre at 1.
    + inversion H; subst. exists []. by rewrite Hj.
Qed.

(** X13: a call never unwinds what was journaled before it: when
    [apply_msg] returns, the journal it found is still the tail of the
    journal, so a snapshot taken before the call remains valid. *)
Theorem apply_msg_keeps_older_journal depth ext msg code breaking w r w' :
  apply_msg depth ext msg code breaking w = Ok r w' ->
  exists newer, journal (st w') = (newer ++ journal (st w))%list.
Proof.
  intros H. apply apply_msg_st_inv in H as [[(_ & t' & Hrev & Heq) _] _].
  unfold revert in Hrev.
  apply revert_from_suffix in Hrev as [pre Hpre]; [|done].
  exists pre. destruct Heq as (_ & Hj & _). by rewrite <- Hj.
Qed.

End ApplyMsgMore.

(** ** Further properties of transactions and of the code store *)

Section TxMore.
Context {E : Env} {EL : EnvLaws E}.

(** X14: code put is code got. After [put_code] on an address that
    normalizes, [get_code] on it returns the code (the hash of code being
    a non-empty string, as a digest is). *)
Theorem put_code_get_code a code s a' :
  normalize_address a = Some a' ->
  sha3 code <> "" ->
  exists s1 s2, put_code a code s = Ok tt s1 /\ get_code a s1 = Ok code s2.
Proof.
  intros Hn Hh. unfold put_code, db_put.
  set (s0 := set_db (<[UNHASH_MAGIC_BYTES +:+ sha3 code := code]> (db s)) s).
  destruct (set_storage_Ok a (PStr "") (PStr (sha3 code)) s0 a' Hn)
    as (s1 & H1 & _ & Hdb & _ & Hv & _).
  destruct (get_storage_Ok a (PStr "") s1 a' Hn) as (s2 & H2 & _ & _ & Hdb2 & _).
  exists s1, s2. split.
  - unfold bind, modify. fold s0. by rewrite H1.
  - assert (Hval : view s1 a' (canon (PStr "")) = sha3 code).
    { rewrite Hv. by rewrite decide_True. }
    unfold get_code. rewrite (bind_eq_Ok _ _ _ _ _ H2). rewrite Hval.
    rewrite decide_False by done.
    unfold db_get. rewrite Hdb2, Hdb. unfold s0. cbn [db set_db].
    by rewrite lookup_insert_eq.
Qed.

(** X15: [get_code] by cases on the code-hash slot (key [''] of the
    account): an empty slot gives the empty code without a look at the
    store; a hash that the store holds gives the stored blob; a hash that
    the store lacks raises [KeyError]. *)
Theorem get_code_cases a s h :
  read s a (PStr "") = inl h ->
  match (if decide (h = "") then Some ""
         else db s !! (UNHASH_MAGIC_BYTES +:+ h)) with
  | Some code => exists s', get_code a s = Ok code s'
  | None => exists s', get_code a s = Raise KeyError s'
  end.
Proof.
  intros Hr. unfold read in Hr.
  destruct (get_storage a (PStr "") s) as [v s1|e s1] eqn:Hget; [|discriminate].
  cbn [res_value] in Hr. inversion Hr; subst v; clear Hr.
  pose proof (get_storage_inv _ _ _ _ _ Hget) as (a0 & _ & _ & _ & _ & Hdb & _).
  unfold get_code. rewrite (bind_eq_Ok _ _ _ _ _ Hget).
  case_decide; [by eexists|].
  unfold db_get. rewrite Hdb.
  destruct (db s !! _); by eexists.
Qed.

Lemma tx_prologue_skip_inv tx lb rb w w1 :
  tx_prologue tx lb rb w = Ok None w1 ->
  exists ex,
    normalize_address (shardify EXECUTION_STATE lb) = Some ex /\
    view (st w1) ex (canon TXINDEX)
    = encode_int32 (big_endian_to_int (view (st w) ex (canon TXINDEX)) + 1).
Proof.
  unfold tx_prologue. intros H.
  inv_bind H as v1 wa Ha. apply on_get_inv in Ha as (ex & Hex & -> & V1).
  inv_bind H as v2 wb Hb. apply on_get_inv in Hb as (ex' & Hex' & -> & V2).
  exists ex. split; [done|].
  assert (Hskip : forall wc,
    (let* l := status_log 0 in
     on_state (set_storage (shardify LOG lb)
                 (PInt (big_endian_to_int (view (st w) ex (canon TXINDEX)))) (PStr l)) ;;
     on_state (set_storage (shardify EXECUTION_STATE lb) TXINDEX
                 (PInt (big_endian_to_int (view (st w) ex (canon TXINDEX)) + 1))) ;;
     ret (@None (Z * Z))) wc = Ok None w1 ->
    view (st w1) ex (canon TXINDEX)
    = encode_int32 (big_endian_to_int (view (st w) ex (canon TXINDEX)) + 1)).
  { intros wc Hs. inv_bind Hs as l wd Hd. inv_bind Hs as u we He.
    inv_bind Hs as u' wf Hf. apply on_set_inv in Hf as (ex2 & Hex2 & V).
    assert (ex2 = ex) by congruence. subst ex2.
    inversion Hs; subst. rewrite V. by rewrite decide_True. }
  destruct (_ <? 0); [by eapply Hskip|].
  destruct (negb _); [by eapply Hskip|].
  inv_bind H as u wc Hc. inv_bind H as u' wd Hd. discriminate.
Qed.

(** X16: a transaction that is processed counts once. Whenever
    [tx_state_transition] returns, through a skip, a failed deployment or
    a completed execution, [(_EXSTATE, TXINDEX)] holds the index read at
    the start plus one, whatever the executed code wrote there. *)
Theorem tx_advances_txindex depth tx lb rb breaking override_gas w r w' :
  tx_state_transition depth tx lb rb breaking override_gas w = Ok r w' ->
  exists vi,
    read (st w) (shardify EXECUTION_STATE lb) TXINDEX = inl vi /\
    read (st w') (shardify EXECUTION_STATE lb) TXINDEX
      = inl (encode_int32 (big_endian_to_int vi + 1)) /\
    big_endian_to_int (encode_int32 (big_endian_to_int vi + 1))
      = big_endian_to_int vi + 1.
Proof.
  intros H. unfold tx_state_transition in H.
  inv_bind H as pre wp Hpro.
  assert (Hrt : forall vi, big_endian_to_int (encode_int32 (big_endian_to_int vi + 1))
                           = big_endian_to_int vi + 1).
  { intros vi. apply big_endian_to_int_encode_int32.
    pose proof (big_endian_to_int_nonneg vi). lia. }
  destruct pre as [[txindex gas_remaining]|].
  - apply tx_prologue_inv in Hpro as (ex & lg & Hex & Hlg & Hti & _).
    exists (view (st w) ex (canon TXINDEX)).
    split; [by apply read_view|]. split; [|apply Hrt].
    rewrite (read_view _ _ _ _ Hex). f_equal. rewrite <- Hti.
    inv_bind H as deploy wd Hd. inv_bind H as start ws Hs.
    destruct start as [start|].
    + inv_bind H as t w2 Hexec. destruct t as [[result g] data].
      unfold tx_epilogue in H.
      inv_bind H as u1 wc Hc. inv_bind H as u2 w3 H3. inv_bind H as logs w4 H4.
      inv_bind H as status w5 H5. inv_bind H as u6 w6 H6.
      inv_bind H as u7 w7 H7. apply on_set_inv in H7 as (ex' & Hex' & V7).
      assert (ex' = ex) by congruence. subst ex'.
      inversion H; subst. rewrite V7. by rewrite decide_True.
    + inversion H; subst r w'; clear H.
      destruct deploy; [|discriminate].
      unfold tx_deploy in Hs. inv_bind Hs as t w2 Hmsg.
      destruct t as [[result g] data].
      destruct (result =? 0).
      * inv_bind Hs as l wa Ha. inv_bind Hs as u wb Hb. inv_bind Hs as u' wc Hc.
        apply on_set_inv in Hc as (ex' & Hex' & V).
        assert (ex' = ex) by congruence. subst ex'.
        inversion Hs; subst. rewrite V. by rewrite decide_True.
      * inv_bind Hs as code wa Ha. inv_bind Hs as u wb Hb. discriminate.
  - inversion H; subst r w'; clear H.
    apply tx_prologue_skip_inv in Hpro as (ex & Hex & V).
    exists (view (st w) ex (canon TXINDEX)).
    split; [by apply read_view|]. split; [|apply Hrt].
    rewrite (read_view _ _ _ _ Hex). by f_equal.
Qed.

(** X17: gas is debited for what the execution used. When
    [tx_state_transition] completes an execution, it went through its
    stages as below: the prologue read the gas remaining, the execution
    started with [start] gas, and the call of [apply_msg] made by
    [tx_execute] returned [left_over] gas. That gas lies between 0 and
    [start], which is at most [tx.exec_gas]; [tx.exec_gas] was covered by
    the gas remaining at the start; and [(_EXSTATE, GAS_REMAINING)] holds
    the gas remaining at the start minus [tx.exec_gas] plus the gas the
    call returned: it never grows and never goes below zero. *)
Theorem tx_gas_accounting depth tx lb rb breaking override_gas w data w' :
  (forall ex lg,
     normalize_address (shardify EXECUTION_STATE lb) = Some ex ->
     normalize_address (shardify LOG lb) = Some lg -> lg <> ex) ->
  canon TXINDEX <> canon GAS_REMAINING ->
  tx_state_transition depth tx lb rb breaking override_gas w = Ok (Some data) w' ->
  exists vg txindex w1 deploy w2 start w3 result left_over w4,
    read (st w) (shardify EXECUTION_STATE lb) GAS_REMAINING = inl vg /\
    tx_prologue tx lb rb w = Ok (Some (txindex, big_endian_to_int vg)) w1 /\
    tx_deploy_needed tx w1 = Ok deploy w2 /\
    (if (deploy : bool)
     then tx_deploy depth tx lb rb breaking override_gas txindex
     else ret (Some (Z.min (exec_gas tx) override_gas))) w2 = Ok (Some start) w3 /\
    tx_execute depth tx lb breaking txindex start w3
      = Ok (result, left_over, data) w4 /\
    0 <= left_over <= start /\ start <= exec_gas tx /\
    exec_gas tx <= big_endian_to_int vg /\
    read (st w') (shardify EXECUTION_STATE lb) GAS_REMAINING
      = inl (encode_int32 (big_endian_to_int vg - exec_gas tx + left_over)) /\
    0 <= big_endian_to_int vg - exec_gas tx + left_over <= big_endian_to_int vg.
Proof.
  intros Hdist Hkeys H. unfold tx_state_transition in H.
  inv_bind H as pre wp Hpro.
  destruct pre as [[txindex gas_remaining]|]; [|discriminate].
  pose proof Hpro as Hpro0.
  assert (Hcover : exec_gas tx <= gas_remaining).
  { unfold tx_prologue in Hpro.
    inv_bind Hpro as v1 wa Ha. inv_bind Hpro as v2 wb Hb.
    destruct (_ - exec_gas tx <? 0) eqn:Hlt.
    { inv_bind Hpro as l wc Hc. inv_bind Hpro as u wd Hd.
      inv_bind Hpro as u' we He. discriminate. }
    destruct (negb _).
    { inv_bind Hpro as l wc Hc. inv_bind Hpro as u wd Hd.
      inv_bind Hpro as u' we He. discriminate. }
    inv_bind Hpro as u wc Hc. inv_bind Hpro as u' wd Hd.
    inversion Hpro; subst. apply Z.ltb_ge in Hlt. lia. }
  apply tx_prologue_inv in Hpro as (ex & lg & Hex & Hlg & _ & Hgr).
  pose proof (Hdist ex lg Hex Hlg) as Hne.
  inv_bind H as deploy wd Hd. inv_bind H as start ws Hs.
  destruct start as [start|]; [|discriminate].
  inv_bind H as t w2 Hexec. destruct t as [[result g] data'].
  unfold tx_epilogue in H.
  inv_bind H as u1 wc Hc. apply assert_Ok in Hc as [Hb ->].
  apply andb_true_iff in Hb as [Hb Hb3]. apply andb_true_iff in Hb as [Hb1 Hb2].
  apply Z.leb_le in Hb1, Hb2, Hb3.
  inv_bind H as u2 w3 H3. apply on_set_inv in H3 as (ex' & Hex' & V3).
  assert (ex' = ex) by congruence. subst ex'.
  inv_bind H as logs w4 H4. apply on_get_inv in H4 as (lg' & Hlg' & _ & V4).
  inv_bind H as status w5 H5. apply lift_opt_Ok in H5 as [_ ->].
  inv_bind H as u6 w6 H6. apply on_set_inv in H6 as (lg2 & Hlg2 & V6).
  assert (lg2 = lg) by congruence. subst lg2.
  inv_bind H as u7 w7 H7. apply on_set_inv in H7 as (ex' & Hex'' & V7).
  assert (ex' = ex) by congruence. subst ex'.
  inversion H; subst data' w7; clear H.
  exists (view (st w) ex (canon GAS_REMAINING)), txindex, wp, deploy, wd, start, ws,
    result, g, w2.
  rewrite <- Hgr.
  split; [by apply read_view|]. split; [done|]. split; [done|]. split; [done|].
  split; [done|]. split; [lia|]. split; [lia|]. split; [done|].
  split; [|lia].
  rewrite (read_view _ _ _ _ Hex). f_equal.
  rewrite V7. rewrite decide_False by (intros [? ?]; congruence).
  rewrite V6. rewrite decide_False by (intros [? ?]; congruence).
  rewrite V4, V3. by rewrite decide_True.
Qed.

End TxMore.

(** ** What transactions and blocks leave alone *)

Section TransitionFrames.
Context {E : Env} {EL : EnvLaws E}.

Lemma on_get_frame a k w :
  call_frame VMExt w (res_world (on_state (get_storage a k) w)).
Proof. apply on_state_frame, get_storage_wf. Qed.

Lemma on_set_frame a k v w :
  call_frame VMExt w (res_world (on_state (set_storage a k v) w)).
Proof. apply on_state_frame, set_storage_wf. Qed.

Lemma on_root_frame w : call_frame VMExt w (res_world (on_state root w)).
Proof. apply on_state_frame, root_wf. Qed.

Lemma lift_opt_frame {A} e (o : option A) (w : World) :
  call_frame VMExt w (res_world (lift_opt e o w)).
Proof. destruct o; apply call_frame_refl. Qed.

Lemma assert_frame b (w : World) : call_frame VMExt w (res_world (assert b w)).
Proof. destruct b; apply call_frame_refl. Qed.

Lemma status_log_frame n (w : World) :
  call_frame VMExt w (res_world (status_log n w)).
Proof.
  unfold status_log. apply call_frame_bind; [apply lift_opt_frame|].
  intros; apply call_frame_refl.
Qed.

Ltac frame_steps :=
  repeat first
    [ apply call_frame_refl
    | apply on_get_frame | apply on_set_frame | apply on_root_frame
    | apply status_log_frame | apply lift_opt_frame | apply assert_frame
    | apply apply_msg_frame
    | apply on_state_frame, get_code_wf
    | apply on_state_frame, put_code_wf
    | (apply call_frame_bind; [|intros ? ? _]) ].

Lemma tx_prologue_frame tx lb rb w :
  call_frame VMExt w (res_world (tx_prologue tx lb rb w)).
Proof.
  unfold tx_prologue.
  apply call_frame_bind; [frame_steps|intros v1 w1 _].
  apply call_frame_bind; [frame_steps|intros v2 w2 _].
  destruct (_ <? 0); [frame_steps|].
  destruct (negb _); frame_steps.
Qed.

Lemma tx_deploy_frame depth tx lb rb b og txindex w :
  call_frame VMExt w (res_world (tx_deploy depth tx lb rb b og txindex w)).
Proof.
  unfold tx_deploy.
  apply call_frame_bind; [frame_steps|intros [[result g] data] w1 _].
  destruct (result =? 0); frame_steps.
Qed.

Lemma tx_state_transition_frame depth tx lb rb b og w :
  call_frame VMExt w (res_world (tx_state_transition depth tx lb rb b og w)).
Proof.
  unfold tx_state_transition.
  apply call_frame_bind; [apply tx_prologue_frame|intros pre w1 _].
  destruct pre as [[txindex gas_remaining]|]; [|frame_steps].
  apply call_frame_bind.
  { unfold tx_deploy_needed. case_decide; frame_steps. }
  intros deploy w2 _.
  apply call_frame_bind.
  { destruct deploy; [apply tx_deploy_frame|frame_steps]. }
  intros start w3 _. destruct start as [start|]; [|frame_steps].
  apply call_frame_bind.
  { unfold tx_execute. frame_steps. }
  intros [[result g] data] w4 _. unfold tx_epilogue. frame_steps.
Qed.

(** X18: a transaction leaves the rest of the process alone. However
    [tx_state_transition] ends, it has kept the State under execution
    well-formed and has touched neither the State held by [EmptyVMExt] nor
    the determinism memo. *)
Theorem tx_keeps depth tx lb rb breaking override_gas w :
  let w' := res_world (tx_state_transition depth tx lb rb breaking override_gas w) in
  (wf (st w) -> wf (st w')) /\
  empty_st w' = empty_st w /\
  transition_cache_map w' = transition_cache_map w.
Proof.
  cbn zeta.
  destruct (tx_state_transition_frame depth tx lb rb breaking override_gas w)
    as (A & B & _ & D).
  done.
Qed.

Lemma apply_transactions_frame depth g lb rb : forall w,
  call_frame VMExt w (res_world (apply_transactions depth g lb rb w)).
Proof.
  induction g as [|tx g IH]; intros w; cbn [apply_transactions]; [frame_steps|].
  apply call_frame_bind; [apply tx_state_transition_frame|intros; apply IH].
Qed.

Lemma assert_logs_frame lg n : forall i w,
  call_frame VMExt w (res_world (assert_logs lg i n w)).
Proof.
  induction n as [|n IH]; intros i w; cbn [assert_logs]; [frame_steps|].
  apply call_frame_bind; [frame_steps|intros l w1 _].
  apply call_frame_bind; [frame_steps|intros; apply IH].
Qed.

Lemma process_groups_frame depth block pairs : forall w,
  call_frame VMExt w (res_world (process_groups depth block pairs w)).
Proof.
  induction pairs as [|[s g] pairs IH]; intros w; cbn [process_groups];
    [frame_steps|].
  apply call_frame_bind; [frame_steps|intros u1 w1 _].
  apply call_frame_bind; [frame_steps|intros ig w2 _].
  apply call_frame_bind; [unfold initialize_with_gas_limit; frame_steps|intros u3 w3 _].
  apply call_frame_bind; [frame_steps|intros u4 w4 _].
  apply call_frame_bind; [apply apply_transactions_frame|intros u5 w5 _].
  apply call_frame_bind; [frame_steps|intros v w6 _].
  apply call_frame_bind; [frame_steps|intros u7 w7 _].
  apply call_frame_bind; [apply assert_logs_frame|intros; apply IH].
Qed.

Lemma block_prologue_frame depth block w :
  call_frame VMExt w (res_world (block_prologue depth block w)).
Proof.
  unfold block_prologue.
  apply call_frame_bind; [frame_steps|intros pre w1 _].
  apply call_frame_bind; [frame_steps|intros v w2 _].
  apply call_frame_bind.
  { destruct (negb _); frame_steps. }
  intros u3 w3 _.
  apply call_frame_bind; [frame_steps|intros u4 w4 _].
  apply call_frame_bind.
  { destruct block as [b|]; [|frame_steps].
    apply call_frame_bind; [frame_steps|intros; apply process_groups_frame]. }
  intros u5 w5 _. frame_steps.
Qed.

Lemma update_rng_seed_frame blknumber blkproposer w :
  call_frame VMExt w (res_world (update_rng_seed blknumber blkproposer w)).
Proof.
  unfold update_rng_seed.
  apply call_frame_bind; [destruct (negb _); frame_steps|intros p w1 _].
  frame_steps.
Qed.

(** X19: a block transition leaves the rest of the process alone.
    However [block_state_transition] ends, it has kept the State under
    execution well-formed, has not touched the State held by [EmptyVMExt],
    and has changed no entry the determinism memo already had. *)
Theorem block_keeps depth block w :
  let w' := res_world (block_state_transition depth block w) in
  (wf (st w) -> wf (st w')) /\
  empty_st w' = empty_st w /\
  forall key r, transition_cache_map w !! key = Some r ->
                transition_cache_map w' !! key = Some r.
Proof.
  cbn zeta. unfold block_state_transition. rewrite res_world_bind.
  pose proof (block_prologue_frame depth block w) as F1.
  destruct (block_prologue depth block w) as [[[pre blknumber] blkproposer] w1|e w1];
    cbn [res_world] in F1.
  2:{ destruct F1 as (A & B & _ & D). split; [done|]. split; [done|].
      intros key r. by rewrite A. }
  rewrite res_world_bind.
  pose proof (update_rng_seed_frame blknumber blkproposer w1) as F2.
  pose proof (call_frame_trans _ _ _ _ F1 F2) as F12. clear F1 F2.
  destruct (update_rng_seed blknumber blkproposer w1) as [u w2|e w2];
    cbn [res_world] in F12.
  2:{ destruct F12 as (A & B & _ & D). split; [done|]. split; [done|].
      intros key r. by rewrite A. }
  destruct F12 as (A & B & _ & D).
  unfold consistency_check. rewrite res_world_bind. cbn [gets].
  pose proof (on_root_frame w2) as F3.
  destruct (transition_cache_map w2 !! _) as [r'|] eqn:Hl; rewrite res_world_bind.
  - destruct (on_state root w2) as [r w3|e w3]; cbn [res_world] in F3;
      destruct F3 as (A3 & B3 & _ & D3).
    + destruct (bool_decide (r' = r)); cbn [assert ret raise res_world];
        (split; [auto|]; split; [congruence|]; intros key r0; by rewrite A3, A).
    + split; [auto|]. split; [congruence|]. intros key r0. by rewrite A3, A.
  - destruct (on_state root w2) as [r w3|e w3]; cbn [res_world] in F3;
      destruct F3 as (A3 & B3 & _ & D3).
    + unfold modify. cbn [res_world st empty_st transition_cache_map
                          set_transition_cache_map].
      split; [auto|]. split; [congruence|]. intros key r0 Hk.
      rewrite A3. rewrite <- A in Hk.
      rewrite lookup_insert_ne; [done|]. intros <-. congruence.
    + split; [auto|]. split; [congruence|]. intros key r0. by rewrite A3, A.
Qed.

End TransitionFrames.

(** ** The block's bookkeeping *)

Section BlockMore.
Context {E : Env} {EL : EnvLaws E}.

Lemma frame_step_wf {A} (m : M World A) w a w' :
  call_frame VMExt w (res_world (m w)) -> m w = Ok a w' ->
  wf (st w) -> wf (st w').
Proof. intros (_ & _ & _ & D) H. rewrite H in D. exact D. Qed.

Lemma consistency_check_view pre block w u w' :
  wf (st w) -> consistency_check pre block w = Ok u w' ->
  forall a k, view (st w') a k = view (st w) a k.
Proof.
  intros Hwf H. unfold consistency_check in H.
  inv_bind H as tcm wc Hc'. unfold gets in Hc'. inversion Hc'; subst tcm wc; clear Hc'.
  destruct (_ !! _).
  - inv_bind H as r w3 H3. apply assert_Ok in H as [_ ->].
    by destruct (on_root_view_wf _ _ _ Hwf H3).
  - inv_bind H as r w3 H3. unfold modify in H. inversion H; subst.
    cbn [st set_transition_cache_map].
    by destruct (on_root_view_wf _ _ _ Hwf H3).
Qed.

Lemma update_rng_seed_view blknumber blkproposer w u w' :
  update_rng_seed blknumber blkproposer w = Ok u w' ->
  exists rs, normalize_address RNGSEEDS = Some rs /\
    forall a k, (a, k) <> (rs, encode_int32 blknumber) ->
                view (st w') a k = view (st w) a k.
Proof.
  intros H. unfold update_rng_seed in H.
  inv_bind H as prevseed wa Ha. inv_bind H as c wb Hb.
  apply on_get_inv in Hb as (ca & Hca & Hc & Vb).
  apply on_set_inv in H as (rs & Hrs & V2). cbn [canon] in V2.
  assert (Va : forall x y, view (st wa) x y = view (st w) x y).
  { destruct (blknumber =? 0); cbn [negb] in Ha.
    - inversion Ha; by subst.
    - by apply on_get_inv in Ha as (rs' & Hrs' & _ & Va). }
  exists rs. split; [done|]. intros a k Hne.
  rewrite V2. rewrite decide_False by (intros [-> ->]; by apply Hne).
  by rewrite Vb, Va.
Qed.

(** X20: a block transition that returns has advanced the chain by one.
    On a well-formed state where BLKNUMBER, BLOCKHASHES and RNGSEEDS are
    three different accounts, with [n] the block number stored at
    [(BLKNUMBER, 0)] before the call: the block, when there is one, carries
    the number [n]; afterwards [(BLKNUMBER, 0)] holds [n + 1] and
    [(BLOCKHASHES, n)] holds the hash of the block's header, or 32 zero
    bytes for an empty slot. *)
Theorem block_advances_number depth block w w' bn bh rs :
  wf (st w) ->
  normalize_address BLKNUMBER = Some bn ->
  normalize_address BLOCKHASHES = Some bh ->
  normalize_address RNGSEEDS = Some rs ->
  bn <> bh -> bn <> rs -> bh <> rs ->
  block_state_transition depth block w = Ok tt w' ->
  exists v0, read (st w) BLKNUMBER (PInt 0) = inl v0 /\
    let n := big_endian_to_int v0 in
    match block with Some b => number (header b) = n | None => True end /\
    read (st w') BLKNUMBER (PInt 0) = inl (encode_int32 (n + 1)) /\
    big_endian_to_int (encode_int32 (n + 1)) = n + 1 /\
    read (st w') BLOCKHASHES (PStr (encode_int32 n))
    = inl match block with
          | Some b => sha3 (rlp_encode_header (header b))
          | None => repeat_byte zero_byte 32
          end.
Proof.
  intros Hwf Hbn Hbh Hrs Hnh Hnr Hhr H.
  unfold block_state_transition in H.
  inv_bind H as [[pre blknumber] blkproposer] w1 Hpro.
  inv_bind H as u w2 Hseed.
  pose proof (frame_step_wf _ _ _ _ (block_prologue_frame depth block w) Hpro Hwf) as Hwf1.
  pose proof (frame_step_wf _ _ _ _ (update_rng_seed_frame _ _ w1) Hseed Hwf1) as Hwf2.
  pose proof (consistency_check_view _ _ _ _ _ Hwf2 H) as V3.
  apply update_rng_seed_view in Hseed as (rs' & Hrs' & V2).
  assert (rs' = rs) as -> by congruence.
  unfold block_prologue in Hpro.
  inv_bind Hpro as p0 wa Ha. inv_bind Hpro as v0 wb Hb.
  inv_bind Hpro as u1 wc Hc. inv_bind Hpro as u2 wd Hd.
  inv_bind Hpro as u3 we He. inv_bind Hpro as u4 wf' Hf.
  inv_bind Hpro as u5 wg Hg. inversion Hpro; subst; clear Hpro.
  destruct (on_root_view_wf _ _ _ Hwf Ha) as [_ Va].
  apply on_get_inv in Hb as (bn' & Hbn' & Hv0 & _).
  assert (bn' = bn) as -> by congruence.
  rewrite Va in Hv0.
  apply on_set_inv in Hf as (bh' & Hbh' & Vf).
  assert (bh' = bh) as -> by congruence.
  apply on_set_inv in Hg as (bn' & Hbn'' & Vg).
  assert (bn' = bn) as -> by congruence.
  cbn [canon] in *.
  exists v0. split; [rewrite (read_view _ _ _ _ Hbn); cbn [canon]; by rewrite Hv0|].
  cbn zeta. split.
  { destruct block as [b|]; [|done].
    inv_bind He as u6 wh Hh. apply assert_Ok in Hh as [Hh _].
    by apply Z.eqb_eq in Hh. }
  split.
  { rewrite (read_view _ _ _ _ Hbn). cbn [canon]. f_equal.
    rewrite V3, V2 by congruence. rewrite Vg. by rewrite decide_True. }
  split.
  { apply big_endian_to_int_encode_int32.
    pose proof (big_endian_to_int_nonneg v0). lia. }
  rewrite (read_view _ _ _ _ Hbh). cbn [canon]. f_equal.
  rewrite V3, V2 by congruence. rewrite Vg.
  rewrite decide_False by (intros [? _]; congruence).
  rewrite Vf. by rewrite decide_True.
Qed.

(** X21: a block whose number is not the one the state expects is
    refused. On a well-formed state where STATEROOTS and PROPOSER
    normalize and BLKNUMBER is an account of its own, a block whose header
    number differs from the number stored at [(BLKNUMBER, 0)] makes
    [block_state_transition] raise [AssertionError], and the stored block
    number is still the one it was. *)
Theorem wrong_number_refused depth b w v0 bn sr pr :
  wf (st w) ->
  normalize_address BLKNUMBER = Some bn ->
  normalize_address STATEROOTS = Some sr ->
  normalize_address PROPOSER = Some pr ->
  bn <> sr -> bn <> pr ->
  read (st w) BLKNUMBER (PInt 0) = inl v0 ->
  number (header b) <> big_endian_to_int v0 ->
  exists w', block_state_transition depth (Some b) w = Raise AssertionError w' /\
             read (st w') BLKNUMBER (PInt 0) = inl v0.
Proof.
  intros Hwf Hbn Hsr Hpr Hns Hnp Hread Hne.
  rewrite (read_view _ _ _ _ Hbn) in Hread. cbn [canon] in Hread.
  injection Hread as Hv0.
  destruct (root_total (st w)) as (r & s1 & Hroot).
  assert (Ha : on_state root w = Ok r (set_st s1 w)) by by apply on_state_eq_Ok.
  destruct (on_root_view_wf _ _ _ Hwf Ha) as [_ Va].
  destruct (on_get_Ok BLKNUMBER (PInt 0) (set_st s1 w) bn Hbn) as (wb & Hb & Vb).
  cbn [canon] in Hb. rewrite Va, Hv0 in Hb.
  set (n := big_endian_to_int v0) in *.
  assert (Hc : exists wc,
    (if negb (n =? 0)
     then let* r := on_state root in
          on_state (set_storage STATEROOTS (PStr (encode_int32 (n - 1))) (PStr r))
     else ret tt) wb = Ok tt wc /\
    view (st wc) bn (encode_int32 0) = v0).
  { destruct (n =? 0); cbn [negb].
    - exists wb. split; [done|]. by rewrite Vb, Va.
    - destruct (root_total (st wb)) as (r2 & s2 & Hroot2).
      assert (Hr2 : on_state root wb = Ok r2 (set_st s2 wb)) by by apply on_state_eq_Ok.
      assert (Hwfb : wf (st wb)).
      { eapply (frame_step_wf _ _ _ _ (on_get_frame BLKNUMBER (PInt 0) (set_st s1 w)) Hb).
        by destruct (on_root_view_wf _ _ _ Hwf Ha). }
      destruct (on_root_view_wf _ _ _ Hwfb Hr2) as [_ V2].
      destruct (on_set_Ok STATEROOTS (PStr (encode_int32 (n - 1))) (PStr r2)
                  (set_st s2 wb) sr Hsr) as (wc & Hset & Vc).
      exists wc. split; [by rewrite (bind_eq_Ok _ _ _ _ _ Hr2)|].
      rewrite Vc. rewrite decide_False by (intros [? _]; congruence).
      by rewrite V2, Vb, Va. }
  destruct Hc as (wc & Hc & Vc).
  destruct (on_set_Ok PROPOSER (PInt 0) (PStr (proposer (header b))) wc pr Hpr)
    as (wd & Hd & Vd).
  exists wd. split.
  - unfold block_state_transition. apply bind_eq_Raise.
    unfold block_prologue.
    rewrite (bind_eq_Ok _ _ _ _ _ Ha). rewrite (bind_eq_Ok _ _ _ _ _ Hb).
    fold n. rewrite (bind_eq_Ok _ _ _ _ _ Hc). rewrite (bind_eq_Ok _ _ _ _ _ Hd).
    assert (Hnb : (number (header b) =? n) = false) by by apply Z.eqb_neq.
    apply bind_eq_Raise, bind_eq_Raise. by rewrite Hnb.
  - rewrite (read_view _ _ _ _ Hbn). cbn [canon]. f_equal.
    rewrite Vd. rewrite decide_False by (intros [? _]; congruence). done.
Qed.

End BlockMore.

(** ** Empty slots *)

Section EmptySlot.
Context {E : Env} {EL : EnvLaws E}.

Lemma on_root_Ok w : exists r w', on_state root w = Ok r w'.
Proof.
  destruct (root_total (st w)) as (r & s1 & H).
  exists r, (set_st s1 w). by apply on_state_eq_Ok.
Qed.

Lemma update_rng_seed_Ok blknumber blkproposer w rs ca :
  normalize_address RNGSEEDS = Some rs ->
  normalize_address CASPER = Some ca ->
  exists w', update_rng_seed blknumber blkproposer w = Ok tt w'.
Proof.
  intros Hrs Hca. unfold update_rng_seed.
  assert (Hp : exists p wa,
    (if negb (blknumber =? 0)
     then on_state (get_storage RNGSEEDS (PStr (encode_int32 (blknumber - 1))))
     else ret (repeat_byte zero_byte 32)) w = Ok p wa).
  { destruct (negb _).
    - destruct (on_get_Ok RNGSEEDS (PStr (encode_int32 (blknumber - 1))) w rs Hrs)
        as (wa & Ha & _). eauto.
    - unfold ret. eauto. }
  destruct Hp as (p & wa & Hp). rewrite (bind_eq_Ok _ _ _ _ _ Hp).
  destruct (on_get_Ok CASPER (PInt 0) wa ca Hca) as (wb & Hb & _).
  rewrite (bind_eq_Ok _ _ _ _ _ Hb).
  destruct (on_set_Ok RNGSEEDS (PStr (encode_int32 blknumber))
              (PInt (big_endian_to_int (sha3 (p +:+ blkproposer))
                     - big_endian_to_int (sha3 (p +:+ blkproposer)) mod 2 ^ 64
                     + big_endian_to_int (view (st wa) ca (canon (PInt 0)))))
              wb rs Hrs) as (wc & Hc & _).
  eauto.
Qed.

Lemma block_prologue_none_Ok depth w bn sr pr bh :
  normalize_address BLKNUMBER = Some bn ->
  normalize_address STATEROOTS = Some sr ->
  normalize_address PROPOSER = Some pr ->
  normalize_address BLOCKHASHES = Some bh ->
  exists pre n w',
    block_prologue depth None w
    = Ok (pre, n, repeat_byte zero_byte ADDR_BYTES) w'.
Proof.
  intros Hbn Hsr Hpr Hbh. unfold block_prologue.
  destruct (on_root_Ok w) as (pre & wa & Ha). rewrite (bind_eq_Ok _ _ _ _ _ Ha).
  destruct (on_get_Ok BLKNUMBER (PInt 0) wa bn Hbn) as (wb & Hb & _).
  rewrite (bind_eq_Ok _ _ _ _ _ Hb).
  set (n := big_endian_to_int _).
  assert (Hc : exists wc,
    (if negb (n =? 0)
     then let* r := on_state root in
          on_state (set_storage STATEROOTS (PStr (encode_int32 (n - 1))) (PStr r))
     else ret tt) wb = Ok tt wc).
  { destruct (negb _).
    - destruct (on_root_Ok wb) as (r2 & w2 & Hr2).
      rewrite (bind_eq_Ok _ _ _ _ _ Hr2).
      destruct (on_set_Ok STATEROOTS (PStr (encode_int32 (n - 1))) (PStr r2) w2 sr Hsr)
        as (wc & Hset & _). eauto.
    - unfold ret. eauto. }
  destruct Hc as (wc & Hc). rewrite (bind_eq_Ok _ _ _ _ _ Hc).
  destruct (on_set_Ok PROPOSER (PInt 0) (PStr (repeat_byte zero_byte ADDR_BYTES)) wc pr Hpr)
    as (wd & Hd & _).
  rewrite (bind_eq_Ok _ _ _ _ _ Hd).
  unfold bind at 1. unfold ret at 1.
  destruct (on_set_Ok BLOCKHASHES (PStr (encode_int32 n))
              (PStr (repeat_byte zero_byte 32)) wd bh Hbh) as (we & He & _).
  rewrite (bind_eq_Ok _ _ _ _ _ He).
  destruct (on_set_Ok BLKNUMBER (PInt 0) (PStr (encode_int32 (n + 1))) we bn Hbn)
    as (wf' & Hf & _).
  rewrite (bind_eq_Ok _ _ _ _ _ Hf). unfold ret. eauto.
Qed.

(** X22: an empty slot always goes through. When the six system
    addresses the transition touches normalize and the determinism memo has
    no record for this pre-state (none under [pre], the root hash of the
    state at the start, followed by [NONE]; whatever else it holds),
    [block_state_transition(state, None)] returns, whatever the state
    holds, and leaves exactly one new record in the memo: the root hash
    after the transition, under that key. *)
Theorem empty_slot_completes depth w pre bn sr pr bh rs ca :
  normalize_address BLKNUMBER = Some bn ->
  normalize_address STATEROOTS = Some sr ->
  normalize_address PROPOSER = Some pr ->
  normalize_address BLOCKHASHES = Some bh ->
  normalize_address RNGSEEDS = Some rs ->
  normalize_address CASPER = Some ca ->
  res_value (on_state root w) = inl pre ->
  transition_cache_map w !! (pre +:+ "NONE") = None ->
  exists w',
    block_state_transition depth None w = Ok tt w' /\
    transition_cache_map w'
    = <[pre +:+ "NONE" := trie_root_hash (root_hash (st w'))]> (transition_cache_map w) /\
    cache (st w') = ∅.
Proof.
  intros Hbn Hsr Hpr Hbh Hrs Hca Hroot0 Hmemo.
  destruct (block_prologue_none_Ok depth w bn sr pr bh Hbn Hsr Hpr Hbh)
    as (pre' & n & w1 & Hpro).
  assert (pre' = pre) as ->.
  { pose proof Hpro as Hp. unfold block_prologue in Hp. inv_bind Hp as p0 wa Ha.
    inv_bind Hp as v0 wb Hb.
    inv_bind Hp as u1 wc Hc. inv_bind Hp as u2 wd Hd.
    inv_bind Hp as u3 we He. inv_bind Hp as u4 wf' Hf.
    inv_bind Hp as u5 wg Hg. inversion Hp; subst.
    rewrite Ha in Hroot0. cbn [res_value] in Hroot0. congruence. }
  destruct (update_rng_seed_Ok n (repeat_byte zero_byte ADDR_BYTES) w1 rs ca Hrs Hca)
    as (w2 & Hseed).
  destruct (block_prologue_frame depth None w) as (T1 & _).
  rewrite Hpro in T1. cbn [res_world] in T1.
  destruct (update_rng_seed_frame n (repeat_byte zero_byte ADDR_BYTES) w1) as (T2 & _).
  rewrite Hseed in T2. cbn [res_world] in T2.
  destruct (root_total (st w2)) as (r & s3 & Hroot).
  assert (H3 : on_state root w2 = Ok r (set_st s3 w2)) by by apply on_state_eq_Ok.
  exists (set_transition_cache_map
            (<[pre +:+ "NONE" := r]> (transition_cache_map w2)) (set_st s3 w2)).
  unfold root in Hroot. inv_bind Hroot as u s4 Hcommit.
  unfold gets in Hroot. inversion Hroot; subst r s4; clear Hroot.
  destruct (commit_inv _ _ _ Hcommit) as (_ & Hcache & _).
  split.
  - unfold block_state_transition.
    rewrite (bind_eq_Ok _ _ _ _ _ Hpro). rewrite (bind_eq_Ok _ _ _ _ _ Hseed).
    unfold consistency_check. unfold bind at 1. unfold gets at 1.
    rewrite T2, T1, Hmemo. rewrite (bind_eq_Ok _ _ _ _ _ H3).
    unfold modify. cbn [transition_cache_map set_st]. by rewrite T2, T1.
  - cbn [transition_cache_map set_transition_cache_map st set_st].
    by rewrite T2, T1.
Qed.

End EmptySlot.

(** ** The constructor of Block *)

Section BlockInitMore.
Context {E : Env}.

Lemma check_pair_inv prevright s g (h h' : Heap) p :
  check_pair prevright s g h = Ok p h' ->
  p = right_bound (h s) /\
  h' = with_intrinsic_gas h s (sumZ (map tx_intrinsic_gas g)) /\
  transaction_hash (h s) = sha3 (rlp_encode_txgroup g) /\
  left_bound (h s) mod (right_bound (h s) - left_bound (h s)) = 0 /\
  0 <= prevright <= left_bound (h s) /\
  left_bound (h s) < right_bound (h s) <= MAXSHARDS /\
  Forall (fun tx => left_bound (h s) <= tx_left_bound tx /\
                    tx_left_bound tx < tx_right_bound tx <= right_bound (h s)) g.
Proof.
  intros H. unfold check_pair in H.
  inv_bind H as o h1 H1. unfold gets in H1. inversion H1; subst o h1; clear H1.
  inv_bind H as u1 h1 H1. apply assert_Ok in H1 as [Hh ->].
  apply bool_decide_eq_true_1 in Hh.
  inv_bind H as al h1 H1. unfold divides_check in H1.
  destruct (_ =? 0) eqn:Hz; [discriminate|]. inversion H1; subst al h1; clear H1.
  inv_bind H as u2 h1 H1. apply assert_Ok in H1 as [Hmod ->].
  apply Z.eqb_eq in Hmod.
  inv_bind H as u3 h1 H1. apply assert_Ok in H1 as [Hb ->].
  inv_bind H as u4 h1 H1. apply assert_Ok in H1 as [Htx ->].
  inv_bind H as u5 h1 H1. unfold heap_set_intrinsic_gas, modify in H1.
  inversion H1; subst u5 h1; clear H1. inversion H; subst; clear H.
  repeat (apply andb_true_iff in Hb as [Hb ?]).
  split; [done|]. split; [done|]. split; [done|]. split; [done|].
  split; [lia|]. split; [lia|].
  clear -Htx. induction g as [|tx g IH]; [constructor|].
  cbn [forallb] in Htx. apply andb_true_iff in Htx as [Htx Hg].
  constructor; [|by apply IH].
  repeat (apply andb_true_iff in Htx as [Htx ?]). lia.
Qed.

Lemma with_intrinsic_gas_fields (h : Heap) s g i :
  gas_limit (with_intrinsic_gas h s g i) = gas_limit (h i) /\
  left_bound (with_intrinsic_gas h s g i) = left_bound (h i) /\
  right_bound (with_intrinsic_gas h s g i) = right_bound (h i) /\
  transaction_hash (with_intrinsic_gas h s g i) = transaction_hash (h i).
Proof. unfold with_intrinsic_gas. by case_decide; subst. Qed.

(** What [check_pairs] leaves of the store: the serialized fields of every
    object, every object it did not walk, and a left bound of at least
    [prevright] on each object it walked. *)
Lemma check_pairs_store pairs : forall prevright (h h' : Heap) u,
  check_pairs prevright pairs h = Ok u h' ->
  (forall i, gas_limit (h' i) = gas_limit (h i) /\
             left_bound (h' i) = left_bound (h i) /\
             right_bound (h' i) = right_bound (h i) /\
             transaction_hash (h' i) = transaction_hash (h i)) /\
  (forall i, i ∉ pairs.*1 -> h' i = h i) /\
  (forall i, i ∈ pairs.*1 -> prevright <= left_bound (h i)).
Proof.
  induction pairs as [|[s g] rest IH]; intros prevright h h' u H;
    cbn [check_pairs] in H.
  - inversion H; subst. split; [done|]. split; [done|]. intros i Hi.
    by apply elem_of_nil in Hi.
  - inv_bind H as p h1 H1.
    apply check_pair_inv in H1 as (-> & -> & _ & _ & Hprev & Hlr & _).
    destruct (IH _ _ _ _ H) as (Hf & Hout & Hlow).
    split; [|split].
    + intros i. destruct (Hf i) as (-> & -> & -> & ->).
      apply with_intrinsic_gas_fields.
    + intros i Hi. cbn [fmap list_fmap fst] in Hi.
      apply not_elem_of_cons in Hi as [Hne Hi]. rewrite Hout by done.
      unfold with_intrinsic_gas. by rewrite decide_False.
    + intros i Hi. cbn [fmap list_fmap fst] in Hi.
      apply elem_of_cons in Hi as [->|Hi]; [lia|].
      specialize (Hlow i Hi).
      destruct (with_intrinsic_gas_fields h s (sumZ (map tx_intrinsic_gas g)) i)
        as (_ & Hl & _). rewrite Hl in Hlow. lia.
Qed.

Lemma check_pairs_valid pairs : forall prevright (h h' : Heap) u,
  check_pairs prevright pairs h = Ok u h' ->
  NoDup pairs.*1 /\
  pairs_valid prevright (map (fun '(s, g) => (h' s, g)) pairs).
Proof.
  induction pairs as [|[s g] rest IH]; intros prevright h h' u H.
  - split; [constructor|done].
  - pose proof H as Hall. cbn [check_pairs] in H. inv_bind H as p h1 H1.
    apply check_pair_inv in H1 as (-> & -> & Hh & Hmod & Hprev & Hlr & Htx).
    destruct (IH _ _ _ _ H) as (Hnd & Hrest).
    destruct (check_pairs_store _ _ _ _ _ H) as (Hf & Hout & Hlow).
    assert (Hs : s ∉ rest.*1).
    { intros Hin. specialize (Hlow s Hin).
      destruct (with_intrinsic_gas_fields h s (sumZ (map tx_intrinsic_gas g)) s)
        as (_ & Hl & _). rewrite Hl in Hlow. lia. }
    split; [cbn [fmap list_fmap fst]; by constructor|].
    cbn [map pairs_valid].
    destruct (Hf s) as (_ & Hl' & Hr' & Hh').
    destruct (with_intrinsic_gas_fields h s (sumZ (map tx_intrinsic_gas g)) s)
      as (_ & Hl & Hr & Hhh).
    rewrite Hl', Hr', Hh', Hl, Hr, Hhh.
    split; [done|]. split; [done|]. split; [done|]. split; [done|].
    split; [done|]. split; [|done].
    rewrite (Hout s Hs). unfold with_intrinsic_gas. by rewrite decide_True.
Qed.

Lemma zip_map_fst {A B C} (f : A -> C) (l : list A) : forall (k : list B),
  zip (map f l) k = map (fun '(a, b) => (f a, b)) (zip l k).
Proof.
  induction l as [|a l IH]; intros [|b k]; cbn; [done..|]. by rewrite IH.
Qed.

(** X23: what an accepted block satisfies. When the constructor returns
    in explicit mode, the block holds the header and the groups it was
    given and the summary objects as the constructor leaves them; the
    summaries that were paired with a group are pairwise different
    objects, and along them: the recorded hash is the hash of the group,
    the ranges are sorted, disjoint, non-empty, within [0, MAXSHARDS] and
    pass the alignment test, every transaction's range is non-empty and
    within its summary's, and the intrinsic gas recorded is the sum over
    the group. The sum of intrinsic gas over all summaries is defined and
    below GASLIMIT, and the header's root is the hash of the summaries. *)
Theorem explicit_block_valid hd txs groups (sums : list nat) num prop sg
    (h h' : Heap) b :
  Block_init (Some hd) txs (Some groups) (Some sums) num prop sg h = Ok b h' ->
  header b = hd /\ transaction_groups b = groups /\ summaries b = map h' sums /\
  NoDup (take (length groups) sums) /\
  pairs_valid 0 (zip (summaries b) (transaction_groups b)) /\
  (exists total, sum_intrinsic_gas (summaries b) = Some total /\ total < GASLIMIT) /\
  txroot (header b) = sha3 (rlp_encode_summaries (summaries b)).
Proof.
  intros H. unfold Block_init in H.
  inv_bind H as u h1 Hpairs.
  inv_bind H as objs h2 H2. unfold gets in H2. inversion H2; subst objs h2; clear H2.
  inv_bind H as total h2 H2. apply lift_opt_Ok in H2 as [Hsum ->].
  inv_bind H as u2 h2 H2. apply assert_Ok in H2 as [Hlt ->].
  inv_bind H as u3 h2 H2. apply assert_Ok in H2 as [Hroot ->].
  inversion H; subst; clear H. cbn [header transaction_groups summaries].
  apply Z.ltb_lt in Hlt. apply bool_decide_eq_true_1 in Hroot.
  destruct (check_pairs_valid _ _ _ _ _ Hpairs) as (Hnd & Hval).
  split; [done|]. split; [done|]. split; [done|].
  split.
  { assert (Hfst : (zip sums groups).*1 = take (length groups) sums).
    { clear. revert groups. induction sums as [|s sums IH]; intros [|g groups];
        cbn; [done..|]. f_equal. apply IH. }
    by rewrite <- Hfst. }
  split; [by rewrite zip_map_fst|].
  split; [eauto|done].
Qed.

(** The per-pair checks read the four serialized fields only. *)
Lemma pairs_pass_fields (h1 h2 : Heap) pairs : forall prevright,
  (forall i, left_bound (h1 i) = left_bound (h2 i) /\
             right_bound (h1 i) = right_bound (h2 i) /\
             transaction_hash (h1 i) = transaction_hash (h2 i)) ->
  pairs_pass prevright (map (fun '(s, g) => (h1 s, g)) pairs) ->
  pairs_pass prevright (map (fun '(s, g) => (h2 s, g)) pairs).
Proof.
  induction pairs as [|[s g] rest IH]; intros prevright Hf H; [done|].
  cbn [map pairs_pass] in *. destruct (Hf s) as (Hl & Hr & Hh).
  rewrite <- Hl, <- Hr, <- Hh.
  destruct H as (? & ? & ? & ? & ? & ?).
  split; [done|]. split; [done|]. split; [done|]. split; [done|].
  split; [done|]. by apply IH.
Qed.

Lemma pairs_valid_pass pairs : forall prevright,
  pairs_valid prevright pairs -> pairs_pass prevright pairs.
Proof.
  induction pairs as [|[s g] rest IH]; intros prevright H; [done|].
  cbn [pairs_valid pairs_pass] in *.
  destruct H as (? & ? & ? & ? & ? & _ & ?).
  split; [done|]. split; [done|]. split; [done|]. split; [done|].
  split; [done|]. by apply IH.
Qed.

Lemma Forall_bounds_forallb (o : TransactionGroupSummary) g :
  Forall (fun tx => left_bound o <= tx_left_bound tx /\
                    tx_left_bound tx < tx_right_bound tx <= right_bound o) g ->
  forallb (fun tx => (left_bound o <=? tx_left_bound tx)
                     && (tx_left_bound tx <? tx_right_bound tx)
                     && (tx_right_bound tx <=? right_bound o)) g = true.
Proof.
  induction 1 as [|tx g (H1 & H2 & H3) _ IH]; [done|].
  cbn [forallb]. rewrite IH.
  rewrite (proj2 (Z.leb_le _ _) H1), (proj2 (Z.ltb_lt _ _) H2),
    (proj2 (Z.leb_le _ _) H3). done.
Qed.

(** Pairs that pass the checks take the loop to its end. *)
Lemma check_pairs_pass pairs : forall prevright (h : Heap),
  pairs_pass prevright (map (fun '(s, g) => (h s, g)) pairs) ->
  exists h', check_pairs prevright pairs h = Ok tt h'.
Proof.
  induction pairs as [|[s g] rest IH]; intros prevright h H.
  - exists h. done.
  - cbn [map pairs_pass] in H. destruct H as (Hh & Hmod & Hprev & Hlr & Htx & Hrest).
    cbn [check_pairs].
    rewrite (bind_eq_Ok _ _ _ _ _
               (check_pair_Ok prevright s g h Hh ltac:(lia) Hmod Hprev Hlr
                  (Forall_bounds_forallb _ _ Htx))).
    apply IH. revert Hrest. apply pairs_pass_fields.
    intros i. destruct (with_intrinsic_gas_fields h s (sumZ (map tx_intrinsic_gas g)) i)
      as (_ & -> & -> & ->). done.
Qed.

Lemma sum_intrinsic_gas_None l s :
  s ∈ l -> intrinsic_gas s = None -> sum_intrinsic_gas l = None.
Proof.
  induction 1 as [s l|s s' l _ IH]; intros Hs; cbn [sum_intrinsic_gas].
  - by rewrite Hs.
  - rewrite (IH Hs). by destruct (intrinsic_gas s').
Qed.

(** C9, as the code has it. With lists of different lengths the loop of
    the constructor walks the zipped common prefix only. The constructor
    returns only if the pairs of the prefix pass the per-pair checks
    (hash, alignment, sorted disjoint bounds, enclosure of the
    transactions). When they pass, whatever lies beyond the prefix is
    looked at as follows and no further: groups beyond it are stored as
    they are; summaries beyond it are not checked by the loop and keep
    the object they are, but they enter the sum of intrinsic gas and the
    header root, so a summary beyond the prefix that has no intrinsic gas
    yet makes the constructor raise [AttributeError], and otherwise the
    block is built exactly when the sum is below GASLIMIT and the header
    root is the hash of all the summaries. *)
Theorem zip_prefix_checked hd txs (sums extra_sums : list nat)
    (groups extra_groups : list (list Transaction)) num prop sg (h : Heap) :
  length sums = length groups ->
  extra_sums = [] \/ extra_groups = [] ->
  let run := Block_init (Some hd) txs (Some (groups ++ extra_groups)%list)
                        (Some (sums ++ extra_sums)%list) num prop sg h in
  ((exists b h', run = Ok b h') -> pairs_pass 0 (zip (map h sums) groups)) /\
  (pairs_pass 0 (zip (map h sums) groups) ->
   exists h',
     (forall i, i ∉ sums -> h' i = h i) /\
     pairs_valid 0 (zip (map h' sums) groups) /\
     (let objs := map h' (sums ++ extra_sums)%list in
      run = match sum_intrinsic_gas objs with
            | None => Raise AttributeError h'
            | Some total =>
                if (total <? GASLIMIT)
                   && bool_decide (txroot hd = sha3 (rlp_encode_summaries objs))
                then Ok (mkBlock hd objs (groups ++ extra_groups)%list) h'
                else Raise AssertionError h'
            end) /\
     ((exists i, i ∈ extra_sums /\ (i ∉ sums) /\ intrinsic_gas (h i) = None) ->
      run = Raise AttributeError h')).
Proof.
  intros Hlen Hextra. cbn zeta.
  rewrite (zip_prefix_only hd txs sums extra_sums groups extra_groups num prop sg
             Hlen Hextra).
  assert (Hfst : (zip sums groups).*1 = sums).
  { clear -Hlen. revert groups Hlen.
    induction sums as [|s sums IH]; intros [|g groups] Hlen; simpl in *;
      [done|done|done|]. f_equal. apply IH. lia. }
  split.
  - intros (b & h' & H). inv_bind H as u h1 Hpairs.
    destruct (check_pairs_valid _ _ _ _ _ Hpairs) as (_ & Hval).
    destruct (check_pairs_store _ _ _ _ _ Hpairs) as (Hf & _).
    rewrite zip_map_fst. apply (pairs_pass_fields h1).
    + intros i. by destruct (Hf i) as (_ & ? & ? & ?).
    + by apply pairs_valid_pass.
  - intros Hpass. rewrite zip_map_fst in Hpass.
    destruct (check_pairs_pass _ _ _ Hpass) as (h' & Hpairs).
    destruct (check_pairs_valid _ _ _ _ _ Hpairs) as (_ & Hval).
    destruct (check_pairs_store _ _ _ _ _ Hpairs) as (_ & Hout & _).
    rewrite Hfst in Hout.
    assert (Hrun :
      (check_pairs 0 (zip sums groups) ;;
       let* objs := gets (fun h0 : Heap => map h0 (sums ++ extra_sums)%list) in
       let* total := lift_opt AttributeError (sum_intrinsic_gas objs) in
       assert (total <? GASLIMIT) ;;
       assert (bool_decide (txroot hd = sha3 (rlp_encode_summaries objs))) ;;
       ret (mkBlock hd objs (groups ++ extra_groups)%list)) h
      = match sum_intrinsic_gas (map h' (sums ++ extra_sums)%list) with
        | None => Raise AttributeError h'
        | Some total =>
            if (total <? GASLIMIT)
               && bool_decide (txroot hd
                               = sha3 (rlp_encode_summaries
                                         (map h' (sums ++ extra_sums)%list)))
            then Ok (mkBlock hd (map h' (sums ++ extra_sums)%list)
                             (groups ++ extra_groups)%list) h'
            else Raise AssertionError h'
        end).
    { rewrite (bind_eq_Ok _ _ _ _ _ Hpairs).
      unfold bind at 1. cbn [gets].
      destruct (sum_intrinsic_gas (map h' (sums ++ extra_sums)%list)) as [total|];
        [|done].
      unfold bind, lift_opt, assert, ret.
      destruct (total <? GASLIMIT); [|done].
      by destruct (bool_decide _). }
    exists h'. split; [done|]. split; [by rewrite zip_map_fst|].
    split; [exact Hrun|].
    intros (i & Hi & Hni & Hnone). rewrite Hrun.
    rewrite (sum_intrinsic_gas_None _ (h' i)); [done| |by rewrite Hout].
    apply list_elem_of_fmap. exists i. split; [done|].
    apply elem_of_app. by right.
Qed.

(** X24: a block built in auto-pack mode is accepted in explicit mode.
    With MAXSHARDS positive, when [Block(transactions=txs, ...)] returns a
    block, the constructor given that block's header and groups and a
    fresh summary object with the four fields of the block's summary
    returns the same block. *)
Theorem autopack_round_trip txs num prop sg (h h' : Heap) b
    (h2 : Heap) (i : nat) txs2 num2 prop2 sg2 :
  0 < MAXSHARDS ->
  Block_init None txs None None num prop sg h = Ok b h' ->
  h2 i = TransactionGroupSummary_init GASLIMIT 0 MAXSHARDS txs ->
  h' = h /\
  exists h2',
    Block_init (Some (header b)) txs2 (Some (transaction_groups b)) (Some [i])
               num2 prop2 sg2 h2 = Ok b h2' /\
    summaries b = [h2' i].
Proof.
  intros Hmax H Hi. unfold Block_init in H.
  inv_bind H as u h1 Hchk.
  inv_bind H as u2 h3 H2. apply assert_Ok in H2 as [Hlt ->].
  inversion H; subst b h1; clear H.
  assert (Htxs : forall (h0 h1 : Heap) u, check_transactions txs h0 = Ok u h1 ->
            h1 = h0 /\
            forallb (fun tx => (0 <=? tx_left_bound tx)
                               && (tx_left_bound tx <? tx_right_bound tx)
                               && (tx_right_bound tx <=? MAXSHARDS)) txs = true).
  { clear. induction txs as [|tx txs IH]; intros h0 h1 u H; cbn [check_transactions] in H.
    - by inversion H.
    - inv_bind H as al ha Ha. unfold divides_check in Ha.
      destruct (_ =? 0); [discriminate|]. inversion Ha; subst al ha; clear Ha.
      inv_bind H as u1 ha Ha. apply assert_Ok in Ha as [_ ->].
      inv_bind H as u2 ha Ha. apply assert_Ok in Ha as [Hb ->].
      destruct (IH _ _ _ H) as [-> Hrest]. split; [done|].
      cbn [forallb]. by rewrite Hb, Hrest. }
  destruct (Htxs _ _ _ Hchk) as [-> Hall]. split; [done|].
  cbn [header transaction_groups summaries gas_limit left_bound right_bound
       transaction_hash TransactionGroupSummary_init].
  set (total := sumZ (map tx_intrinsic_gas txs)) in *.
  set (s := mkSummary GASLIMIT 0 MAXSHARDS (sha3 (rlp_encode_txgroup txs)) (Some total)).
  assert (Hpair : check_pair 0 i txs h2 = Ok MAXSHARDS (with_intrinsic_gas h2 i total)).
  { replace MAXSHARDS with (right_bound (h2 i)) at 1 by by rewrite Hi.
    apply check_pair_Ok; rewrite Hi;
      cbn [TransactionGroupSummary_init left_bound right_bound transaction_hash];
      [done|lia|by rewrite Z.sub_0_r, Z.mod_0_l by lia|lia|lia|done]. }
  assert (Hobj : with_intrinsic_gas h2 i total i = s).
  { unfold with_intrinsic_gas. rewrite decide_True by done. by rewrite Hi. }
  exists (with_intrinsic_gas h2 i total). split; [|by rewrite Hobj].
  assert (Hpairs : check_pairs 0 (zip [i] [txs]) h2
                   = Ok tt (with_intrinsic_gas h2 i total)).
  { cbn [zip_with check_pairs]. by rewrite (bind_eq_Ok _ _ _ _ _ Hpair). }
  unfold Block_init. rewrite (bind_eq_Ok _ _ _ _ _ Hpairs).
  unfold bind at 1. cbn [gets map]. rewrite Hobj.
  unfold bind, lift_opt, assert, ret.
  cbn [sum_intrinsic_gas intrinsic_gas s]. rewrite Z.add_0_r. rewrite Hlt.
  cbn [txroot]. by rewrite bool_decide_eq_true_2.
Qed.

(** X25: a transaction whose range is empty is refused by a division by
    zero. In auto-pack mode, when the transactions before it pass their
    checks, a transaction with [left_bound = right_bound] makes the
    constructor raise [ZeroDivisionError]: the alignment test divides by
    the width before any bound is compared. *)
Theorem empty_range_divides_by_zero txs1 tx txs2 num prop sg (h : Heap) :
  Forall (fun t => tx_left_bound t mod (tx_right_bound t - tx_left_bound t) = 0 /\
                   0 <= tx_left_bound t < tx_right_bound t /\
                   tx_right_bound t <= MAXSHARDS) txs1 ->
  tx_left_bound tx = tx_right_bound tx ->
  Block_init None (txs1 ++ tx :: txs2)%list None None num prop sg h
  = Raise ZeroDivisionError h.
Proof.
  intros Hok Heq. unfold Block_init. apply bind_eq_Raise.
  induction Hok as [|t txs1 (Hmod & Hb & Hm) Hok IH]; cbn [app check_transactions].
  - apply bind_eq_Raise. unfold divides_check.
    rewrite Heq, Z.sub_diag. reflexivity.
  - assert (Hw : tx_right_bound t - tx_left_bound t <> 0) by lia.
    unfold divides_check at 1. rewrite (proj2 (Z.eqb_neq _ _) Hw).
    unfold bind at 1. unfold ret at 1. rewrite (proj2 (Z.eqb_eq _ _) Hmod).
    unfold bind at 1. unfold assert at 1. unfold ret at 1.
    rewrite (proj2 (Z.leb_le _ _) (proj1 Hb)).
    rewrite (proj2 (Z.ltb_lt _ _) (proj2 Hb)).
    rewrite (proj2 (Z.leb_le _ _) Hm). cbn [andb].
    unfold bind at 1. unfold assert at 1. unfold ret at 1. exact IH.
Qed.

End BlockInitMore.

(** ** The code store *)

Section CodeStore.
Context {E : Env} {EL : EnvLaws E}.

Lemma revert_from_db n j : forall s, db (res_world (revert_from n j s)) = db s.
Proof.
  induction j as [|e j IH]; intros s; cbn [revert_from]; [done|].
  case_decide; [|done]. destruct e as [a k p|c m rt].
  - unfold cache_store. cbn [cache set_journal].
    destruct (cache s !! a) as [sub|]; [|done].
    by rewrite IH.
  - by rewrite IH.
Qed.

(** X26: [revert] does not roll back the code store. A [put_code] made
    after a snapshot and then reverted leaves every storage read as it was
    before the snapshot, the code hash at key [''] included, while the
    code stays in the store under its hash. *)
Theorem put_code_survives_revert a code s a' :
  normalize_address a = Some a' ->
  exists t0 s0 s1 s2,
    snapshot s = Ok t0 s0 /\ put_code a code s0 = Ok tt s1 /\
    revert t0 s1 = Ok tt s2 /\
    (forall qs, read_all qs s2 = read_all qs s) /\
    db s2 !! (UNHASH_MAGIC_BYTES +:+ sha3 code) = Some code.
Proof.
  intros Hn.
  set (sd := set_db (<[UNHASH_MAGIC_BYTES +:+ sha3 code := code]> (db s)) s).
  destruct (set_storage_Ok a (PStr "") (PStr (sha3 code)) sd a' Hn)
    as (s1 & Hset & _ & Hdb & _).
  destruct (follows_set _ _ _ _ _ _ Hset) as (_ & s2 & Hrev & Heq).
  subst sd. exists (length (journal s)), s, s1, s2.
  split; [done|]. split; [unfold put_code, db_put, bind, modify; by rewrite Hset|].
  split; [done|]. split.
  - intros qs. apply read_all_view. intros x y.
    destruct Heq as (_ & _ & Hv & _). rewrite Hv. by apply view_ext.
  - pose proof (revert_from_db (length (journal s)) (journal s1) s1) as Hd.
    unfold revert in Hrev. cbn [journal set_db] in Hrev.
    rewrite Hrev in Hd. cbn [res_world] in Hd. rewrite Hd, Hdb.
    cbn [db set_db]. apply lookup_insert_eq.
Qed.

(** X27: what [puthashdata] stores, [unhash] finds. A program run
    through [VMExt] that puts [d] and then asks for the data of [sha3(d)]
    runs as if it had been handed [d]. *)
Theorem puthashdata_unhash call d cont w :
  run_vm call VMExt (VPutHashData d (VUnhash (sha3 d) cont)) w
  = run_vm call VMExt (VPutHashData d (cont d)) w.
Proof.
  cbn [run_vm ext_puthashdata ext_unhash].
  unfold bind, on_state, db_put, db_get, modify.
  cbn [st set_st db set_db]. by rewrite lookup_insert_eq.
Qed.

End CodeStore.

(** ** Further properties on the sample instance *)

Module MoreSampleFacts.
Import Sample MoreSample.
#[local] Existing Instance sample_env.

(** X1 on the sample instance. *)
Lemma reachable_states_wf_witness : wf (exec_calls sample_calls (State_init ∅ ∅)).
Proof.
  exact (reachable_states_wf (E:=sample_env) (EL:=SampleFacts.sample_laws) ∅ ∅ sample_calls).
Defined.

(** X2 on the sample instance. *)
Lemma get_storage_pure_witness :
  journal s_read = journal s_written /\ modified s_read = modified s_written /\
  root_hash s_read = root_hash s_written /\ db s_read = db s_written /\
  get_storage (addr_of 20) (PInt 1) s_read = Ok (encode_int32 5) s_read /\
  forall qs, read_all qs s_read = read_all qs s_written.
Proof.
  apply (get_storage_pure (E:=sample_env) (addr_of 20) (PInt 1) s_written
           (encode_int32 5) s_read).
  vm_compute. reflexivity.
Defined.

(** X3 on the sample instance. *)
Lemma set_storage_read_back_witness :
  exists s', set_storage (addr_of 20) (PInt 1) (PInt 5) s0 = Ok tt s' /\
    length (journal s') = S (length (journal s0)) /\
    read s' (addr_of 20) (PInt 1) = inl (canon (PInt 5)) /\
    read s' (addr_of 20) (PStr (canon (PInt 1))) = inl (canon (PInt 5)) /\
    (forall z, PInt 5 = PInt z -> big_endian_to_int (canon (PInt 5)) = z) /\
    (forall b j,
       in_range j ->
       (forall b', normalize_address b = Some b' ->
                   (b', canon j) <> (addr_of 20, canon (PInt 1))) ->
       read s' b j = read s0 b j) /\
    (forall z z',
       PInt 1 = PInt z -> 0 <= z' < 2 ^ 256 -> z' <> z ->
       read s' (addr_of 20) (PInt z') = read s0 (addr_of 20) (PInt z')).
Proof.
  apply (set_storage_read_back (E:=sample_env) (EL:=SampleFacts.sample_laws)
           (addr_of 20) (PInt 1) (PInt 5) s0).
  - split; [discriminate|reflexivity].
  - split; [discriminate|reflexivity].
Defined.

(** X5 on the sample instance. *)
Lemma commit_preserves_reads_witness :
  exists s', commit s_written = Ok tt s' /\ wf s' /\
             forall qs, read_all qs s' = read_all qs s_written.
Proof.
  apply (commit_preserves_reads (E:=sample_env) s_written).
  apply (exec_calls_wf (EL:=SampleFacts.sample_laws)), wf_init.
Defined.

(** X7 on the sample instance. *)
Lemma revert_total_witness :
  (exists s', wf s' /\
     revert_any 0 s_written = Ok tt s' /\
     Z.of_nat (length (journal s')) = Z.min 0 (Z.of_nat (length (journal s_written))) /\
     (Z.of_nat (length (journal s_written)) <= 0 -> s' = s_written)) /\
  (exists s', wf s' /\
     revert_any (-1) s_written = Raise IndexError s' /\
     revert_any 0 s_written = Ok tt s' /\ journal s' = []).
Proof.
  assert (Hwf : wf s_written)
    by (apply (exec_calls_wf (EL:=SampleFacts.sample_laws)), wf_init).
  split.
  - exact (revert_total (E:=sample_env) (EL:=SampleFacts.sample_laws) 0 s_written Hwf).
  - exact (revert_total (E:=sample_env) (EL:=SampleFacts.sample_laws) (-1) s_written Hwf).
Defined.

(** X8 on the sample instance. *)
Lemma static_call_untouched_witness :
  st w_static = st w_slot /\ empty_st w_static = empty_st w_slot /\
  transition_cache_map w_static = transition_cache_map w_slot.
Proof.
  exact (static_call_untouched (E:=sample_env) (EL:=SampleFacts.sample_laws)
           2 plain_msg "read" false w_slot).
Defined.

(** X9 on the sample instance. *)
Lemma apply_msg_keeps_wf_witness : wf (st w_failed).
Proof.
  apply (apply_msg_keeps_wf (E:=sample_env) (EL:=SampleFacts.sample_laws)
           2 VMExt plain_msg "fail" false w0).
  exact (wf_init ∅ ∅).
Defined.


(** X11 on the sample instance. *)
Lemma insufficient_balance_quits_witness :
  exists w',
    apply_msg 1 VMExt poor_msg "" false w0 = Ok (1, msg_gas poor_msg, []) w' /\
    journal (st w') = journal (st w0) /\
    eve_cache w' = eve_cache w0 /\
    forall qs, read_all qs (st w') = read_all qs (st w0).
Proof.
  apply (insufficient_balance_quits (E:=sample_env) 0 poor_msg "" false w0 "").
  - reflexivity.
  - vm_compute. reflexivity.
  - vm_compute. reflexivity.
Defined.

(** X12 on the sample instance. *)
Lemma transfer_moves_value_witness :
  exists w',
    transfer_value VMExt poor_msg w_rich = Ok false w' /\
    (read (st w') (match_shard ETHER (addr_of 30)) (PStr (addr_of 30))
     = inl (encode_int32 (big_endian_to_int (encode_int32 10) - 1)) /\
     read (st w') (match_shard ETHER (addr_of 31)) (PStr (addr_of 31))
     = inl (encode_int32 (big_endian_to_int "" + 1))) /\
    forall a k,
      (forall a', normalize_address a = Some a' ->
                  (a', canon k) <> (addr_of 5, addr_of 30) /\
                  (a', canon k) <> (addr_of 5, addr_of 31)) ->
      read (st w') a k = read (st w_rich) a k.
Proof.
  apply (transfer_moves_value (E:=sample_env) (EL:=SampleFacts.sample_laws)
           poor_msg w_rich (addr_of 5) (addr_of 5) (encode_int32 10) "").
  - reflexivity.
  - reflexivity.
  - reflexivity.
  - reflexivity.
  - vm_compute. reflexivity.
  - vm_compute. reflexivity.
  - vm_compute. discriminate.
Defined.

(** X13 on the sample instance. *)
Lemma apply_msg_keeps_older_journal_witness :
  exists newer, journal (st w_called) = (newer ++ journal (st w_slot))%list.
Proof.
  apply (apply_msg_keeps_older_journal (E:=sample_env) (EL:=SampleFacts.sample_laws)
           2 VMExt plain_msg "read" false w_slot (7, 10, []) w_called).
  vm_compute. reflexivity.
Defined.

(** X14 on the sample instance. *)
Lemma put_code_get_code_witness :
  exists s1 s2, put_code (addr_of 20) "keep" s0 = Ok tt s1 /\
                get_code (addr_of 20) s1 = Ok "keep" s2.
Proof.
  apply (put_code_get_code (E:=sample_env) (EL:=SampleFacts.sample_laws)
           (addr_of 20) "keep" s0 (addr_of 20)).
  - reflexivity.
  - vm_compute. discriminate.
Defined.

(** X15 on the sample instance. *)
Lemma get_code_cases_witness :
  exists s', get_code (addr_of 20) s_code = Ok "keep" s'.
Proof.
  assert (Hr : read s_code (addr_of 20) (PStr "") = inl (sha3 "keep"))
    by (vm_compute; reflexivity).
  assert (Hm : (if decide (sha3 "keep" = "") then Some ""
                else db s_code !! (UNHASH_MAGIC_BYTES +:+ sha3 "keep")) = Some "keep")
    by (vm_compute; reflexivity).
  pose proof (get_code_cases (E:=sample_env) (addr_of 20) s_code (sha3 "keep") Hr) as G.
  rewrite Hm in G. exact G.
Defined.

(** X16 on the sample instance. *)
Lemma tx_advances_txindex_witness :
  exists vi,
    read (st w_gas) (shardify EXECUTION_STATE 0) TXINDEX = inl vi /\
    read (st w_plain_done) (shardify EXECUTION_STATE 0) TXINDEX
      = inl (encode_int32 (big_endian_to_int vi + 1)) /\
    big_endian_to_int (encode_int32 (big_endian_to_int vi + 1))
      = big_endian_to_int vi + 1.
Proof.
  apply (tx_advances_txindex (E:=sample_env) (EL:=SampleFacts.sample_laws)
           2 tx_plain 0 256 false (2 ^ 255) w_gas (Some []) w_plain_done).
  vm_compute. reflexivity.
Defined.

(** X17 on the sample instance. *)
Lemma tx_gas_accounting_witness :
  exists vg txindex w1 deploy w2 start w3 result left_over w4,
    read (st w_gas) (shardify EXECUTION_STATE 0) GAS_REMAINING = inl vg /\
    tx_prologue tx_plain 0 256 w_gas = Ok (Some (txindex, big_endian_to_int vg)) w1 /\
    tx_deploy_needed tx_plain w1 = Ok deploy w2 /\
    (if (deploy : bool)
     then tx_deploy 2 tx_plain 0 256 false (2 ^ 255) txindex
     else ret (Some (Z.min (exec_gas tx_plain) (2 ^ 255)))) w2 = Ok (Some start) w3 /\
    tx_execute 2 tx_plain 0 false txindex start w3 = Ok (result, left_over, []) w4 /\
    0 <= left_over <= start /\ start <= exec_gas tx_plain /\
    exec_gas tx_plain <= big_endian_to_int vg /\
    read (st w_plain_done) (shardify EXECUTION_STATE 0) GAS_REMAINING
      = inl (encode_int32 (big_endian_to_int vg - exec_gas tx_plain + left_over)) /\
    0 <= big_endian_to_int vg - exec_gas tx_plain + left_over <= big_endian_to_int vg.
Proof.
  apply (tx_gas_accounting (E:=sample_env) (EL:=SampleFacts.sample_laws)
           2 tx_plain 0 256 false (2 ^ 255) w_gas [] w_plain_done).
  - apply SampleFacts.sample_accounts_distinct.
  - vm_compute. discriminate.
  - vm_compute. reflexivity.
Defined.

(** X18 on the sample instance. *)
Lemma tx_keeps_witness :
  (wf (st w_gas) -> wf (st w_plain_done)) /\
  empty_st w_plain_done = empty_st w_gas /\
  transition_cache_map w_plain_done = transition_cache_map w_gas.
Proof.
  exact (tx_keeps (E:=sample_env) (EL:=SampleFacts.sample_laws)
           2 tx_plain 0 256 false (2 ^ 255) w_gas).
Defined.

(** X19 on the sample instance. *)
Lemma block_keeps_witness :
  (wf (st w0) -> wf (st w_block_done)) /\
  empty_st w_block_done = empty_st w0 /\
  forall key r, transition_cache_map w0 !! key = Some r ->
                transition_cache_map w_block_done !! key = Some r.
Proof.
  exact (block_keeps (E:=sample_env) (EL:=SampleFacts.sample_laws) 2 None w0).
Defined.

(** X20 on the sample instance. *)
Lemma block_advances_number_witness :
  exists v0, read (st w0) BLKNUMBER (PInt 0) = inl v0 /\
    let n := big_endian_to_int v0 in
    number (header block_zero) = n /\
    read (st w_zero_done) BLKNUMBER (PInt 0) = inl (encode_int32 (n + 1)) /\
    big_endian_to_int (encode_int32 (n + 1)) = n + 1 /\
    read (st w_zero_done) BLOCKHASHES (PStr (encode_int32 n))
    = inl (sha3 (rlp_encode_header (header block_zero))).
Proof.
  apply (block_advances_number (E:=sample_env) (EL:=SampleFacts.sample_laws)
           2 (Some block_zero) w0 w_zero_done (addr_of 3) (addr_of 1) (addr_of 7)).
  - exact (wf_init ∅ ∅).
  - reflexivity.
  - reflexivity.
  - reflexivity.
  - discriminate.
  - discriminate.
  - discriminate.
  - vm_compute. reflexivity.
Defined.

(** X21 on the sample instance. *)
Lemma wrong_number_refused_witness :
  exists w', block_state_transition 2 (Some block_five) w0 = Raise AssertionError w' /\
             read (st w') BLKNUMBER (PInt 0) = inl "".
Proof.
  apply (wrong_number_refused (E:=sample_env) (EL:=SampleFacts.sample_laws)
           2 block_five w0 "" (addr_of 3) (addr_of 2) (addr_of 6)).
  - exact (wf_init ∅ ∅).
  - reflexivity.
  - reflexivity.
  - reflexivity.
  - discriminate.
  - discriminate.
  - vm_compute. reflexivity.
  - vm_compute. discriminate.
Defined.

(** X22 on the sample instance. *)
Lemma empty_slot_completes_witness :
  transition_cache_map w_block_done <> ∅ /\
  exists w',
    block_state_transition 2 None w_block_done = Ok tt w' /\
    transition_cache_map w'
    = <[pre_second +:+ "NONE" := trie_root_hash (root_hash (st w'))]>
        (transition_cache_map w_block_done) /\
    cache (st w') = ∅.
Proof.
  split; [vm_compute; discriminate|].
  apply (empty_slot_completes (E:=sample_env) (EL:=SampleFacts.sample_laws)
           2 w_block_done pre_second
           (addr_of 3) (addr_of 2) (addr_of 6) (addr_of 1) (addr_of 7) (addr_of 4)).
  - reflexivity.
  - reflexivity.
  - reflexivity.
  - reflexivity.
  - reflexivity.
  - reflexivity.
  - vm_compute. reflexivity.
  - vm_compute. reflexivity.
Defined.

(** X23 on the sample instance. *)
Lemma explicit_block_valid_witness :
  header block_wide = header_for [summary_wide] /\
  transaction_groups block_wide = [[]] /\
  summaries block_wide = map heap_wide_done [0%nat] /\
  NoDup (take (length [[] : list Transaction]) [0%nat]) /\
  pairs_valid 0 (zip (summaries block_wide) (transaction_groups block_wide)) /\
  (exists total, sum_intrinsic_gas (summaries block_wide) = Some total /\
                 total < GASLIMIT) /\
  txroot (header block_wide) = sha3 (rlp_encode_summaries (summaries block_wide)).
Proof.
  apply (explicit_block_valid (E:=sample_env) (header_for [summary_wide]) []
           [[]] [0%nat] 0 "" "" heap_wide heap_wide_done block_wide).
  vm_compute. reflexivity.
Defined.

(** X24 on the sample instance. *)
Lemma autopack_round_trip_witness :
  heap_wide = heap_wide /\
  exists h2',
    Block_init (Some (header block_auto)) [] (Some (transaction_groups block_auto))
               (Some [0%nat]) 9 "" "" heap_fresh = Ok block_auto h2' /\
    summaries block_auto = [h2' 0%nat].
Proof.
  apply (autopack_round_trip (E:=sample_env) [tx_plain] 0 (addr_of 0) ""
           heap_wide heap_wide block_auto heap_fresh 0%nat [] 9 "" "").
  - reflexivity.
  - vm_compute. reflexivity.
  - reflexivity.
Defined.

(** X25 on the sample instance. *)
Lemma empty_range_divides_by_zero_witness :
  Block_init None ([tx_plain] ++ tx_empty :: [])%list None None 0 "" "" heap_wide
  = Raise ZeroDivisionError heap_wide.
Proof.
  apply (empty_range_divides_by_zero (E:=sample_env) [tx_plain] tx_empty []
           0 "" "" heap_wide).
  - constructor; [|constructor]. vm_compute. repeat split; congruence.
  - reflexivity.
Defined.

(** X26 on the sample instance. *)
Lemma put_code_survives_revert_witness :
  exists t0 s1 s2 s3,
    snapshot s0 = Ok t0 s1 /\ put_code (addr_of 20) "keep" s1 = Ok tt s2 /\
    revert t0 s2 = Ok tt s3 /\
    (forall qs, read_all qs s3 = read_all qs s0) /\
    db s3 !! (UNHASH_MAGIC_BYTES +:+ sha3 "keep") = Some "keep".
Proof.
  apply (put_code_survives_revert (E:=sample_env) (EL:=SampleFacts.sample_laws)
           (addr_of 20) "keep" s0 (addr_of 20)).
  reflexivity.
Defined.

(** C9 fails for a summary beyond the prefix that comes fresh, without an
    intrinsic gas: the header root is the hash of both summaries and the
    pair of the prefix passes every check, yet the constructor raises
    [AttributeError] on the sum over the summaries. *)
Lemma fresh_extra_summary_refused :
  txroot (header_for [summary_wide; heap_wide 1%nat])
  = sha3 (rlp_encode_summaries
            (map (with_intrinsic_gas heap_wide 0 0) [0%nat; 1%nat])) /\
  check_pairs 0 (zip [0%nat] [[]]) heap_wide = Ok tt (with_intrinsic_gas heap_wide 0 0) /\
  Block_init (Some (header_for [summary_wide; heap_wide 1%nat])) []
             (Some [[]]) (Some [0%nat; 1%nat]) 0 "" "" heap_wide
  = Raise AttributeError (with_intrinsic_gas heap_wide 0 0).
Proof.
  split; [vm_compute; reflexivity|].
  split; vm_compute; reflexivity.
Qed.

(** C9 on the sample instance: one summary beyond the prefix, already
    holding an intrinsic gas, with a backward range and a foreign hash. *)
Lemma zip_prefix_checked_witness :
  pairs_pass 0 (zip (map heap_stray [0%nat]) [[]]) /\
  exists h',
    (forall i, i ∉ [0%nat] -> h' i = heap_stray i) /\
    pairs_valid 0 (zip (map h' [0%nat]) [[]]) /\
    (let objs := map h' ([0%nat] ++ [1%nat])%list in
     Block_init (Some (header_for [summary_wide; summary_stray])) []
                (Some ([[]] ++ [])%list) (Some ([0%nat] ++ [1%nat])%list)
                0 "" "" heap_stray
     = match sum_intrinsic_gas objs with
       | None => Raise AttributeError h'
       | Some total =>
           if (total <? GASLIMIT)
              && bool_decide (txroot (header_for [summary_wide; summary_stray])
                              = sha3 (rlp_encode_summaries objs))
           then Ok (mkBlock (header_for [summary_wide; summary_stray]) objs
                            ([[]] ++ [])%list) h'
           else Raise AssertionError h'
       end) /\
    ((exists i, i ∈ [1%nat] /\ (i ∉ [0%nat]) /\ intrinsic_gas (heap_stray i) = None) ->
     Block_init (Some (header_for [summary_wide; summary_stray])) []
                (Some ([[]] ++ [])%list) (Some ([0%nat] ++ [1%nat])%list)
                0 "" "" heap_stray
     = Raise AttributeError h').
Proof.
  assert (Hpass : pairs_pass 0 (zip (map heap_stray [0%nat]) [[]])).
  { cbn [map zip_with pairs_pass].
    split; [reflexivity|]. split; [reflexivity|].
    split; [vm_compute; split; discriminate|].
    split; [vm_compute; split; [reflexivity|discriminate]|].
    split; [constructor|exact I]. }
  split; [exact Hpass|].
  exact (proj2 (zip_prefix_checked (E:=sample_env)
                  (header_for [summary_wide; summary_stray]) []
                  [0%nat] [1%nat] [[]] [] 0 "" "" heap_stray
                  eq_refl (or_intror eq_refl)) Hpass).
Defined.

(** The block of that witness is built: the stray summary at location 1
    is stored with its backward range and its foreign hash. *)
Lemma stray_extra_summary_accepted :
  Block_init (Some (header_for [summary_wide; summary_stray])) []
             (Some [[]]) (Some [0%nat; 1%nat]) 0 "" "" heap_stray
  = Ok (mkBlock (header_for [summary_wide; summary_stray])
                [summary_wide; summary_stray] [[]]) heap_stray_done.
Proof. vm_compute. reflexivity. Qed.

End MoreSampleFacts.
